(** * notes-db: the tag-normalization engine

    A shallow embedding of the note store's tag-normalization code
    ([notes_database.py], [apply_tag_normalization.py],
    [suggest_tag_normalization.py]) and the properties its specification
    states about it, followed by the commands around it ([add_note.py],
    [notes_sql_backdoor.py]), the pure parts of the blog generator
    ([blog_utils.py], [blog_themes.py]) and further properties of all of
    them.

    Conventions.
    - Python [int] is [Z], [len] and counters are [nat], [float] is the
      kernel's binary64 [float], [str] is [string] read as a sequence of code
      points below 256.
    - A [dict] whose iteration order is observed (the similarity graph, the
      tag tally) is an association list in insertion order; [notes_data],
      which is only looked up, is a [gmap]; the [visited] set is a [gset].
    - Code that talks to the connection, prints or raises runs in the monad
      [M]: a state monad over [world] with Python exceptions. *)

From Stdlib Require Import PrimFloat Ascii Floats.
From stdpp Require Import base list gmap strings pretty relations sorting.

(** ** Python string methods *)

(** [str.isspace] on one code point below 256. *)
Definition isspace (c : ascii) : bool :=
  let n := nat_of_ascii c in
  (Nat.leb 9 n && Nat.leb n 13) || (Nat.leb 28 n && Nat.leb n 32)
  || Nat.eqb n 133 || Nat.eqb n 160.

Fixpoint lstrip (s : string) : string :=
  match s with
  | String c s' => if isspace c then lstrip s' else s
  | EmptyString => EmptyString
  end.

Definition rstrip (s : string) : string := String.rev (lstrip (String.rev s)).

(** [s.strip()] *)
Definition strip (s : string) : string := rstrip (lstrip s).

(** [s.split(sep)] for a one-character separator: never the empty list. *)
Fixpoint split (sep : ascii) (s : string) : list string :=
  match s with
  | EmptyString => [EmptyString]
  | String c s' =>
      if decide (c = sep) then EmptyString :: split sep s'
      else match split sep s' with
           | p :: ps => String c p :: ps
           | [] => [String c EmptyString]
           end
  end.

(** [sep.join(l)] *)
Fixpoint join (sep : string) (l : list string) : string :=
  match l with
  | [] => EmptyString
  | [x] => x
  | x :: l' => x +:+ sep +:+ join sep l'
  end.

Definition nl : string := String "010"%char EmptyString.

(** ** The storage engine

    The tables are read off the SQL statements of the sources:
    [notes(note_id, title, content, embedding, created_at)],
    [tags(tag_id, name)] and [note_tags(note_id, tag_id)]. *)

Record note_row := {
  n_note_id : Z;
  n_title : string;
  n_content : string;
  n_embedding : list float;
  n_created_at : Z }.

Record tag_row := { t_tag_id : Z; t_name : string }.

Record note_tag_row := { nt_note_id : Z; nt_tag_id : Z }.

(** Modelled from the spec: [notes_schema.sql] is not among the sources, so
    what it declares is taken from the spec's data model ("Note: identifier
    (integer, unique)", "Tag: identifier, unique name. Created lazily"): the
    identifiers that [INSERT ... RETURNING] hands back come from two
    counters, and [created_at] defaults to the engine's clock. *)
Record database := {
  notes : list note_row;
  tags : list tag_row;
  note_tags : list note_tag_row;
  note_id_seq : Z;
  tag_id_seq : Z;
  clock : Z }.

Definition set_tags (db : database) (ts : list tag_row) (seq : Z) : database :=
  {| notes := notes db; tags := ts; note_tags := note_tags db;
     note_id_seq := note_id_seq db; tag_id_seq := seq; clock := clock db |}.

Definition set_note_tags (db : database) (nts : list note_tag_row) : database :=
  {| notes := notes db; tags := tags db; note_tags := nts;
     note_id_seq := note_id_seq db; tag_id_seq := tag_id_seq db;
     clock := clock db |}.

Definition set_notes (db : database) (ns : list note_row) (seq : Z) : database :=
  {| notes := ns; tags := tags db; note_tags := note_tags db;
     note_id_seq := seq; tag_id_seq := tag_id_seq db; clock := clock db |}.

(** [SELECT tag_id FROM tags WHERE name = ?] followed by [fetchone()]. *)
Definition select_tag_id (nm : string) (db : database) : option Z :=
  t_tag_id <$> head (filter (λ t, t_name t = nm) (tags db)).

(** [INSERT INTO tags (name) VALUES (?) RETURNING tag_id] *)
Definition insert_tag (nm : string) (db : database) : Z * database :=
  let id := tag_id_seq db in
  (id, set_tags db (tags db ++ [{| t_tag_id := id; t_name := nm |}]) (id + 1)%Z).

(** [SELECT 1 FROM notes WHERE note_id = ?] followed by [fetchone()],
    read as a truth value. *)
Definition select_note_exists (id : Z) (db : database) : bool :=
  bool_decide (id ∈ n_note_id <$> notes db).

(** [SELECT t.tag_id, t.name FROM note_tags nt JOIN tags t
     ON nt.tag_id = t.tag_id WHERE nt.note_id = ?] *)
Definition select_note_tags (id : Z) (db : database) : list (Z * string) :=
  nt ← filter (λ nt, nt_note_id nt = id) (note_tags db);
  t ← filter (λ t, t_tag_id t = nt_tag_id nt) (tags db);
  [(t_tag_id t, t_name t)].

(** [DELETE FROM note_tags WHERE note_id = ? AND tag_id = ?] *)
Definition delete_note_tag (id tid : Z) (db : database) : database :=
  set_note_tags db
    (filter (λ nt, ¬ (nt_note_id nt = id ∧ nt_tag_id nt = tid)) (note_tags db)).

(** [INSERT INTO note_tags (note_id, tag_id) VALUES (?, ?)] *)
Definition insert_note_tag (id tid : Z) (db : database) : database :=
  set_note_tags db (note_tags db ++ [{| nt_note_id := id; nt_tag_id := tid |}]).

(** [INSERT INTO notes (title, content, embedding) VALUES (?, ?, ?)
     RETURNING note_id] *)
Definition insert_note (ttl cnt : string) (emb : list float) (db : database)
  : Z * database :=
  let id := note_id_seq db in
  (id, set_notes db
         (notes db ++ [{| n_note_id := id; n_title := ttl; n_content := cnt;
                          n_embedding := emb; n_created_at := clock db |}])
         (id + 1)%Z).

(** [EXISTS (SELECT 1 FROM note_tags nt WHERE nt.note_id = n.note_id)] *)
Definition has_tag_link (db : database) (id : Z) : bool :=
  bool_decide (id ∈ nt_note_id <$> note_tags db).

(** [(SELECT STRING_AGG(t.name, ', ') FROM note_tags nt JOIN tags t
      ON nt.tag_id = t.tag_id WHERE nt.note_id = n.note_id)]: [NULL] when no
    row is aggregated. *)
Definition string_agg_tags (db : database) (id : Z) : option string :=
  match (select_note_tags id db).*2 with
  | [] => None
  | names => Some (join ", " names)
  end.

(** The engine's order on [DOUBLE]: the numeric order, with NaN equal to
    itself and above every other value. *)
Definition sql_le (x y : float) : bool := PrimFloat.leb x y || PrimFloat.is_nan y.

Fixpoint insert_sorted {A} (le : A → A → bool) (x : A) (l : list A) : list A :=
  match l with
  | [] => [x]
  | y :: l' => if le x y then x :: l else y :: insert_sorted le x l'
  end.

(** [ORDER BY]: a stable sort of the rows by the order [le] of their keys. *)
Definition order_by {A} (le : A → A → bool) (l : list A) : list A :=
  foldr (insert_sorted le) [] l.

(** ** The connection and the world around it *)

(** [db.conn]: the data on disk and, inside a transaction, the working copy
    the statements act on. *)
Record connection := { committed : database; txn : option database }.

Definition current (c : connection) : database := default (committed c) (txn c).

Definition write (c : connection) (db : database) : connection :=
  match txn c with
  | Some _ => {| committed := committed c; txn := Some db |}
  | None => {| committed := db; txn := None |}
  end.

(** A Python exception: its class and [str(e)]. *)
Record exn := { exn_class : string; str : string }.

Definition ValueError (msg : string) : exn :=
  {| exn_class := "ValueError"; str := msg |}.

Definition TransactionException (msg : string) : exn :=
  {| exn_class := "TransactionException"; str := msg |}.

(** What a call of [sync_database_to_github] does: it returns
    [(success, message)], or lets an exception other than
    [CalledProcessError] escape (git_utils.py catches only that class). *)
Inductive sync_outcome :=
  | SyncReturns (success : bool) (message : string)
  | SyncRaises (e : exn).

(** [faults k] is the failure, if any, that the engine raises on the [k]-th
    data statement issued through the connection (a storage failure or a
    constraint violation); [executed] counts the statements issued so far. *)
Record world := {
  conn : connection;
  executed : nat;
  faults : nat → option exn;
  git_sync : sync_outcome;
  stdout : list string;
  stderr : list string }.

Definition set_conn (w : world) (c : connection) : world :=
  {| conn := c; executed := executed w; faults := faults w;
     git_sync := git_sync w; stdout := stdout w; stderr := stderr w |}.

Inductive outcome (A : Type) :=
  | Return (a : A)
  | Raise (e : exn).
Arguments Return {A} a.
Arguments Raise {A} e.

Definition M (A : Type) : Type := world → outcome A * world.

Definition ret {A} (a : A) : M A := λ w, (Return a, w).

Definition bind {A B} (m : M A) (k : A → M B) : M B := λ w,
  match m w with
  | (Return a, w') => k a w'
  | (Raise e, w') => (Raise e, w')
  end.

#[global] Instance M_ret : MRet M := @ret.
#[global] Instance M_bind : MBind M := λ A B k m, bind m k.

(** [raise e] *)
Definition raise {A} (e : exn) : M A := λ w, (Raise e, w).

(** [try: body except Exception as e: handler(e)] *)
Definition try_except {A} (body : M A) (handler : exn → M A) : M A := λ w,
  match body w with
  | (Return a, w') => (Return a, w')
  | (Raise e, w') => handler e w'
  end.

(** [try: body finally: fin] *)
Definition try_finally {A} (body : M A) (fin : M unit) : M A := λ w,
  match body w with
  | (r, w') =>
      match fin w' with
      | (Return _, w'') => (r, w'')
      | (Raise e, w'') => (Raise e, w'')
      end
  end.

(** [click.echo(s)] and [click.echo(s, err=True)] *)
Definition echo (s : string) : M unit := λ w,
  (Return tt,
   {| conn := conn w; executed := executed w; faults := faults w;
      git_sync := git_sync w; stdout := stdout w ++ [s]; stderr := stderr w |}).

Definition echo_err (s : string) : M unit := λ w,
  (Return tt,
   {| conn := conn w; executed := executed w; faults := faults w;
      git_sync := git_sync w; stdout := stdout w; stderr := stderr w ++ [s] |}).

(** [db.conn.execute(stmt, params)] for a data statement: it fails as
    [faults] says, without effect, or runs [stmt] on the current data. *)
Definition execute {A} (stmt : database → A * database) : M A := λ w,
  let w1 :=
    {| conn := conn w; executed := S (executed w); faults := faults w;
       git_sync := git_sync w; stdout := stdout w; stderr := stderr w |} in
  match faults w (executed w) with
  | Some e => (Raise e, w1)
  | None =>
      let '(a, db') := stmt (current (conn w)) in
      (Return a, set_conn w1 (write (conn w) db'))
  end.

(** A [SELECT]: a statement that changes nothing. *)
Definition query {A} (q : database → A) : M A := execute (λ db, (q db, db)).

(** A statement without [RETURNING]. *)
Definition update (u : database → database) : M unit := execute (λ db, (tt, u db)).

(** [db.conn.execute("BEGIN TRANSACTION")] *)
Definition begin_transaction : M unit := λ w,
  match txn (conn w) with
  | Some _ =>
      (Raise (TransactionException
                "TransactionContext Error: cannot start a transaction within a transaction"), w)
  | None =>
      (Return tt,
       set_conn w {| committed := committed (conn w);
                     txn := Some (committed (conn w)) |})
  end.

(** [db.conn.execute("COMMIT")] *)
Definition commit : M unit := λ w,
  match txn (conn w) with
  | Some db => (Return tt, set_conn w {| committed := db; txn := None |})
  | None =>
      (Raise (TransactionException
                "TransactionContext Error: cannot commit - no transaction is active"), w)
  end.

(** [db.conn.execute("ROLLBACK")] *)
Definition rollback : M unit := λ w,
  match txn (conn w) with
  | Some _ =>
      (Return tt, set_conn w {| committed := committed (conn w); txn := None |})
  | None =>
      (Raise (TransactionException
                "TransactionContext Error: cannot rollback - no transaction is active"), w)
  end.

(** [db.close()]: an open transaction is dropped with the connection. *)
Definition close : M unit := λ w,
  (Return tt, set_conn w {| committed := committed (conn w); txn := None |}).

(** [sync_database_to_github(db_path, "Normalize tags")] *)
Definition sync_database_to_github : M (bool * string) := λ w,
  match git_sync w with
  | SyncReturns success message => (Return (success, message), w)
  | SyncRaises e => (Raise e, w)
  end.

(** [for x in l: s = body(x, s)] *)
Fixpoint for_each {A S} (l : list A) (body : A → S → M S) (s : S) : M S :=
  match l with
  | [] => mret s
  | x :: l' => s' ← body x s; for_each l' body s'
  end.

(** ** notes_database.py: [NotesDatabase] *)

(** [if tags:] and [if tag_filter:] -- Python truthiness. *)
Definition truthy_list {A} (o : option (list A)) : list A := default [] o.

Definition truthy_str (o : option string) : option string :=
  match o with
  | Some EmptyString | None => None
  | Some s => Some s
  end.

(** The first [SELECT]/[INSERT ... RETURNING] pair of [add_note] and of
    [apply_tag_normalization]: the id of the tag called [tag_name], which is
    created when no such tag exists. *)
Definition get_or_create_tag (tag_name : string) : M Z :=
  result ← query (select_tag_id tag_name);
  match result with
  | Some tag_id => mret tag_id
  | None => execute (insert_tag tag_name)
  end.

(** [NotesDatabase.add_note] *)
Definition add_note (title content : string) (embedding : list float)
    (tags : option (list string)) : M Z :=
  if negb (Nat.eqb (length embedding) 3072) then
    raise (ValueError "Embedding must be exactly 3072 dimensions")
  else
    begin_transaction;;
    try_except
      (note_id ← execute (insert_note title content embedding);
       for_each (truthy_list tags)
         (λ tag_name (_ : unit),
            tag_id ← get_or_create_tag tag_name;
            update (insert_note_tag note_id tag_id)) tt;;
       commit;;
       mret note_id)
      (λ e, rollback;; raise e).

(** One row of [search_notes_by_similarity]'s result, with the keys of the
    dictionary the method builds. *)
Record search_result := {
  sr_note_id : Z;
  sr_title : string;
  sr_content : string;
  sr_created_at : Z;
  sr_distance : float;
  sr_tags : option string }.

Section Engine.

(** The engine's [<=>] on two stored embeddings: the cosine distance. *)
Context (cosine_distance : list float → list float → float).

(** The query of [search_notes_by_similarity]: every note, or the notes
    linked to a tag called [tag_filter], by ascending distance, [limit] rows
    at most. *)
Definition search_query (query_embedding : list float) (limit : nat)
    (tag_filter : option string) (db : database) : list search_result :=
  let selected :=
    match truthy_str tag_filter with
    | Some tag =>
        filter (λ n, tag ∈ (select_note_tags (n_note_id n) db).*2) (notes db)
    | None => notes db
    end in
  take limit
    (order_by (λ r1 r2, sql_le (sr_distance r1) (sr_distance r2))
       ((λ n, {| sr_note_id := n_note_id n; sr_title := n_title n;
                 sr_content := n_content n; sr_created_at := n_created_at n;
                 sr_distance := cosine_distance (n_embedding n) query_embedding;
                 sr_tags := string_agg_tags db (n_note_id n) |}) <$> selected)).

(** [NotesDatabase.search_notes_by_similarity]; [limit] is a row count. *)
Definition search_notes_by_similarity (query_embedding : list float)
    (limit : nat) (tag_filter : option string) : M (list search_result) :=
  if negb (Nat.eqb (length query_embedding) 3072) then
    raise (ValueError "Query embedding must be exactly 3072 dimensions")
  else
    query (search_query query_embedding limit tag_filter).

End Engine.

(** ** apply_tag_normalization.py

    The command first asks git whether the checkout is behind its remote and
    parses its comma-separated options; [apply_tag_normalization] below is
    what it does from there on (lines 45-159), given the parsed
    [note_id_list] and [replace_tag_list]. *)

Record counters := {
  notes_updated : nat;
  tags_removed : nat;
  tags_added : nat }.

(** Lines 59-61 *)
Definition zero_counters : counters :=
  {| notes_updated := 0; tags_removed := 0; tags_added := 0 |}.

(** Lines 80-126: the body of [for note_id in note_id_list]. *)
Definition normalize_note (keep_tag : string) (replace_tag_list : list string)
    (primary_tag_id : Z) (note_id : Z) (c : counters) : M counters :=
  note_exists ← query (select_note_exists note_id);
  if negb note_exists then
    echo ("Warning: Note ID " +:+ pretty note_id +:+ " not found. Skipping.");;
    mret c
  else
    current_tags_result ← query (select_note_tags note_id);
    let current_tag_ids := current_tags_result.*1 in
    let current_tag_names := current_tags_result.*2 in
    let has_primary_tag := bool_decide (keep_tag ∈ current_tag_names) in
    let tags_to_remove :=
      (filter (λ p, p.2 ∈ replace_tag_list)
         (zip current_tag_ids current_tag_names)).*1 in
    removed ←
      match tags_to_remove with
      | [] => mret (tags_removed c)
      | _ =>
          for_each tags_to_remove
            (λ tag_id (_ : unit), update (delete_note_tag note_id tag_id)) tt;;
          mret (tags_removed c + length tags_to_remove)
      end;
    added ←
      (if negb has_primary_tag then
         update (insert_note_tag note_id primary_tag_id);;
         mret (tags_added c + 1)
       else mret (tags_added c));
    mret {| notes_updated := notes_updated c + 1;
            tags_removed := removed;
            tags_added := added |}.

(** Lines 58-129: what runs between [BEGIN TRANSACTION] and the end of
    [COMMIT]. *)
Definition transaction_steps (note_id_list : list Z) (keep_tag : string)
    (replace_tag_list : list string) : M counters :=
  primary_tag_id ← get_or_create_tag keep_tag;
  c ← for_each note_id_list
         (normalize_note keep_tag replace_tag_list primary_tag_id)
         zero_counters;
  commit;;
  mret c.

(** Lines 131-147: the report and the push to GitHub, still inside the
    inner [try]. *)
Definition report_and_sync (c : counters) : M unit :=
  echo (nl +:+ "--- Tag Normalization Complete ---");;
  echo ("Notes updated: " +:+ pretty (notes_updated c));;
  echo ("Tags removed: " +:+ pretty (tags_removed c));;
  echo ("Tags added: " +:+ pretty (tags_added c));;
  echo (nl +:+ "--- GitHub Synchronization ---");;
  '(success, message) ← sync_database_to_github;
  if success : bool then
    echo "Database successfully synced with GitHub";;
    echo "✓ Committed with message: 'Normalize tags'";;
    echo "✓ Pushed changes to GitHub"
  else
    echo_err ("GitHub sync: " +:+ message).

(** Lines 149-153: the handler of the inner [try]. *)
Definition rollback_handler (e : exn) : M unit :=
  rollback;;
  echo_err ("Error applying tag normalizations: " +:+ str e);;
  echo "No changes were made to the database.".

(** Lines 49-52: the details the command prints before it begins. *)
Definition announce (note_id_list : list Z) (keep_tag : string)
    (replace_tag_list : list string) : M unit :=
  echo (nl +:+ "--- Tag Normalization Details ---");;
  echo ("Notes to update: " +:+ join ", " (pretty <$> note_id_list));;
  echo ("Tag to keep: '" +:+ keep_tag +:+ "'");;
  echo ("Tags to replace: "
        +:+ join ", " ((λ tag, "'" +:+ tag +:+ "'") <$> replace_tag_list)).

Definition apply_tag_normalization (note_id_list : list Z) (keep_tag : string)
    (replace_tag_list : list string) : M unit :=
  try_finally
    (try_except
       (announce note_id_list keep_tag replace_tag_list;;
        begin_transaction;;
        try_except
          (c ← transaction_steps note_id_list keep_tag replace_tag_list;
           report_and_sync c)
          rollback_handler)
       (λ e, echo_err ("Error: " +:+ str e)))
    close.

(** A fresh run of the command on the stored data [db]: a connection with no
    transaction open, nothing printed yet. *)
Definition start (db : database) (f : nat → option exn) (g : sync_outcome)
  : world :=
  {| conn := {| committed := db; txn := None |}; executed := 0; faults := f;
     git_sync := g; stdout := []; stderr := [] |}.

(** The data on disk once a run is over. *)
Definition stored {A} (r : outcome A * world) : database := committed (conn r.2).

Definition no_faults : nat → option exn := λ _, None.

(** ** suggest_tag_normalization.py *)

(** A note as [cluster_similar_notes] hands it on: the dictionary with the
    keys ['note_id'], ['title'] and ['tags']. *)
Module Note.
Record t := { note_id : Z; title : string; tags : list string }.
End Note.

(** [TagNormalizationSuggestion]; [tags] maps a tag name to its count, in
    insertion order. *)
Module Suggestion.
Record t := {
  note_ids : list Z;
  note_titles : list string;
  tags : list (string * nat);
  most_common_tag : string }.
End Suggestion.

(** [TagNormalizationSuggestion.get_other_tags] *)
Definition get_other_tags (self : Suggestion.t) (keep_tag : option string)
  : list string :=
  let tag_to_keep := default (Suggestion.most_common_tag self) (truthy_str keep_tag) in
  filter (λ tag, tag ≠ tag_to_keep) (Suggestion.tags self).*1.

(** [d.get(k)] on a dictionary kept in insertion order. *)
Fixpoint dict_get {V} (k : Z) (d : list (Z * V)) : option V :=
  match d with
  | [] => None
  | (k', v) :: d' => if decide (k' = k) then Some v else dict_get k d'
  end.

(** [if k not in d: d[k] = []] *)
Definition dict_setdefault {V} (k : Z) (d : list (Z * list V)) : list (Z * list V) :=
  match dict_get k d with
  | Some _ => d
  | None => d ++ [(k, [])]
  end.

(** [d[k].append(x)] *)
Fixpoint dict_append {V} (k : Z) (x : V) (d : list (Z * list V)) : list (Z * list V) :=
  match d with
  | [] => []
  | (k', v) :: d' =>
      if decide (k' = k) then (k', v ++ [x]) :: d' else (k', v) :: dict_append k x d'
  end.

(** Line 65 *)
Definition distance_threshold (similarity_threshold : float) : float :=
  (1 - similarity_threshold)%float.

(** Lines 69-81: the notes that have a link in [note_tags], each with the
    names of its tags joined by [', ']. *)
Definition notes_with_tags_query (db : database) : list (Z * string * option string) :=
  (λ n, (n_note_id n, n_title n, string_agg_tags db (n_note_id n)))
    <$> filter (λ n, has_tag_link db (n_note_id n)) (notes db).

(** Line 89 *)
Definition parse_tags (tags : option string) : list string :=
  strip <$> match truthy_str tags with
            | Some s => split ","%char s
            | None => []
            end.

(** Lines 87-96 *)
Definition build_notes_data (notes_with_tags : list (Z * string * option string))
  : gmap Z Note.t :=
  foldl (λ notes_data '(note_id, title, tags),
           match parse_tags tags with
           | [] => notes_data
           | tags_list =>
               <[note_id := {| Note.note_id := note_id; Note.title := title;
                               Note.tags := tags_list |}]> notes_data
           end)
        ∅ notes_with_tags.

(** [ORDER BY note1_id, distance] *)
Definition pair_le (p q : Z * Z * float) : bool :=
  bool_decide (p.1.1 < q.1.1)%Z
  || (bool_decide (p.1.1 = q.1.1) && sql_le p.2 q.2).

(** Lines 136-144 *)
Definition build_similarity_graph (similar_pairs : list (Z * Z * float))
  : list (Z * list (Z * float)) :=
  foldl (λ similarity_graph '(note1_id, note2_id, distance),
           dict_append note2_id (note1_id, distance)
             (dict_append note1_id (note2_id, distance)
                (dict_setdefault note2_id
                   (dict_setdefault note1_id similarity_graph))))
        [] similar_pairs.

(** Lines 159-173: the [while stack] loop. The Python list [stack] is kept
    with its top first; [None] stands for a loop that is still running when
    [fuel] iterations are over. *)
Fixpoint dfs (fuel : nat) (similarity_graph : list (Z * list (Z * float)))
    (notes_data : gmap Z Note.t) (stack : list Z) (visited : gset Z)
    (cluster : list Note.t) : option (gset Z * list Note.t) :=
  match fuel with
  | 0 => None
  | S fuel =>
      match stack with
      | [] => Some (visited, cluster)
      | current_id :: stack =>
          if decide (current_id ∈ visited) then
            dfs fuel similarity_graph notes_data stack visited cluster
          else
            let visited := {[current_id]} ∪ visited in
            let cluster :=
              match notes_data !! current_id with
              | Some note => cluster ++ [note]
              | None => cluster
              end in
            let stack :=
              foldl (λ stack '(neighbor_id, _),
                       if decide (neighbor_id ∈ visited) then stack
                       else neighbor_id :: stack)
                    stack (default [] (dict_get current_id similarity_graph)) in
            dfs fuel similarity_graph notes_data stack visited cluster
      end
  end.

(** Iterations that always suffice for one [while stack] loop. *)
Definition dfs_fuel (similarity_graph : list (Z * list (Z * float))) : nat :=
  2 + sum_list ((λ e, length e.2) <$> similarity_graph).

(** Lines 151-177: [for note_id in similarity_graph], over the keys still
    to come. *)
Fixpoint find_clusters_from (keys : list Z)
    (similarity_graph : list (Z * list (Z * float)))
    (notes_data : gmap Z Note.t) (visited : gset Z)
    (clusters : list (list Note.t)) : option (list (list Note.t)) :=
  match keys with
  | [] => Some clusters
  | note_id :: keys =>
      if decide (note_id ∈ visited) then
        find_clusters_from keys similarity_graph notes_data visited clusters
      else
        match dfs (dfs_fuel similarity_graph) similarity_graph notes_data
                [note_id] visited [] with
        | None => None
        | Some (visited, cluster) =>
            find_clusters_from keys similarity_graph notes_data visited
              (if Nat.leb 2 (length cluster) then clusters ++ [cluster]
               else clusters)
        end
  end.

(** Lines 146-179: the clustering step. *)
Definition find_clusters (similarity_graph : list (Z * list (Z * float)))
    (notes_data : gmap Z Note.t) : option (list (list Note.t)) :=
  find_clusters_from similarity_graph.*1 similarity_graph notes_data ∅ [].

Section Clustering.

Context (cosine_distance : list float → list float → float).

(** Lines 104-130: the self-join that yields the similar pairs. *)
Definition similar_pairs_query (distance_threshold : float) (db : database)
  : list (Z * Z * float) :=
  order_by pair_le
    (n1 ← notes db;
     n2 ← notes db;
     let distance := cosine_distance (n_embedding n1) (n_embedding n2) in
     if bool_decide (n_note_id n1 < n_note_id n2)%Z
        && has_tag_link db (n_note_id n1)
        && has_tag_link db (n_note_id n2)
        && sql_le distance distance_threshold
     then [(n_note_id n1, n_note_id n2, distance)]
     else []).

(** [cluster_similar_notes(db, similarity_threshold)], as a function of the
    data its two queries read; its progress messages are left out. *)
Definition cluster_similar_notes (db : database) (similarity_threshold : float)
  : option (list (list Note.t)) :=
  let notes_with_tags := notes_with_tags_query db in
  match notes_with_tags with
  | [] => Some []
  | _ =>
      let notes_data := build_notes_data notes_with_tags in
      match size notes_data with
      | 0 => Some []
      | _ =>
          let similar_pairs :=
            similar_pairs_query (distance_threshold similarity_threshold) db in
          match similar_pairs with
          | [] => Some []
          | _ => find_clusters (build_similarity_graph similar_pairs) notes_data
          end
      end
  end.

End Clustering.

(** [tag_counts[tag] += 1] on a [defaultdict(int)] *)
Fixpoint increment (tag : string) (tag_counts : list (string * nat))
  : list (string * nat) :=
  match tag_counts with
  | [] => [(tag, 1)]
  | (t, n) :: rest =>
      if decide (t = tag) then (t, n + 1) :: rest else (t, n) :: increment tag rest
  end.

(** Lines 196-199 *)
Definition count_tags (cluster : list Note.t) : list (string * nat) :=
  foldl (λ tag_counts note,
           foldl (λ tag_counts tag, increment tag tag_counts)
                 tag_counts (Note.tags note))
        [] cluster.

(** [max(items, key=lambda x: x[1])] once a first item is at hand: the first
    of the items with the greatest count. *)
Fixpoint max_by_count (best : string * nat) (items : list (string * nat))
  : string * nat :=
  match items with
  | [] => best
  | x :: rest => max_by_count (if Nat.ltb best.2 x.2 then x else best) rest
  end.

(** Line 206, for a tally that is not empty. *)
Definition most_common (tag_counts : list (string * nat)) : string :=
  match tag_counts with
  | [] => EmptyString
  | x :: rest => (max_by_count x rest).1
  end.

(** Lines 194-217: what one cluster adds to [suggestions]. *)
Definition suggest_for_cluster (suggestions : list Suggestion.t)
    (cluster : list Note.t) : list Suggestion.t :=
  let tag_counts := count_tags cluster in
  if Nat.leb (length tag_counts) 1 then suggestions
  else
    let most_common_tag := most_common tag_counts in
    if Nat.ltb 1 (length tag_counts) then
      suggestions ++
        [{| Suggestion.note_ids := Note.note_id <$> cluster;
            Suggestion.note_titles := Note.title <$> cluster;
            Suggestion.tags := tag_counts;
            Suggestion.most_common_tag := most_common_tag |}]
    else suggestions.

Definition find_tag_normalization_suggestions (clusters : list (list Note.t))
  : list Suggestion.t :=
  foldl suggest_for_cluster [] clusters.

(** ** apply_tag_normalization.py: the command line

    Lines 21-42 of the command: the check against the remote and the parsing
    of the options, before [apply_tag_normalization] above takes over. *)

(** *** Python's [int] on a [str]

    [int(s)] for the base 10: optional white space, an optional sign, decimal
    digits with single underscores between them, optional white space; more
    than [sys.get_int_max_str_digits()] digits are refused. *)

Definition is_digit (c : ascii) : bool :=
  let n := nat_of_ascii c in Nat.leb 48 n && Nat.leb n 57.

Definition digit_value (c : ascii) : Z := Z.of_nat (nat_of_ascii c - 48).

(** The white space [int] skips around a literal: the C locale's, and the
    two Unicode spaces below 256 that [int] turns into blanks first. *)
Definition int_space (c : ascii) : bool :=
  let n := nat_of_ascii c in
  (Nat.leb 9 n && Nat.leb n 13) || Nat.eqb n 32 || Nat.eqb n 133 || Nat.eqb n 160.

Fixpoint skip_int_space (s : string) : string :=
  match s with
  | String c s' => if int_space c then skip_int_space s' else s
  | EmptyString => EmptyString
  end.

(** The digits of a literal, read from the left: the value so far, the
    number of digits so far and the rest of the text once the literal is
    over; [prev] is the character just read. An underscore is refused next
    to another one and at the end of the literal. *)
Fixpoint scan_digits (prev : ascii) (acc : Z) (digits : nat) (s : string)
  : option (Z * nat * string) :=
  match s with
  | String c s' =>
      if is_digit c then
        scan_digits c (10 * acc + digit_value c) (S digits) s'
      else if Ascii.eqb c "_" then
        if Ascii.eqb prev "_" then None else scan_digits c acc digits s'
      else if Ascii.eqb prev "_" then None else Some (acc, digits, s)
  | EmptyString => if Ascii.eqb prev "_" then None else Some (acc, digits, s)
  end.

(** The default of [sys.get_int_max_str_digits()]. *)
Definition max_str_digits : nat := 4300.

(** [int(s)]; [None] is a [ValueError]. *)
Definition py_int (s : string) : option Z :=
  let s := skip_int_space s in
  let '(negative, s) :=
    match s with
    | String c s' =>
        if Ascii.eqb c "+" then (false, s')
        else if Ascii.eqb c "-" then (true, s')
        else (false, s)
    | EmptyString => (false, s)
    end in
  match s with
  | EmptyString => None
  | String c _ =>
      if Ascii.eqb c "_" then None
      else
        match scan_digits "000" 0 0 s with
        | Some (value, digits, rest) =>
            match skip_int_space rest with
            | EmptyString =>
                if Nat.leb 1 digits && Nat.leb digits max_str_digits then
                  Some (if negative : bool then - value else value)%Z
                else None
            | _ => None
            end
        | None => None
        end
  end.

(** Line 34: [[int(id.strip()) for id in note_ids.split(',')]]; [None] is
    the [ValueError] of the first item that is no integer. *)
Definition parse_note_ids (note_ids : string) : option (list Z) :=
  mapM (λ id, py_int (strip id)) (split "," note_ids).

(** Line 35: [[tag.strip() for tag in replace_tags.split(',')]] *)
Definition parse_replace_tags (replace_tags : string) : list string :=
  strip <$> split "," replace_tags.

(** The command [apply_tag_normalization(note_ids, keep_tag, replace_tags)],
    given what [check_if_behind_remote()] said. *)
Definition apply_tag_normalization_command (is_behind : bool)
    (note_ids keep_tag replace_tags : string) : M unit :=
  if is_behind then
    echo_err "Error: Local repository is behind remote.";;
    echo "Please run 'git pull' to update your local repository before applying changes.";;
    echo "This is required to avoid database conflicts."
  else
    match parse_note_ids note_ids with
    | None =>
        echo_err "Error: Invalid format for note IDs or tags. Use comma-separated values."
    | Some note_id_list =>
        match note_id_list with
        | [] => echo_err "Error: No valid note IDs provided."
        | _ =>
            apply_tag_normalization note_id_list keep_tag
              (parse_replace_tags replace_tags)
        end
    end.

(** ** suggest_tag_normalization.py: the ids a suggestion prints

    Line 24 of [TagNormalizationSuggestion.__str__]:
    [",".join(map(str, self.note_ids))], the text after [--note-ids] in the
    commands a suggestion proposes. *)
Definition note_ids_str (self : Suggestion.t) : string :=
  join "," (pretty <$> Suggestion.note_ids self).

(** ** add_note.py *)

(** Timestamps are counted in microseconds; [strftime("%Y-%m-%d %H:%M:%S")]
    drops what is below one second. *)
Definition seconds_only (t : Z) : Z := (t `div` 1000000 * 1000000)%Z.

(** Line 80: [(datetime.now() - timedelta(days=7)).strftime(...)] *)
Definition one_week_ago (now : Z) : Z :=
  seconds_only (now - 7 * 86400 * 1000000).

(** [ORDER BY note_count DESC, t.name] *)
Definition usage_le (a b : string * nat) : bool :=
  Nat.ltb b.2 a.2 || (Nat.eqb a.2 b.2 && String.leb a.1 b.1).

(** Lines 93-99: every tag name with the number of links to a tag of that
    name. *)
Definition tag_usage_query (db : database) : list (string * nat) :=
  order_by usage_le
    ((λ nm, (nm, length (t ← filter (λ t, t_name t = nm) (tags db);
                         filter (λ nt, nt_tag_id nt = t_tag_id t) (note_tags db))))
       <$> remove_dups (t_name <$> tags db)).

(** [display_database_stats(db)], run at the time [now]. *)
Definition display_database_stats (now : Z) : M unit :=
  echo (nl +:+ "--- Database Statistics ---");;
  total_notes ← query (λ db, length (notes db));
  echo ("Total notes: " +:+ pretty total_notes);;
  recent_notes ←
    query (λ db, length (filter (λ n, (one_week_ago now ≤ n_created_at n)%Z)
                           (notes db)));
  echo ("Notes created in the last 7 days: " +:+ pretty recent_notes);;
  total_tags ← query (λ db, length (tags db));
  echo ("Total unique tags: " +:+ pretty total_tags);;
  (if Nat.ltb 0 total_tags then
     tag_counts ← query tag_usage_query;
     echo (nl +:+ "Tag usage:");;
     for_each tag_counts
       (λ '(tag_name, count) (_ : unit),
          echo ("  - " +:+ tag_name +:+ ": " +:+ pretty count +:+ " note(s)")) tt
   else mret tt);;
  echo "---------------------------".

(** Line 39: [[tag] if tag else []] *)
Definition tag_argument (tag : option string) : list string :=
  match truthy_str tag with Some tag => [tag] | None => [] end.

Section AddNoteCommand.

(** [get_embedding(content)]: the call of the embedding service, which
    returns a vector or raises. *)
Context (get_embedding : string → exn + list float).

(** The command [add_note(title, content, tag)], given what
    [check_if_behind_remote()] returned and the time of the run. *)
Definition add_note_command (is_behind : bool) (message : string) (now : Z)
    (title content : string) (tag : option string) : M unit :=
  echo "Checking Git repository status...";;
  if is_behind then
    echo_err ("Error: " +:+ message);;
    echo "Please run 'git pull' to update your local repository before adding a note.";;
    echo "This is required to avoid database conflicts."
  else
    echo "Git repository is up to date.";;
    embedding ← (match get_embedding content with
                 | inl e => raise e
                 | inr embedding => mret embedding
                 end);
    try_finally
      (try_except
         (note_id ← add_note title content embedding (Some (tag_argument tag));
          echo ("Note added successfully with ID: " +:+ pretty note_id);;
          display_database_stats now;;
          echo (nl +:+ "--- GitHub Synchronization ---");;
          '(success, message) ← sync_database_to_github;
          if success : bool then
            echo "Database successfully synced with GitHub";;
            echo ("✓ Committed with message: 'Add note: " +:+ title +:+ "'");;
            echo "✓ Pushed changes to GitHub"
          else
            echo_err ("GitHub sync: " +:+ message);;
            if decide (message = "No changes to commit") then
              echo "Note has been added to the database but no Git changes were needed."
            else
              echo "Possible issues:";;
              echo "  - Not in a Git repository";;
              echo "  - Database is outside the Git repository";;
              echo "  - Git remote is not configured";;
              echo "  - Authentication issues with remote repository")
         (λ e, echo_err ("Error adding note: " +:+ str e)))
      close.

End AddNoteCommand.

(** ** notes_sql_backdoor.py *)

(** [duckdb.StatementType]: the members the command names, and any other
    member under its name. *)
Inductive StatementType :=
  | SELECT | INSERT | UPDATE | DELETE | EXPLAIN
  | OtherStatement (name : string).

#[global] Instance StatementType_eq_dec : EqDecision StatementType.
Proof. solve_decision. Defined.

(** Line 64: [str(stmt.type).split('.')[-1]] *)
Definition type_name (t : StatementType) : string :=
  match t with
  | SELECT => "SELECT" | INSERT => "INSERT" | UPDATE => "UPDATE"
  | DELETE => "DELETE" | EXPLAIN => "EXPLAIN"
  | OtherStatement name => name
  end.

(** Lines 54-60 *)
Definition allowed_types : list StatementType :=
  [SELECT; INSERT; UPDATE; DELETE; EXPLAIN].

(** Lines 70-73 *)
Definition is_readonly_query (statements : list StatementType) : bool :=
  forallb (λ t, bool_decide (t ∈ [SELECT; EXPLAIN])) statements.

(** The statement the [for] loop of lines 62-67 stops at, if any. *)
Definition first_disallowed (statements : list StatementType)
  : option StatementType :=
  head (filter (λ t, t ∉ allowed_types) statements).

(** What reading a local variable that was never assigned raises (the
    message is the one of Python 3.11 and later). *)
Definition UnboundLocalError (name : string) : exn :=
  {| exn_class := "UnboundLocalError";
     str := "cannot access local variable '" +:+ name
            +:+ "' where it is not associated with a value" |}.

(** [s * n] *)
Fixpoint repeat_string (s : string) (n : nat) : string :=
  match n with
  | 0 => EmptyString
  | S n => s +:+ repeat_string s n
  end.

Section Backdoor.

(** The engine's parser, [db.conn.extract_statements], and its interpreter
    of an arbitrary query on the stored data: the rows with their values
    printed by [str] ([None] for [NULL]) and the column names of
    [db.conn.description], or an exception; the data may have changed in
    both cases. *)
Context (extract_statements : string → exn + list StatementType).
Context (run_sql : string → database
                   → outcome (list (list (option string)) * option (list string))
                     * database).

(** [db.conn.execute(query)] with [fetchall()] and [db.conn.description]. *)
Definition execute_sql (query : string)
  : M (list (list (option string)) * option (list string)) := λ w,
  let '(r, db') := run_sql query (current (conn w)) in
  (r, set_conn w (write (conn w) db')).

(** Lines 47-73: up to the assignment of [is_readonly]; [None] is one of the
    two early [return]s. *)
Definition check_statements (query : string) : M (option bool) :=
  statements ← (match extract_statements query with
                | inl e => raise e
                | inr statements => mret statements
                end);
  match statements with
  | [] => echo "Error: No valid SQL statement found.";; mret None
  | _ =>
      match first_disallowed statements with
      | Some t =>
          echo ("Error: Statement type '" +:+ type_name t
                +:+ "' is not allowed for safety reasons.");;
          echo "Only SELECT, INSERT, UPDATE, DELETE, and EXPLAIN statements are permitted.";;
          mret None
      | None => mret (Some (is_readonly_query statements))
      end
  end.

(** Lines 97-107: one row of the table. *)
Definition format_row (row : list (option string)) : string :=
  join " | " (default "NULL" <$> row).

(** Lines 76-115 *)
Definition run_query (is_readonly : bool) (query : string) : M unit :=
  if is_readonly then
    '(results, description) ← execute_sql query;
    let column_names := default [] description in
    match results with
    | [] => echo "Query executed successfully. No results returned."
    | _ =>
        echo (nl +:+ "--- Query Results ---");;
        let header_row := join " | " column_names in
        echo header_row;;
        echo (repeat_string "-" (String.length header_row));;
        for_each results (λ row (_ : unit), echo (format_row row)) tt;;
        echo (nl +:+ pretty (length results) +:+ " row(s) returned")
    end
  else
    execute_sql query;;
    echo "Query executed successfully.".

(** Lines 119-140: the [finally] block, with what [is_readonly] is bound to
    when it runs, if it is bound at all. *)
Definition finally_block (is_readonly : option bool) : M unit :=
  match is_readonly with
  | None => raise (UnboundLocalError "is_readonly")
  | Some is_readonly =>
      (if negb is_readonly then
         echo (nl +:+ "--- GitHub Synchronization ---");;
         '(success, message) ← sync_database_to_github;
         if success : bool then
           echo "✓ Database successfully synced with GitHub";;
           echo "✓ Changes committed and pushed to remote"
         else echo_err ("GitHub sync: " +:+ message)
       else mret tt);;
      close
  end.

(** Lines 46-140 of [notes_sql_backdoor]: the [try] statement. When the
    body leaves before line 70, by an exception or by an early [return],
    the [finally] block runs with [is_readonly] unbound. *)
Definition notes_sql_backdoor (query : string) : M unit := λ w,
  let handler := λ e, echo_err ("Error executing SQL: " +:+ str e) in
  match check_statements query w with
  | (Raise e, w1) => (handler e;; finally_block None) w1
  | (Return None, w1) => finally_block None w1
  | (Return (Some is_readonly), w1) =>
      try_finally (try_except (run_query is_readonly query) handler)
        (finally_block (Some is_readonly)) w1
  end.

End Backdoor.

(** ** suggest_tag_normalization.py: the command's filter *)

(** Line 261 of the [suggest_tag_normalization] command:
    [[cluster for cluster in clusters if len(cluster) >= min_cluster_size]] *)
Definition filter_clusters (min_cluster_size : Z) (clusters : list (list Note.t))
  : list (list Note.t) :=
  filter (λ cluster, (min_cluster_size ≤ Z.of_nat (length cluster))%Z) clusters.

(** ** generate_blog/blog_utils.py *)

(** Lines 18-31 *)
Definition base_hues : list nat :=
  [15; 45; 75; 105; 135; 165; 195; 225; 255; 285; 315; 345].

(** [sum(ord(c) for c in tag)] *)
Fixpoint tag_hash (tag : string) : nat :=
  match tag with
  | EmptyString => 0
  | String c tag' => nat_of_ascii c + tag_hash tag'
  end.

(** [sorted(l)] on strings: by code points. *)
Definition sorted (l : list string) : list string := order_by String.leb l.

(** [enumerate(l)], counting from [i]. *)
Fixpoint enumerate {A} (i : nat) (l : list A) : list (nat * A) :=
  match l with
  | [] => []
  | x :: l' => (i, x) :: enumerate (S i) l'
  end.

(** [d[k] = v] on a dictionary kept in insertion order. *)
Fixpoint dict_set {V} (k : string) (v : V) (d : list (string * V))
  : list (string * V) :=
  match d with
  | [] => [(k, v)]
  | (k', v') :: d' =>
      if decide (k' = k) then (k', v) :: d' else (k', v') :: dict_set k v d'
  end.

(** [d.get(k)] *)
Fixpoint dict_lookup {V} (k : string) (d : list (string * V)) : option V :=
  match d with
  | [] => None
  | (k', v') :: d' => if decide (k' = k) then Some v' else dict_lookup k d'
  end.

(** Lines 37-39: the base hue of a tag. *)
Definition base_hue (tag : string) : nat :=
  default 0 (base_hues !! (tag_hash tag `mod` length base_hues)).

(** Lines 37-46: the colour of the tag at the position [i]. *)
Definition tag_color (i : nat) (tag : string) : string :=
  let hue := (base_hue tag + (i `mod` 3) * 5) `mod` 360 in
  "hsl(" +:+ pretty hue +:+ ", 70%, 90%)".

(** [generate_tag_colors(tags)] *)
Definition generate_tag_colors (tags : list string) : list (string * string) :=
  foldl (λ tag_colors '(i, tag), dict_set tag (tag_color i tag) tag_colors)
    [] (enumerate 0 (sorted tags)).

(** ** generate_blog/blog_themes.py *)

(** A note as [generate_blog_post] hands it over: the dictionary with the keys
    [id], [title], [content], [created_at] and [tags] of lines 73-80, where
    [tags] is what [STRING_AGG(t.name, ', ')] returned. *)
Module BlogNote.
Record t := {
  id : Z;
  title : string;
  content : string;
  created_at : option string;
  tags : option string }.
End BlogNote.

(** [s.split(", ")] *)
Fixpoint split_comma_space (s : string) : list string :=
  match s with
  | EmptyString => [EmptyString]
  | String c s' =>
      let unsplit :=
        match split_comma_space s' with
        | p :: ps => String c p :: ps
        | [] => [String c EmptyString]
        end in
      match s' with
      | String c' s'' =>
          if decide (c = ","%char ∧ c' = " "%char)
          then EmptyString :: split_comma_space s''
          else unsplit
      | EmptyString => unsplit
      end
  end.

(** Line 15: [note.get("tags", "").split(", ") if note.get("tags") else []] *)
Definition note_tag_list (note : BlogNote.t) : list string :=
  match truthy_str (BlogNote.tags note) with
  | Some tags => split_comma_space tags
  | None => []
  end.

(** [d[k].append(x)] on a [defaultdict(list)] kept in insertion order. *)
Fixpoint group_append {V} (k : string) (x : V) (d : list (string * list V))
  : list (string * list V) :=
  match d with
  | [] => [(k, [x])]
  | (k', l) :: d' =>
      if decide (k' = k) then (k', l ++ [x]) :: d'
      else (k', l) :: group_append k x d'
  end.

(** Lines 12-18 *)
Definition group_by_tag (notes : list BlogNote.t)
  : list (string * list BlogNote.t) :=
  foldl (λ tag_notes note,
           foldl (λ tag_notes tag,
                    if decide (tag = EmptyString) then tag_notes
                    else group_append tag note tag_notes)
                 tag_notes (note_tag_list note))
        [] notes.

Module Theme.
Record t := {
  name : string;
  description : string;
  notes : list Z;
  tag : string }.
End Theme.

(** [s.replace(old, new)] for one-character strings. *)
Fixpoint replace_char (old new : ascii) (s : string) : string :=
  match s with
  | EmptyString => EmptyString
  | String c s' =>
      String (if decide (c = old) then new else c) (replace_char old new s')
  end.

(** Lines 28-32 *)
Definition excerpt (content : string) : string :=
  if Nat.ltb 100 (String.length content)
  then String.substring 0 100 content +:+ "..."
  else content.

Section Themes.

(** [str.title] *)
Context (title_case : string → string).

(** Lines 25-45: the theme of a tag and its notes. *)
Definition theme_of (tag : string) (tag_note_list : list BlogNote.t) : Theme.t :=
  let note_excerpts := (λ note, excerpt (BlogNote.content note))
                         <$> take 3 tag_note_list in
  let description :=
    "There were " +:+ pretty (length tag_note_list) +:+ " notes related to "
    +:+ replace_char "-" " " tag +:+ ". " in
  let description :=
    match note_excerpts with
    | [] => description
    | _ => description +:+ "These included topics like: "
           +:+ join "; " (BlogNote.title <$> take 3 tag_note_list)
    end in
  {| Theme.name := title_case (replace_char "-" " " tag) +:+ " Focus";
     Theme.description := description;
     Theme.notes := BlogNote.id <$> tag_note_list;
     Theme.tag := tag |}.

(** [extract_themes(notes)] *)
Definition extract_themes (notes : list BlogNote.t) : list Theme.t :=
  let tag_notes := group_by_tag notes in
  let themes :=
    foldl (λ themes '(tag, tag_note_list),
             if Nat.leb 2 (length tag_note_list)
             then themes ++ [theme_of tag tag_note_list]
             else themes)
          [] tag_notes in
  order_by (λ a b, Nat.leb (length (Theme.notes b)) (length (Theme.notes a)))
    themes.

End Themes.

(** ** Notions the statements below are written with *)

(** No statement of the run hits a storage failure. *)
Definition fault_free (w : world) : Prop := ∀ k, faults w k = None.

(** What the schema promises about [tags]: [tag_id] is a key, and every key
    in use was handed out by the sequence. *)
Definition db_consistent (db : database) : Prop :=
  NoDup (t_tag_id <$> tags db)
  ∧ Forall (λ t, (t_tag_id t < tag_id_seq db)%Z) (tags db).

(** The names of the tags a note carries, as the applier reads them. *)
Definition tag_names_of (db : database) (id : Z) : list string :=
  (select_note_tags id db).*2.

(** Every tag name the members of a cluster carry, with repetitions. *)
Definition all_tags (cluster : list Note.t) : list string :=
  note ← cluster; Note.tags note.

(** The distinct tag names among the members of a cluster. *)
Definition distinct_tags (cluster : list Note.t) : list string :=
  remove_dups (all_tags cluster).

(** How often [tag] occurs among the tags of the members. *)
Definition occurrences (tag : string) (cluster : list Note.t) : nat :=
  length (filter (λ t, t = tag) (all_tags cluster)).

(** A similarity edge between [a] and [b], in either direction. *)
Definition edge (similar_pairs : list (Z * Z * float)) (a b : Z) : Prop :=
  ∃ d, (a, b, d) ∈ similar_pairs ∨ (b, a, d) ∈ similar_pairs.

(** The ids of the members of a cluster. *)
Definition member_ids (cluster : list Note.t) : list Z :=
  Note.note_id <$> cluster.

(** [a] and [b] are members of one cluster. *)
Definition same_cluster (clusters : list (list Note.t)) (a b : Z) : Prop :=
  ∃ c, c ∈ clusters ∧ a ∈ member_ids c ∧ b ∈ member_ids c.

(** The ids of all clustered notes, cluster after cluster. *)
Definition clustered_ids (clusters : list (list Note.t)) : list Z :=
  c ← clusters; member_ids c.

(** The count a tally holds for [tag]: [tag_counts.get(tag, 0)]. *)
Fixpoint tally_get (tag : string) (tag_counts : list (string * nat)) : nat :=
  match tag_counts with
  | [] => 0
  | (t, n) :: rest => if decide (t = tag) then n else tally_get tag rest
  end.

(** ** The applier without failures, as a function of the data

    What the statements of one run do to the database when none of them
    fails; [apply_tag_normalization] is shown below to compute exactly
    this. *)

Definition ensure_tag (tag_name : string) (db : database) : Z * database :=
  match select_tag_id tag_name db with
  | Some tag_id => (tag_id, db)
  | None => insert_tag tag_name db
  end.

Definition tags_to_remove_of (replace_tag_list : list string) (note_id : Z)
    (db : database) : list Z :=
  let rows := select_note_tags note_id db in
  (filter (λ p, p.2 ∈ replace_tag_list) (zip rows.*1 rows.*2)).*1.

Definition note_effect (keep_tag : string) (replace_tag_list : list string)
    (primary_tag_id : Z) (note_id : Z) (db : database) : database :=
  if select_note_exists note_id db then
    let db1 :=
      foldl (λ d tag_id, delete_note_tag note_id tag_id d) db
        (tags_to_remove_of replace_tag_list note_id db) in
    if bool_decide (keep_tag ∈ tag_names_of db note_id) then db1
    else insert_note_tag note_id primary_tag_id db1
  else db.

Definition note_count (keep_tag : string) (replace_tag_list : list string)
    (note_id : Z) (db : database) (c : counters) : counters :=
  if select_note_exists note_id db then
    {| notes_updated := notes_updated c + 1;
       tags_removed :=
         tags_removed c + length (tags_to_remove_of replace_tag_list note_id db);
       tags_added :=
         if bool_decide (keep_tag ∈ tag_names_of db note_id) then tags_added c
         else tags_added c + 1 |}
  else c.

Definition note_warning (note_id : Z) (db : database) : list string :=
  if select_note_exists note_id db then []
  else ["Warning: Note ID " +:+ pretty note_id +:+ " not found. Skipping."].

Fixpoint notes_effect (keep_tag : string) (replace_tag_list : list string)
    (primary_tag_id : Z) (note_id_list : list Z) (db : database) (c : counters)
  : database * counters * list string :=
  match note_id_list with
  | [] => (db, c, [])
  | note_id :: rest =>
      let '(db', c', out) :=
        notes_effect keep_tag replace_tag_list primary_tag_id rest
          (note_effect keep_tag replace_tag_list primary_tag_id note_id db)
          (note_count keep_tag replace_tag_list note_id db c) in
      (db', c', note_warning note_id db ++ out)
  end.

(** The whole transaction: the stored data it leaves, the counters it
    reports and the warnings it prints. *)
Definition normalized (note_id_list : list Z) (keep_tag : string)
    (replace_tag_list : list string) (db : database)
  : database * counters * list string :=
  let '(primary_tag_id, db1) := ensure_tag keep_tag db in
  notes_effect keep_tag replace_tag_list primary_tag_id note_id_list db1
    zero_counters.

(** The world [k] successful statements later, with the data [db] and the
    lines [out] printed. *)
Definition after (w : world) (k : nat) (db : database) (out : list string)
  : world :=
  {| conn := write (conn w) db; executed := k + executed w; faults := faults w;
     git_sync := git_sync w; stdout := stdout w ++ out; stderr := stderr w |}.

(** ** Invariants and measures of the proofs *)

(** A note the request has nothing left to do for: it carries the keep tag
    and none of the tags to replace. *)
Definition settled (keep_tag : string) (replace_tag_list : list string)
    (db : database) (id : Z) : Prop :=
  keep_tag ∈ tag_names_of db id
  ∧ ∀ nm, nm ∈ tag_names_of db id → nm ∉ replace_tag_list.

(** The world in which the transaction has just begun. *)
Definition begun (note_id_list : list Z) (keep_tag : string)
    (replace_tag_list : list string) (w : world) : world :=
  ((announce note_id_list keep_tag replace_tag_list;; begin_transaction) w).2.

(** Inside a transaction over the stored data [db], with [err] on stderr. *)
Definition in_transaction (db : database) (err : list string) (w : world) : Prop :=
  committed (conn w) = db ∧ is_Some (txn (conn w)) ∧ stderr w = err.

(** [m] keeps the invariant [P], whether it returns or raises. *)
Definition preserves {A} (P : world → Prop) (m : M A) : Prop :=
  ∀ w, P w → P (m w).2.

(** A note with at least one row in [note_tags]. *)
Definition tagged (db : database) (id : Z) : Prop :=
  ∃ tid, {| nt_note_id := id; nt_tag_id := tid |} ∈ note_tags db.

(** The rows [similarity_graph.get(a, [])] holds. *)
Definition entries (g : list (Z * list (Z * float))) (a : Z) : list (Z * float) :=
  default [] (dict_get a g).

(** [b] is a neighbour of [a] in the similarity graph. *)
Definition adjacent (g : list (Z * list (Z * float))) (a b : Z) : Prop :=
  b ∈ (entries g a).*1.

(** The neighbour rows of the nodes not yet visited: what the [while] loop
    may still push. *)
Definition weight (g : list (Z * list (Z * float))) (visited : gset Z) : nat :=
  sum_list ((λ e, if decide (e.1 ∈ visited) then 0 else length e.2) <$> g).

(** A visited set that no edge leaves. *)
Definition closed (g : list (Z * list (Z * float))) (visited : gset Z) : Prop :=
  ∀ v u, v ∈ visited → adjacent g v u → u ∈ visited.

(** Every link leads to a tag of [tags], and no tag has the empty name. *)
Definition links_resolve (db : database) : Prop :=
  Forall (λ nt, nt_tag_id nt ∈ t_tag_id <$> tags db) (note_tags db)
  ∧ Forall (λ t, t_name t ≠ EmptyString) (tags db).

(** [notes_data] files every note under its own id. *)
Definition keyed_by_id (notes_data : gmap Z Note.t) : Prop :=
  ∀ k n, notes_data !! k = Some n → Note.note_id n = k.

(** ** Sample data *)

Definition sample_note (id : Z) (ttl : string) (emb : list float) : note_row :=
  {| n_note_id := id; n_title := ttl; n_content := "text"; n_embedding := emb;
     n_created_at := 0 |}.

(** Notes 1 and 3 carry [py], notes 2 and 3 carry [python], notes 4 and 5
    carry [ml]; note 6 has no tag. The embeddings are points on a line. *)
Definition sample_db : database :=
  {| notes := [sample_note 1 "X" [0%float]; sample_note 2 "Y" [0.125%float];
               sample_note 3 "Z" [0.25%float]; sample_note 4 "W" [1%float];
               sample_note 5 "V" [1.0625%float]; sample_note 6 "U" [1%float]];
     tags := [{| t_tag_id := 1; t_name := "py" |};
              {| t_tag_id := 2; t_name := "python" |};
              {| t_tag_id := 3; t_name := "ml" |}];
     note_tags := [{| nt_note_id := 1; nt_tag_id := 1 |};
                   {| nt_note_id := 2; nt_tag_id := 2 |};
                   {| nt_note_id := 3; nt_tag_id := 1 |};
                   {| nt_note_id := 3; nt_tag_id := 2 |};
                   {| nt_note_id := 4; nt_tag_id := 3 |};
                   {| nt_note_id := 5; nt_tag_id := 3 |}];
     note_id_seq := 7; tag_id_seq := 4; clock := 0 |}.

(** A distance for the sample embeddings: how far apart two points are. *)
Definition line_distance (a b : list float) : float :=
  match a, b with
  | x :: _, y :: _ => PrimFloat.abs (x - y)%float
  | _, _ => 2%float
  end.

Definition synced : sync_outcome :=
  SyncReturns true "Successfully synchronized database with GitHub".

(** The storage failure of the spec's atomicity scenario: the statement with
    number [k] fails. *)
Definition fails_at (k : nat) : nat → option exn := λ n,
  if Nat.eqb n k then Some {| exn_class := "IOException"; str := "disk full" |}
  else None.

(** Notes 1 and 2 are similar, and so are notes 2 and 3; notes 1 and 3 are
    not. *)
Definition chain_pairs : list (Z * Z * float) :=
  [(1%Z, 2%Z, 0.125%float); (2%Z, 3%Z, 0.125%float)].

(** Three notes on a line, notes 1 and 3 too far apart to be similar; the
    only tag of note 2, the one between them, has the empty name. *)
Definition bridge_db : database :=
  {| notes := [sample_note 1 "X" [0%float]; sample_note 2 "Y" [0.125%float];
               sample_note 3 "Z" [0.25%float]];
     tags := [{| t_tag_id := 1; t_name := "py" |};
              {| t_tag_id := 2; t_name := EmptyString |};
              {| t_tag_id := 3; t_name := "python" |}];
     note_tags := [{| nt_note_id := 1; nt_tag_id := 1 |};
                   {| nt_note_id := 2; nt_tag_id := 2 |};
                   {| nt_note_id := 3; nt_tag_id := 3 |}];
     note_id_seq := 4; tag_id_seq := 4; clock := 0 |}.

(** Two notes that carry the same two tags. *)
Definition same_tags_cluster : list Note.t :=
  [{| Note.note_id := 1; Note.title := "X"; Note.tags := ["py"; "python"] |};
   {| Note.note_id := 2; Note.title := "Y"; Note.tags := ["py"; "python"] |}].

(** ** Notions of the further properties *)

(** Modelled from the spec: [notes_schema.sql] is not among the sources; the
    constraints are the ones of the spec's data model ("Note: identifier
    (integer, unique)", "Tag: identifier, unique name", a note's "set of tag
    names attached") and of the keys the statements of the sources rely on:
    note and tag identifiers are keys handed out by the sequences, tag names
    are unique, a note is linked to a tag at most once, and a link joins a
    note and a tag that exist. *)
Definition schema_ok (db : database) : Prop :=
  NoDup (n_note_id <$> notes db)
  ∧ Forall (λ n, (n_note_id n < note_id_seq db)%Z) (notes db)
  ∧ NoDup (t_tag_id <$> tags db)
  ∧ Forall (λ t, (t_tag_id t < tag_id_seq db)%Z) (tags db)
  ∧ NoDup (t_name <$> tags db)
  ∧ NoDup (note_tags db)
  ∧ Forall (λ nt, nt_note_id nt ∈ n_note_id <$> notes db
                  ∧ nt_tag_id nt ∈ t_tag_id <$> tags db) (note_tags db).

#[global] Instance note_tag_row_eq_dec : EqDecision note_tag_row.
Proof. solve_decision. Defined.

(** What the loop of [add_note] over [tags] does to the data when no
    statement fails. *)
Definition link_tags (note_id : Z) (tags : list string) (db : database) : database :=
  foldl (λ d tag_name,
           insert_note_tag note_id (ensure_tag tag_name d).1 (ensure_tag tag_name d).2)
        db tags.

(** What a successful [add_note] leaves stored. *)
Definition note_added (title content : string) (embedding : list float)
    (tags : option (list string)) (db : database) : database :=
  link_tags (note_id_seq db) (truthy_list tags)
    (insert_note title content embedding db).2.

(** Every character of [s] passes the test [P]. *)
Fixpoint string_forall (P : ascii → bool) (s : string) : bool :=
  match s with
  | EmptyString => true
  | String c s' => P c && string_forall P s'
  end.

(** Neither white space nor a comma. *)
Definition plain (c : ascii) : bool :=
  negb (isspace c) && negb (Ascii.eqb c ",").

(** A tag name that survives the trip through [STRING_AGG(t.name, ', ')] and
    [tags.split(',')]: not empty, without a comma, without white space at
    either end. *)
Definition clean_name (nm : string) : Prop :=
  nm ≠ EmptyString
  ∧ string_forall (λ c, negb (Ascii.eqb c ",")) nm = true
  ∧ strip nm = nm.

(** The notes a search with [tag_filter] selects: every note, or the ones that
    carry the tag. *)
Definition wanted (db : database) (tag_filter : option string) (n : note_row)
  : bool :=
  match truthy_str tag_filter with
  | Some tag => bool_decide (tag ∈ tag_names_of db (n_note_id n))
  | None => true
  end.

(** [w] with another behaviour of the push to GitHub. *)
Definition with_git_sync (w : world) (g : sync_outcome) : world :=
  {| conn := conn w; executed := executed w; faults := faults w;
     git_sync := g; stdout := stdout w; stderr := stderr w |}.

(** [m] prints nothing and leaves the behaviour of git alone. *)
Definition quiet {A} (m : M A) : Prop :=
  ∀ w, stdout (m w).2 = stdout w ∧ stderr (m w).2 = stderr w
       ∧ git_sync (m w).2 = git_sync w.

(** The data [db] are stored, no transaction is open and [line] has been
    printed. *)
Definition note_is_in (db : database) (line : string) (w : world) : Prop :=
  conn w = {| committed := db; txn := None |} ∧ line ∈ stdout w.

(** ** More sample data *)

(** The clusters of the sample store at the similarity 0.875. *)
Definition sample_clusters : list (list Note.t) :=
  [[{| Note.note_id := 1; Note.title := "X"; Note.tags := ["py"] |};
    {| Note.note_id := 2; Note.title := "Y"; Note.tags := ["python"] |};
    {| Note.note_id := 3; Note.title := "Z"; Note.tags := ["py"; "python"] |}];
   [{| Note.note_id := 4; Note.title := "W"; Note.tags := ["ml"] |};
    {| Note.note_id := 5; Note.title := "V"; Note.tags := ["ml"] |}]].

(** The suggestion for the first of them. *)
Definition sample_suggestion : Suggestion.t :=
  {| Suggestion.note_ids := [1; 2; 3]%Z;
     Suggestion.note_titles := ["X"; "Y"; "Z"];
     Suggestion.tags := [("py", 2); ("python", 2)];
     Suggestion.most_common_tag := "py" |}.

(** An embedding of the right length. *)
Definition sample_embedding : list float := replicate 3072 0.5%float.

(** A parser and an interpreter that know three queries. *)
Definition sample_parser (query : string) : exn + list StatementType :=
  if decide (query = "DROP TABLE notes") then inr [OtherStatement "DROP"]
  else if decide (query = "SELECT 1") then inr [SELECT]
  else inr [DELETE].

Definition sample_engine (query : string) (db : database)
  : outcome (list (list (option string)) * option (list string)) * database :=
  if decide (query = "SELECT 1") then (Return ([[Some "1"]], Some ["1"]), db)
  else (Return ([], None), set_note_tags db []).

(** The notes that carry [tag], once for each time they list it. *)
Definition notes_tagged (tag : string) (notes : list BlogNote.t)
  : list BlogNote.t :=
  note ← notes; _ ← filter (λ t, t = tag) (note_tag_list note); [note].

(** [d[k]] on a [defaultdict(list)] that is only read. *)
Fixpoint group_get {V} (k : string) (d : list (string * list V)) : list V :=
  match d with
  | [] => []
  | (k', l) :: d' => if decide (k' = k) then l else group_get k d'
  end.

(** What the dictionary [tag_notes] looks like at any time: no key twice, no
    empty key, no empty list. *)
Definition grouped {V} (d : list (string * list V)) : Prop :=
  NoDup d.*1 ∧ (EmptyString ∉ d.*1) ∧ ∀ k, k ∈ d.*1 → group_get k d ≠ [].

(** * Proofs *)

#[local] Set Warnings "-clear-no-such-hyp".

(** ** Running the monad *)

Lemma bind_return {A B} (m : M A) (k : A → M B) w a w' :
  m w = (Return a, w') → (m ≫= k) w = k a w'.
Proof. intros H. unfold mbind, M_bind, bind. by rewrite H. Qed.

Lemma bind_raise {A B} (m : M A) (k : A → M B) w e w' :
  m w = (Raise e, w') → (m ≫= k) w = (Raise e, w').
Proof. intros H. unfold mbind, M_bind, bind. by rewrite H. Qed.

Lemma write_current c : write c (current c) = c.
Proof. by destruct c as [d [t|]]. Qed.

Lemma write_write c db db' : write (write c db) db' = write c db'.
Proof. by destruct c as [d [t|]]. Qed.

Lemma current_write c db : current (write c db) = db.
Proof. by destruct c as [d [t|]]. Qed.

Lemma after_after w k db out k' db' out' :
  after (after w k db out) k' db' out' = after w (k' + k) db' (out ++ out').
Proof.
  unfold after. cbn. rewrite write_write, <-app_assoc. f_equal. lia.
Qed.

Lemma after_nothing w : after w 0 (current (conn w)) [] = w.
Proof.
  unfold after. rewrite write_current, app_nil_r. by destruct w.
Qed.

Lemma current_after w k db out : current (conn (after w k db out)) = db.
Proof. apply current_write. Qed.

Lemma fault_free_after w k db out : fault_free w → fault_free (after w k db out).
Proof. done. Qed.

Lemma execute_ok {A} (stmt : database → A * database) w :
  fault_free w →
  execute stmt w
  = (Return (stmt (current (conn w))).1,
     after w 1 (stmt (current (conn w))).2 []).
Proof.
  intros Hff. unfold execute. rewrite Hff.
  destruct (stmt (current (conn w))) as [a db'].
  unfold after, set_conn. cbn. by rewrite app_nil_r.
Qed.

Lemma query_ok {A} (q : database → A) w :
  fault_free w →
  query q w = (Return (q (current (conn w))), after w 1 (current (conn w)) []).
Proof. intros. unfold query. by rewrite execute_ok. Qed.

Lemma update_ok (u : database → database) w :
  fault_free w → update u w = (Return tt, after w 1 (u (current (conn w))) []).
Proof. intros. unfold update. by rewrite execute_ok. Qed.

Lemma echo_ok s w : echo s w = (Return tt, after w 0 (current (conn w)) [s]).
Proof. unfold echo, after. by rewrite write_current. Qed.

(** ** The applier computes [normalized] when nothing fails *)

Lemma get_or_create_tag_ok tag_name w :
  fault_free w →
  ∃ k, get_or_create_tag tag_name w
       = (Return (ensure_tag tag_name (current (conn w))).1,
          after w k (ensure_tag tag_name (current (conn w))).2 []).
Proof.
  intros Hff. unfold get_or_create_tag, ensure_tag.
  erewrite bind_return by (by apply query_ok).
  destruct (select_tag_id tag_name (current (conn w))) as [id|].
  - by exists 1.
  - exists 2. rewrite execute_ok by done.
    by rewrite current_after, after_after.
Qed.

Lemma delete_loop_ok note_id (l : list Z) w :
  fault_free w →
  for_each l (λ tag_id (_ : unit), update (delete_note_tag note_id tag_id)) tt w
  = (Return tt,
     after w (length l)
       (foldl (λ d tag_id, delete_note_tag note_id tag_id d) (current (conn w)) l)
       []).
Proof.
  revert w. induction l as [|tag_id l IH]; intros w Hff; cbn [for_each foldl length].
  - unfold mret, M_ret, ret. by rewrite after_nothing.
  - erewrite bind_return by (by apply update_ok).
    rewrite IH by done. rewrite current_after, after_after. do 2 f_equal. lia.
Qed.

Lemma normalize_note_ok keep_tag replace_tag_list primary_tag_id note_id c w :
  fault_free w →
  ∃ k, normalize_note keep_tag replace_tag_list primary_tag_id note_id c w
       = (Return (note_count keep_tag replace_tag_list note_id (current (conn w)) c),
          after w k
            (note_effect keep_tag replace_tag_list primary_tag_id note_id
               (current (conn w)))
            (note_warning note_id (current (conn w)))).
Proof.
  intros Hff. unfold normalize_note, note_count, note_effect, note_warning.
  erewrite bind_return by (by apply query_ok).
  set (db := current (conn w)).
  destruct (select_note_exists note_id db) eqn:Hex; cbn [negb].
  - erewrite bind_return by (by apply query_ok).
    rewrite current_after, after_after. fold db.
    fold (tags_to_remove_of replace_tag_list note_id db).
    fold (tag_names_of db note_id).
    set (rm := tags_to_remove_of replace_tag_list note_id db).
    assert (∃ k,
      (match rm with
       | [] => mret (tags_removed c)
       | _ :: _ =>
           for_each rm (λ tag_id (_ : unit), update (delete_note_tag note_id tag_id)) tt;;
           mret (tags_removed c + length rm)
       end : M nat) (after w (1 + 1) db [])
      = (Return (tags_removed c + length rm),
         after w k (foldl (λ d tag_id, delete_note_tag note_id tag_id d) db rm) []))
      as [k Hrm].
    { destruct rm as [|t rm'] eqn:Erm.
      - exists 2. cbn. by rewrite Nat.add_0_r.
      - exists (length (t :: rm') + 2).
        erewrite bind_return by (by apply delete_loop_ok).
        rewrite current_after, after_after. done. }
    erewrite bind_return by exact Hrm.
    destruct (bool_decide (keep_tag ∈ tag_names_of db note_id)); cbn [negb].
    + exists k. done.
    + exists (1 + k).
      erewrite bind_return.
      2:{ erewrite bind_return by (by apply update_ok). reflexivity. }
      rewrite current_after, after_after. done.
  - erewrite bind_return by apply echo_ok.
    rewrite current_after, after_after. by exists 1.
Qed.

Lemma normalize_loop_ok keep_tag replace_tag_list primary_tag_id note_id_list c w :
  fault_free w →
  ∃ k, for_each note_id_list
         (normalize_note keep_tag replace_tag_list primary_tag_id) c w
       = (Return (notes_effect keep_tag replace_tag_list primary_tag_id
                    note_id_list (current (conn w)) c).1.2,
          after w k
            (notes_effect keep_tag replace_tag_list primary_tag_id
               note_id_list (current (conn w)) c).1.1
            (notes_effect keep_tag replace_tag_list primary_tag_id
               note_id_list (current (conn w)) c).2).
Proof.
  revert c w. induction note_id_list as [|note_id rest IH]; intros c w Hff.
  - exists 0. cbn. unfold mret, M_ret, ret. by rewrite after_nothing.
  - destruct (normalize_note_ok keep_tag replace_tag_list primary_tag_id
                note_id c w Hff) as [k1 H1].
    cbn [for_each]. erewrite bind_return by exact H1.
    match goal with |- context [for_each _ _ ?c1 ?w1] =>
      destruct (IH c1 w1) as [k2 H2]; [exact Hff |]
    end.
    rewrite current_after in H2. rewrite H2, after_after. exists (k2 + k1).
    cbn [notes_effect].
    destruct (notes_effect _ _ _ rest _ _) as [[db' c'] out]. done.
Qed.

Lemma announce_ok note_id_list keep_tag replace_tag_list w :
  ∃ lines, announce note_id_list keep_tag replace_tag_list w
           = (Return tt, after w 0 (current (conn w)) lines).
Proof.
  unfold announce. eexists.
  repeat (erewrite bind_return by apply echo_ok;
          rewrite ?current_after, ?after_after).
  rewrite echo_ok, current_after, after_after. reflexivity.
Qed.

Lemma transaction_steps_ok note_id_list keep_tag replace_tag_list w db0 :
  fault_free w → txn (conn w) = Some db0 →
  ∃ k, transaction_steps note_id_list keep_tag replace_tag_list w
       = (Return (normalized note_id_list keep_tag replace_tag_list db0).1.2,
          set_conn
            (after w k (normalized note_id_list keep_tag replace_tag_list db0).1.1
               (normalized note_id_list keep_tag replace_tag_list db0).2)
            {| committed := (normalized note_id_list keep_tag replace_tag_list db0).1.1;
               txn := None |}).
Proof.
  intros Hff Htxn. unfold transaction_steps, normalized.
  assert (current (conn w) = db0) as Hcur by (unfold current; by rewrite Htxn).
  destruct (get_or_create_tag_ok keep_tag w Hff) as [k1 H1].
  rewrite Hcur in H1. erewrite bind_return by exact H1.
  destruct (ensure_tag keep_tag db0) as [pid db1]. cbn [fst snd].
  destruct (normalize_loop_ok keep_tag replace_tag_list pid note_id_list
              zero_counters (after w k1 db1 [])) as [k2 H2]; [exact Hff |].
  rewrite current_after in H2. erewrite bind_return by exact H2.
  rewrite after_after.
  destruct (notes_effect _ _ _ _ _ _) as [[db' c'] out]. cbn [fst snd].
  exists (k2 + k1). unfold mbind, M_bind, bind, commit, after, write. cbn.
  rewrite Htxn. done.
Qed.

Lemma report_and_sync_ok c w :
  ∃ r w' tail,
    report_and_sync c w = (r, w')
    ∧ conn w' = conn w
    ∧ stdout w' = stdout w
        ++ [nl +:+ "--- Tag Normalization Complete ---";
            "Notes updated: " +:+ pretty (notes_updated c);
            "Tags removed: " +:+ pretty (tags_removed c);
            "Tags added: " +:+ pretty (tags_added c)] ++ tail.
Proof.
  unfold report_and_sync, mbind, M_bind, bind, echo, echo_err,
    sync_database_to_github. cbn [conn stdout git_sync].
  destruct (git_sync w) as [[] msg|e]; do 3 eexists;
    (split; [reflexivity |]); cbn [conn stdout]; (split; [done |]);
    rewrite <-!app_assoc; cbn [app]; reflexivity.
Qed.

Lemma begin_ok w :
  txn (conn w) = None →
  begin_transaction w
  = (Return tt, set_conn w {| committed := committed (conn w);
                              txn := Some (committed (conn w)) |}).
Proof. intros H. unfold begin_transaction. by rewrite H. Qed.

(** A run in which no statement fails commits what [normalized] computes
    and prints its counters. *)
Lemma apply_ok note_id_list keep_tag replace_tag_list w :
  fault_free w → txn (conn w) = None →
  stored (apply_tag_normalization note_id_list keep_tag replace_tag_list w)
    = (normalized note_id_list keep_tag replace_tag_list (committed (conn w))).1.1
  ∧ txn (conn (apply_tag_normalization note_id_list keep_tag replace_tag_list w).2)
    = None
  ∧ ∃ head tail,
      stdout (apply_tag_normalization note_id_list keep_tag replace_tag_list w).2
      = stdout w ++ head
        ++ (normalized note_id_list keep_tag replace_tag_list (committed (conn w))).2
        ++ [nl +:+ "--- Tag Normalization Complete ---";
            "Notes updated: " +:+ pretty (notes_updated
              (normalized note_id_list keep_tag replace_tag_list (committed (conn w))).1.2);
            "Tags removed: " +:+ pretty (tags_removed
              (normalized note_id_list keep_tag replace_tag_list (committed (conn w))).1.2);
            "Tags added: " +:+ pretty (tags_added
              (normalized note_id_list keep_tag replace_tag_list (committed (conn w))).1.2)]
        ++ tail.
Proof.
  intros Hff Htxn.
  set (db := committed (conn w)).
  set (n := normalized note_id_list keep_tag replace_tag_list db).
  destruct (announce_ok note_id_list keep_tag replace_tag_list w) as [lines Ha].
  assert (current (conn w) = db) as Hcur by (unfold current; by rewrite Htxn).
  rewrite Hcur in Ha.
  set (w0 := set_conn (after w 0 db lines) {| committed := db; txn := Some db |}).
  assert (begin_transaction (after w 0 db lines) = (Return tt, w0)) as Hb.
  { rewrite begin_ok; unfold after, write; rewrite Htxn; done. }
  destruct (transaction_steps_ok note_id_list keep_tag replace_tag_list w0 db)
    as [k Ht]; [exact Hff | done |]. fold n in Ht.
  match type of Ht with _ = (_, ?w1) =>
    destruct (report_and_sync_ok n.1.2 w1) as (r & w2 & tail & Hr & Hconn & Hout)
  end.
  assert (∃ r' w3,
    try_except
      (announce note_id_list keep_tag replace_tag_list;;
       begin_transaction;;
       try_except
         (c ← transaction_steps note_id_list keep_tag replace_tag_list;
          report_and_sync c)
         rollback_handler)
      (λ e, echo_err ("Error: " +:+ str e)) w = (r', w3)
    ∧ conn w3 = conn w2 ∧ stdout w3 = stdout w2) as (r' & w3 & Hrun & Hconn3 & Hout3).
  { unfold try_except at 1.
    erewrite bind_return by exact Ha. erewrite bind_return by exact Hb.
    unfold try_except at 1. erewrite bind_return by exact Ht. rewrite Hr.
    destruct r as [[]|e].
    - by do 2 eexists.
    - unfold rollback_handler. erewrite bind_raise.
      2:{ unfold rollback. rewrite Hconn. cbn. reflexivity. }
      by do 2 eexists. }
  unfold apply_tag_normalization, try_finally, stored. rewrite Hrun.
  unfold close. cbn. rewrite Hconn3, Hconn, Hout3, Hout. cbn.
  split_and!; [done | done |]. exists lines, tail. by rewrite <-!app_assoc.
Qed.

(** ** What the applier's statements do to the tables *)

Lemma elem_of_select_note_tags id db tid nm :
  (tid, nm) ∈ select_note_tags id db ↔
  {| nt_note_id := id; nt_tag_id := tid |} ∈ note_tags db
  ∧ {| t_tag_id := tid; t_name := nm |} ∈ tags db.
Proof.
  unfold select_note_tags. rewrite list_elem_of_bind. split.
  - intros ([n t] & (tg & Htg & Ht)%list_elem_of_bind & [Hn Hnt]%list_elem_of_filter).
    apply list_elem_of_filter in Ht as [Hid Ht].
    apply list_elem_of_singleton in Htg as [= -> ->].
    cbn in *. subst. by destruct tg.
  - intros [Hnt Ht]. exists {| nt_note_id := id; nt_tag_id := tid |}.
    split; [| by apply list_elem_of_filter].
    apply list_elem_of_bind. exists {| t_tag_id := tid; t_name := nm |}.
    split; [by apply list_elem_of_singleton |]. by apply list_elem_of_filter.
Qed.

Lemma elem_of_tag_names_of db id nm :
  nm ∈ tag_names_of db id ↔ ∃ tid, (tid, nm) ∈ select_note_tags id db.
Proof.
  unfold tag_names_of. rewrite list_elem_of_fmap. split.
  - intros ([tid nm'] & -> & Hin). by exists tid.
  - intros [tid Hin]. by exists (tid, nm).
Qed.

Lemma elem_of_tags_to_remove replace_tag_list id db tid :
  tid ∈ tags_to_remove_of replace_tag_list id db ↔
  ∃ nm, (tid, nm) ∈ select_note_tags id db ∧ nm ∈ replace_tag_list.
Proof.
  unfold tags_to_remove_of. rewrite zip_fst_snd, list_elem_of_fmap. split.
  - intros ([tid' nm] & -> & [Hnm Hin]%list_elem_of_filter). by exists nm.
  - intros (nm & Hin & Hnm). exists (tid, nm). split; [done |].
    by apply list_elem_of_filter.
Qed.

Lemma delete_loop_tables id (l : list Z) db :
  notes (foldl (λ d tag_id, delete_note_tag id tag_id d) db l) = notes db
  ∧ tags (foldl (λ d tag_id, delete_note_tag id tag_id d) db l) = tags db
  ∧ tag_id_seq (foldl (λ d tag_id, delete_note_tag id tag_id d) db l) = tag_id_seq db
  ∧ ∀ nt, nt ∈ note_tags (foldl (λ d tag_id, delete_note_tag id tag_id d) db l)
          ↔ nt ∈ note_tags db ∧ ¬ (nt_note_id nt = id ∧ nt_tag_id nt ∈ l).
Proof.
  revert db. induction l as [|tid l IH]; intros db; cbn [foldl].
  - split_and!; try done. intros nt. rewrite elem_of_nil. tauto.
  - destruct (IH (delete_note_tag id tid db)) as (-> & -> & -> & H).
    split_and!; try done. intros nt. rewrite H. cbn.
    rewrite list_elem_of_filter, elem_of_cons. tauto.
Qed.

Lemma note_effect_tables keep_tag replace_tag_list primary_tag_id id db :
  notes (note_effect keep_tag replace_tag_list primary_tag_id id db) = notes db
  ∧ tags (note_effect keep_tag replace_tag_list primary_tag_id id db) = tags db
  ∧ tag_id_seq (note_effect keep_tag replace_tag_list primary_tag_id id db)
    = tag_id_seq db.
Proof.
  unfold note_effect.
  destruct (delete_loop_tables id (tags_to_remove_of replace_tag_list id db) db)
    as (H1 & H2 & H3 & _).
  repeat case_match; done.
Qed.

Lemma note_effect_exists keep_tag replace_tag_list primary_tag_id id db id' :
  select_note_exists id' (note_effect keep_tag replace_tag_list primary_tag_id id db)
  = select_note_exists id' db.
Proof.
  unfold select_note_exists.
  by destruct (note_effect_tables keep_tag replace_tag_list primary_tag_id id db)
    as (-> & _).
Qed.

(** The links of a note that exists, once it has been processed. *)
Lemma note_effect_links keep_tag replace_tag_list primary_tag_id id db nt :
  select_note_exists id db = true →
  (nt ∈ note_tags (note_effect keep_tag replace_tag_list primary_tag_id id db) ↔
    (nt ∈ note_tags db
     ∧ ¬ (nt_note_id nt = id
          ∧ nt_tag_id nt ∈ tags_to_remove_of replace_tag_list id db))
    ∨ (¬ (keep_tag ∈ tag_names_of db id)
       ∧ nt = {| nt_note_id := id; nt_tag_id := primary_tag_id |})).
Proof.
  intros Hex. unfold note_effect. rewrite Hex.
  destruct (delete_loop_tables id (tags_to_remove_of replace_tag_list id db) db)
    as (_ & _ & _ & H).
  case_bool_decide as Hk.
  - rewrite H. tauto.
  - cbn. rewrite elem_of_app, H, list_elem_of_singleton. tauto.
Qed.

(** Processing one note leaves the links of every other note alone. *)
Lemma note_effect_other keep_tag replace_tag_list primary_tag_id id db id' tid :
  id' ≠ id →
  ({| nt_note_id := id'; nt_tag_id := tid |}
     ∈ note_tags (note_effect keep_tag replace_tag_list primary_tag_id id db)
   ↔ {| nt_note_id := id'; nt_tag_id := tid |} ∈ note_tags db).
Proof.
  intros Hne. destruct (select_note_exists id db) eqn:Hex.
  - rewrite note_effect_links by done. cbn. split.
    + intros [[? _]|[_ [= ]]]; [done | congruence].
    + intros ?. left. split; [done |]. intros [? _]. congruence.
  - unfold note_effect. by rewrite Hex.
Qed.

Lemma note_effect_other_names keep_tag replace_tag_list primary_tag_id id db id' nm :
  id' ≠ id →
  (nm ∈ tag_names_of (note_effect keep_tag replace_tag_list primary_tag_id id db) id'
   ↔ nm ∈ tag_names_of db id').
Proof.
  intros Hne. rewrite !elem_of_tag_names_of.
  destruct (note_effect_tables keep_tag replace_tag_list primary_tag_id id db)
    as (_ & Ht & _).
  split; intros [tid H]; exists tid; revert H;
    rewrite !elem_of_select_note_tags, Ht, note_effect_other by done; done.
Qed.

(** ** Unknown note ids *)

Lemma notes_effect_cons keep_tag replace_tag_list primary_tag_id id ids db c :
  notes_effect keep_tag replace_tag_list primary_tag_id (id :: ids) db c
  = ((notes_effect keep_tag replace_tag_list primary_tag_id ids
        (note_effect keep_tag replace_tag_list primary_tag_id id db)
        (note_count keep_tag replace_tag_list id db c)).1,
     note_warning id db
     ++ (notes_effect keep_tag replace_tag_list primary_tag_id ids
           (note_effect keep_tag replace_tag_list primary_tag_id id db)
           (note_count keep_tag replace_tag_list id db c)).2).
Proof. cbn [notes_effect]. by destruct (notes_effect _ _ _ ids _ _) as [[??]?]. Qed.


Lemma ensure_tag_notes tag_name db :
  notes (ensure_tag tag_name db).2 = notes db.
Proof. unfold ensure_tag. by destruct (select_tag_id tag_name db). Qed.




(** ** The data the loop leaves *)

Lemma notes_effect_db keep_tag replace_tag_list primary_tag_id ids db c :
  (notes_effect keep_tag replace_tag_list primary_tag_id ids db c).1.1
  = foldl (λ d id, note_effect keep_tag replace_tag_list primary_tag_id id d) db ids.
Proof.
  revert db c. induction ids as [|id ids IH]; intros db c; [done |].
  rewrite notes_effect_cons. cbn [fst foldl]. apply IH.
Qed.

Lemma select_tag_id_some tag_name db tid :
  {| t_tag_id := tid; t_name := tag_name |} ∈ tags db →
  ∃ tid', select_tag_id tag_name db = Some tid'
          ∧ {| t_tag_id := tid'; t_name := tag_name |} ∈ tags db.
Proof.
  intros Hin. unfold select_tag_id.
  destruct (filter (λ t, t_name t = tag_name) (tags db)) as [|[tid' nm] l] eqn:Hf.
  - assert ({| t_tag_id := tid; t_name := tag_name |}
              ∈ filter (λ t, t_name t = tag_name) (tags db)) as Hin'
      by (by apply list_elem_of_filter).
    rewrite Hf in Hin'. by apply elem_of_nil in Hin'.
  - exists tid'. split; [done |].
    assert ({| t_tag_id := tid'; t_name := nm |}
              ∈ filter (λ t, t_name t = tag_name) (tags db)) as Hin'
      by (rewrite Hf; left).
    apply list_elem_of_filter in Hin' as [Hnm Hin']. cbn in Hnm. by subst.
Qed.

Lemma ensure_tag_existing tag_name db tid :
  {| t_tag_id := tid; t_name := tag_name |} ∈ tags db →
  (ensure_tag tag_name db).2 = db
  ∧ {| t_tag_id := (ensure_tag tag_name db).1; t_name := tag_name |} ∈ tags db.
Proof.
  intros Hin. unfold ensure_tag.
  destruct (select_tag_id_some tag_name db tid Hin) as (tid' & -> & Hin'). done.
Qed.

Lemma others_keep_names keep_tag replace_tag_list primary_tag_id (l : list Z) db id nm :
  id ∉ l →
  (nm ∈ tag_names_of
          (foldl (λ d id, note_effect keep_tag replace_tag_list primary_tag_id id d) db l)
          id
   ↔ nm ∈ tag_names_of db id).
Proof.
  revert db. induction l as [|x l IH]; intros db Hnin; [done |].
  apply not_elem_of_cons in Hnin as [Hne Hnin]. cbn [foldl].
  rewrite IH by done. by apply note_effect_other_names.
Qed.

Lemma foldl_note_effect_exists keep_tag replace_tag_list primary_tag_id (l : list Z) db id :
  select_note_exists id
    (foldl (λ d id, note_effect keep_tag replace_tag_list primary_tag_id id d) db l)
  = select_note_exists id db.
Proof.
  revert db. induction l as [|x l IH]; intros db; [done |].
  cbn [foldl]. by rewrite IH, note_effect_exists.
Qed.

(** ** A keep tag that is also to be replaced *)

Lemma replaced_keep_tag_goes keep_tag replace_tag_list primary_tag_id id db :
  keep_tag ∈ replace_tag_list →
  select_note_exists id db = true →
  keep_tag ∈ tag_names_of db id →
  keep_tag ∉ tag_names_of
               (note_effect keep_tag replace_tag_list primary_tag_id id db) id.
Proof.
  intros Hrep Hex Hhas [tid Hrow]%elem_of_tag_names_of.
  apply elem_of_select_note_tags in Hrow as [Hlink Htag].
  destruct (note_effect_tables keep_tag replace_tag_list primary_tag_id id db)
    as (_ & Ht & _). rewrite Ht in Htag.
  apply note_effect_links in Hlink as [[Hlink Hkeep]|[Hno _]]; [| done | done].
  apply Hkeep. split; [done |]. cbn. apply elem_of_tags_to_remove.
  exists keep_tag. split; [| done]. by apply elem_of_select_note_tags.
Qed.

Lemma listed_once (ids : list Z) (id : Z) :
  length (filter (λ x, x = id) ids) = 1 →
  ∃ l1 l2, ids = l1 ++ id :: l2 ∧ (id ∉ l1) ∧ (id ∉ l2).
Proof.
  induction ids as [|x ids IH]; [done |]. rewrite filter_cons.
  destruct (decide (x = id)) as [->|Hne].
  - cbn. intros [= Hlen]. exists [], ids. split_and!; [done | apply not_elem_of_nil |].
    intros Hin. apply length_zero_iff_nil in Hlen.
    assert (id ∈ filter (λ x, x = id) ids) as Hin' by (by apply list_elem_of_filter).
    rewrite Hlen in Hin'. by apply elem_of_nil in Hin'.
  - intros (l1 & l2 & -> & Hn1 & Hn2)%IH. exists (x :: l1), l2.
    split_and!; [done | | done]. by apply not_elem_of_cons.
Qed.

(** C10, as amended: when the keep tag is also among the tags to replace, a
    note that exists, carries the keep tag before the call and is listed
    exactly once in the request ends the call without the keep tag: its link
    is removed, and the presence check taken before the removals keeps the
    call from adding it back. *)
Theorem replaced_keep_tag_is_not_added_back (note_id_list : list Z)
    (keep_tag : string) (replace_tag_list : list string) (db : database)
    (g : sync_outcome) (note_id : Z) :
  keep_tag ∈ replace_tag_list →
  select_note_exists note_id db = true →
  keep_tag ∈ tag_names_of db note_id →
  length (filter (λ id, id = note_id) note_id_list) = 1 →
  keep_tag ∉ tag_names_of
               (stored (apply_tag_normalization note_id_list keep_tag
                          replace_tag_list (start db no_faults g)))
               note_id.
Proof.
  intros Hrep Hex Hhas (l1 & l2 & -> & Hn1 & Hn2)%listed_once.
  destruct (apply_ok (l1 ++ note_id :: l2) keep_tag replace_tag_list
              (start db no_faults g)) as (-> & _); [done | done |].
  cbn [start conn committed]. unfold normalized.
  pose proof Hhas as [tid Hrow]%elem_of_tag_names_of.
  apply elem_of_select_note_tags in Hrow as [_ Htag].
  destruct (ensure_tag_existing keep_tag db tid Htag) as [Hdb _].
  destruct (ensure_tag keep_tag db) as [pid db1]. cbn [snd] in Hdb. subst db1.
  rewrite notes_effect_db, foldl_app. cbn [foldl].
  rewrite others_keep_names by done.
  apply replaced_keep_tag_goes; [done | | ].
  - by rewrite foldl_note_effect_exists.
  - by rewrite others_keep_names.
Qed.

Lemma replaced_keep_tag_is_not_added_back_witness :
  "python" ∉ tag_names_of
               (stored (apply_tag_normalization [1; 2]%Z "python" ["py"; "python"]
                          (start sample_db no_faults synced)))
               2.
Proof.
  apply (replaced_keep_tag_is_not_added_back [1; 2]%Z "python" ["py"; "python"]
           sample_db synced 2%Z).
  - right. left.
  - reflexivity.
  - vm_compute. left.
  - reflexivity.
Defined.

(** C10 as stated fails for an id that is listed twice: note 2 exists and
    carries [python], which is both the keep tag and a tag to replace; the
    first pass over the note removes the link, the second pass no longer
    sees it and adds it, so the note ends the call with the keep tag. *)
Lemma replaced_keep_tag_comes_back_for_a_repeated_id :
  "python" ∈ ["python"]
  ∧ select_note_exists 2 sample_db = true
  ∧ "python" ∈ tag_names_of sample_db 2
  ∧ "python" ∈ tag_names_of
                 (stored (apply_tag_normalization [2; 2]%Z "python" ["python"]
                            (start sample_db no_faults synced)))
                 2.
Proof.
  split_and!; [left | reflexivity | vm_compute; left | vm_compute; left].
Qed.

(** ** Applying the same request twice *)

Lemma tag_id_is_key (ts : list tag_row) tid a b :
  NoDup (t_tag_id <$> ts) →
  {| t_tag_id := tid; t_name := a |} ∈ ts →
  {| t_tag_id := tid; t_name := b |} ∈ ts → a = b.
Proof.
  induction ts as [|t ts IH]; intros Hnd Ha Hb; [by apply elem_of_nil in Ha |].
  cbn in Hnd. apply NoDup_cons in Hnd as [Hnin Hnd].
  apply elem_of_cons in Ha as [Ha|Ha]; apply elem_of_cons in Hb as [Hb|Hb].
  - congruence.
  - exfalso. apply Hnin. subst t. cbn.
    apply list_elem_of_fmap. by eexists {| t_tag_id := tid; t_name := b |}.
  - exfalso. apply Hnin. subst t. cbn.
    apply list_elem_of_fmap. by eexists {| t_tag_id := tid; t_name := a |}.
  - by apply IH.
Qed.

Lemma ensure_tag_consistent tag_name db :
  db_consistent db →
  NoDup (t_tag_id <$> tags (ensure_tag tag_name db).2)
  ∧ {| t_tag_id := (ensure_tag tag_name db).1; t_name := tag_name |}
      ∈ tags (ensure_tag tag_name db).2.
Proof.
  intros [Hnd Hlt]. unfold ensure_tag, select_tag_id.
  destruct (filter (λ t, t_name t = tag_name) (tags db)) as [|[tid nm] l] eqn:Hf.
  - cbn. split.
    + rewrite fmap_app. apply NoDup_app. split_and!; [done | | apply NoDup_singleton].
      intros x (t & -> & Hin)%list_elem_of_fmap Heq%list_elem_of_singleton.
      rewrite Forall_forall in Hlt. specialize (Hlt t Hin). cbn in Hlt, Heq. lia.
    + apply elem_of_app. right. by left.
  - cbn. split; [done |].
    assert ({| t_tag_id := tid; t_name := nm |}
              ∈ filter (λ t, t_name t = tag_name) (tags db)) as Hin
      by (rewrite Hf; left).
    apply list_elem_of_filter in Hin as [Hnm Hin]. cbn in Hnm. by subst.
Qed.

Lemma note_effect_settles keep_tag replace_tag_list primary_tag_id id db :
  keep_tag ∉ replace_tag_list →
  NoDup (t_tag_id <$> tags db) →
  {| t_tag_id := primary_tag_id; t_name := keep_tag |} ∈ tags db →
  select_note_exists id db = true →
  settled keep_tag replace_tag_list
    (note_effect keep_tag replace_tag_list primary_tag_id id db) id.
Proof.
  intros Hkr Hnd Hpid Hex.
  destruct (note_effect_tables keep_tag replace_tag_list primary_tag_id id db)
    as (_ & Ht & _).
  split.
  - apply elem_of_tag_names_of.
    destruct (decide (keep_tag ∈ tag_names_of db id)) as [Hhas|Hno].
    + pose proof Hhas as [tid Hrow]%elem_of_tag_names_of. exists tid.
      pose proof Hrow as [Hlink Htag]%elem_of_select_note_tags.
      apply elem_of_select_note_tags. rewrite Ht. split; [| done].
      apply note_effect_links; [done |]. left. split; [done |].
      intros [_ (nm & [_ Htag']%elem_of_select_note_tags & Hnm)%elem_of_tags_to_remove].
      cbn in Htag'. by rewrite (tag_id_is_key _ _ _ _ Hnd Htag Htag') in Hkr.
    + exists primary_tag_id. apply elem_of_select_note_tags. rewrite Ht.
      split; [| done]. apply note_effect_links; [done |]. by right.
  - intros nm [tid [Hlink Htag]%elem_of_select_note_tags]%elem_of_tag_names_of Hnm.
    rewrite Ht in Htag.
    apply note_effect_links in Hlink as [[Hlink Hkeep]|[_ [= ->]]]; [| | done].
    + apply Hkeep. split; [done |]. cbn. apply elem_of_tags_to_remove.
      exists nm. split; [| done]. by apply elem_of_select_note_tags.
    + by rewrite (tag_id_is_key _ _ _ _ Hnd Htag Hpid) in Hnm.
Qed.

Lemma settled_nothing_to_remove keep_tag replace_tag_list db id :
  settled keep_tag replace_tag_list db id →
  tags_to_remove_of replace_tag_list id db = [].
Proof.
  intros [_ Hno]. apply elem_of_nil_inv. intros tid.
  intros (nm & Hrow & Hnm)%elem_of_tags_to_remove.
  apply (Hno nm); [| done]. apply elem_of_tag_names_of. by exists tid.
Qed.

Lemma settled_note_effect keep_tag replace_tag_list primary_tag_id id db :
  settled keep_tag replace_tag_list db id →
  note_effect keep_tag replace_tag_list primary_tag_id id db = db.
Proof.
  intros Hs. unfold note_effect.
  rewrite (settled_nothing_to_remove _ _ _ _ Hs). destruct Hs as [Hk _].
  rewrite bool_decide_eq_true_2 by done. by destruct (select_note_exists id db).
Qed.

Lemma settled_other keep_tag replace_tag_list primary_tag_id id id' db :
  settled keep_tag replace_tag_list db id →
  settled keep_tag replace_tag_list
    (note_effect keep_tag replace_tag_list primary_tag_id id' db) id.
Proof.
  intros Hs. destruct (decide (id = id')) as [<-|Hne].
  - by rewrite settled_note_effect.
  - destruct Hs as [Hk Hno]. split.
    + by apply note_effect_other_names.
    + intros nm Hnm. apply Hno. revert Hnm. by apply note_effect_other_names.
Qed.

Lemma loop_settles keep_tag replace_tag_list primary_tag_id (ids : list Z) db :
  keep_tag ∉ replace_tag_list →
  NoDup (t_tag_id <$> tags db) →
  {| t_tag_id := primary_tag_id; t_name := keep_tag |} ∈ tags db →
  let db' := foldl (λ d id, note_effect keep_tag replace_tag_list primary_tag_id id d)
               db ids in
  tags db' = tags db
  ∧ (∀ id, settled keep_tag replace_tag_list db id →
           settled keep_tag replace_tag_list db' id)
  ∧ (∀ id, id ∈ ids → select_note_exists id db = true →
           settled keep_tag replace_tag_list db' id).
Proof.
  intros Hkr. cbn zeta. revert db.
  induction ids as [|x ids IH]; intros db Hnd Hpid; cbn [foldl].
  - split_and!; [done | done |]. by intros id []%elem_of_nil.
  - destruct (note_effect_tables keep_tag replace_tag_list primary_tag_id x db)
      as (_ & Ht & _).
    destruct (IH (note_effect keep_tag replace_tag_list primary_tag_id x db))
      as (IH1 & IH2 & IH3); [by rewrite Ht | by rewrite Ht |].
    split_and!.
    + by rewrite IH1.
    + intros id Hs. by apply IH2, settled_other.
    + intros id [->|Hin]%elem_of_cons Hex.
      * by apply IH2, note_effect_settles.
      * apply IH3; [done |]. by rewrite note_effect_exists.
Qed.

(** A second pass over settled notes changes nothing and counts nothing. *)
Lemma second_pass keep_tag replace_tag_list primary_tag_id (ids : list Z) db c :
  (∀ id, id ∈ ids → select_note_exists id db = true →
         settled keep_tag replace_tag_list db id) →
  (notes_effect keep_tag replace_tag_list primary_tag_id ids db c).1.1 = db
  ∧ tags_removed (notes_effect keep_tag replace_tag_list primary_tag_id ids db c).1.2
    = tags_removed c
  ∧ tags_added (notes_effect keep_tag replace_tag_list primary_tag_id ids db c).1.2
    = tags_added c.
Proof.
  revert c. induction ids as [|x ids IH]; intros c Hs; [done |].
  rewrite notes_effect_cons. cbn [fst snd].
  assert (note_effect keep_tag replace_tag_list primary_tag_id x db = db) as Hdb.
  { destruct (select_note_exists x db) eqn:Hex.
    - apply settled_note_effect, Hs; [left | done].
    - unfold note_effect. by rewrite Hex. }
  rewrite Hdb.
  destruct (IH (note_count keep_tag replace_tag_list x db c)) as (-> & -> & ->).
  { intros id Hin. apply Hs. by right. }
  split; [done |]. unfold note_count.
  destruct (select_note_exists x db) eqn:Hex; [| done].
  specialize (Hs x (list_elem_of_here _ _) Hex).
  rewrite (settled_nothing_to_remove _ _ _ _ Hs). destruct Hs as [Hk _].
  rewrite bool_decide_eq_true_2 by done. cbn. split; [lia | done].
Qed.

(** C2, as amended: when the keep tag is not among the tags to replace, and
    [tag_id] is the key of [tags] that the schema makes it, applying the
    same request a second time leaves the stored data exactly as the first
    run left them and reports zero tag links removed and zero added. *)
Theorem apply_twice_changes_nothing_more (note_id_list : list Z)
    (keep_tag : string) (replace_tag_list : list string) (db : database)
    (g1 g2 : sync_outcome) :
  db_consistent db →
  keep_tag ∉ replace_tag_list →
  let first := apply_tag_normalization note_id_list keep_tag replace_tag_list
                 (start db no_faults g1) in
  let second := apply_tag_normalization note_id_list keep_tag replace_tag_list
                  (start (stored first) no_faults g2) in
  stored second = stored first
  ∧ "Tags removed: 0" ∈ stdout second.2
  ∧ "Tags added: 0" ∈ stdout second.2.
Proof.
  intros Hcons Hkr first second.
  destruct (apply_ok note_id_list keep_tag replace_tag_list (start db no_faults g1))
    as (Hst1 & _); [done | done |].
  destruct (apply_ok note_id_list keep_tag replace_tag_list
              (start (stored first) no_faults g2))
    as (Hst2 & _ & head & tail & Hout); [done | done |].
  fold first in Hst1. fold second in Hst2, Hout.
  cbn [start conn committed stdout] in *.
  set (db' := stored first) in *.
  (* the first run *)
  unfold normalized in Hst1.
  destruct (ensure_tag_consistent keep_tag db Hcons) as [Hnd Hpid].
  pose proof (ensure_tag_notes keep_tag db) as Hnotes.
  destruct (ensure_tag keep_tag db) as [pid db1]. cbn [fst snd] in *.
  rewrite notes_effect_db in Hst1.
  destruct (loop_settles keep_tag replace_tag_list pid note_id_list db1 Hkr Hnd Hpid)
    as (Htags & _ & Hsettled).
  rewrite <-Hst1 in Htags, Hsettled.
  assert (∀ id, select_note_exists id db' = select_note_exists id db1) as Hex.
  { intros id. rewrite Hst1. apply foldl_note_effect_exists. }
  (* the second run *)
  assert ((normalized note_id_list keep_tag replace_tag_list db').1.1 = db'
          ∧ tags_removed (normalized note_id_list keep_tag replace_tag_list db').1.2 = 0
          ∧ tags_added (normalized note_id_list keep_tag replace_tag_list db').1.2 = 0)
    as (Hdb & Hrem & Hadd).
  { unfold normalized.
    destruct (ensure_tag_existing keep_tag db' pid) as [Hsame _];
      [by rewrite Htags |].
    destruct (ensure_tag keep_tag db') as [pid' db'']. cbn [snd] in Hsame. subst db''.
    apply second_pass. intros id Hin Hid. apply Hsettled; [done |].
    by rewrite <-Hex. }
  rewrite Hst2, Hdb. split; [done |]. rewrite Hout, Hrem, Hadd.
  rewrite !elem_of_app. split.
  - right. right. right. left. do 2 right. left.
  - right. right. right. left. do 3 right. left.
Qed.

Lemma apply_twice_changes_nothing_more_witness :
  let first := apply_tag_normalization [1; 2; 3]%Z "python" ["py"]
                 (start sample_db no_faults synced) in
  let second := apply_tag_normalization [1; 2; 3]%Z "python" ["py"]
                  (start (stored first) no_faults synced) in
  stored second = stored first
  ∧ "Tags removed: 0" ∈ stdout second.2
  ∧ "Tags added: 0" ∈ stdout second.2.
Proof.
  apply (apply_twice_changes_nothing_more [1; 2; 3]%Z "python" ["py"] sample_db
           synced synced).
  - split; apply (bool_decide_unpack _); vm_compute; exact I.
  - by intros [= ]%list_elem_of_singleton.
Defined.

(** C2 as stated fails when the keep tag is among the tags to replace: the
    first run takes [python] away from note 2, the second run puts it back
    and reports one tag added. *)
Lemma apply_twice_differs_when_keep_tag_is_replaced :
  let first := apply_tag_normalization [2]%Z "python" ["python"]
                 (start sample_db no_faults synced) in
  let second := apply_tag_normalization [2]%Z "python" ["python"]
                  (start (stored first) no_faults synced) in
  note_tags (stored second) ≠ note_tags (stored first)
  ∧ "Tags added: 1" ∈ stdout second.2.
Proof.
  split.
  - vm_compute. discriminate.
  - apply (bool_decide_unpack _). vm_compute. exact I.
Qed.

(** ** Failures inside the transaction *)

Section Preservation.

Context (db : database) (err : list string).

Lemma preserves_bind {A B} (m : M A) (k : A → M B) :
  preserves (in_transaction db err) m →
  (∀ a, preserves (in_transaction db err) (k a)) →
  preserves (in_transaction db err) (m ≫= k).
Proof.
  intros Hm Hk w Hw. unfold mbind, M_bind, bind.
  specialize (Hm w Hw). destruct (m w) as [[a|e] w']; [by apply Hk | done].
Qed.

Lemma preserves_ret {A} (a : A) : preserves (in_transaction db err) (mret a).
Proof. by intros w Hw. Qed.

Lemma preserves_echo s : preserves (in_transaction db err) (echo s).
Proof. by intros w Hw. Qed.

Lemma preserves_execute {A} (stmt : database → A * database) :
  preserves (in_transaction db err) (execute stmt).
Proof.
  intros w (Hc & [d Ht] & He). unfold execute.
  destruct (faults w (executed w)); [done |].
  destruct (stmt (current (conn w))) as [a db'].
  unfold in_transaction, write. cbn. by rewrite Ht.
Qed.

Lemma preserves_for_each {A S} (l : list A) (body : A → S → M S) (s : S) :
  (∀ x s, preserves (in_transaction db err) (body x s)) →
  preserves (in_transaction db err) (for_each l body s).
Proof.
  intros Hbody. revert s. induction l as [|x l IH]; intros s; cbn [for_each].
  - apply preserves_ret.
  - apply preserves_bind; [apply Hbody | intros s'; apply IH].
Qed.

Lemma preserves_get_or_create_tag tag_name :
  preserves (in_transaction db err) (get_or_create_tag tag_name).
Proof.
  apply preserves_bind; [apply preserves_execute |].
  intros [tid|]; [apply preserves_ret | apply preserves_execute].
Qed.

Lemma preserves_normalize_note keep_tag replace_tag_list primary_tag_id note_id c :
  preserves (in_transaction db err)
    (normalize_note keep_tag replace_tag_list primary_tag_id note_id c).
Proof.
  apply preserves_bind; [apply preserves_execute |].
  intros [|]; cbn [negb].
  - apply preserves_bind; [apply preserves_execute |]. intros rows.
    apply preserves_bind.
    + case_match; [apply preserves_ret |].
      apply preserves_bind; [| intros; apply preserves_ret].
      apply preserves_for_each. intros; apply preserves_execute.
    + intros removed. apply preserves_bind; [| intros; apply preserves_ret].
      case_match; [| apply preserves_ret].
      apply preserves_bind; [apply preserves_execute | intros; apply preserves_ret].
  - apply preserves_bind; [apply preserves_echo | intros; apply preserves_ret].
Qed.

(** Whatever raises between [BEGIN] and the end of [COMMIT] leaves the
    transaction open and the stored data as they were. *)
Lemma transaction_steps_raise note_id_list keep_tag replace_tag_list w e :
  in_transaction db err w →
  (transaction_steps note_id_list keep_tag replace_tag_list w).1 = Raise e →
  in_transaction db err
    (transaction_steps note_id_list keep_tag replace_tag_list w).2.
Proof.
  intros Hw. unfold transaction_steps, mbind, M_bind, bind.
  pose proof (preserves_get_or_create_tag keep_tag w Hw) as H1.
  destruct (get_or_create_tag keep_tag w) as [[pid|e1] w1]; [| done].
  pose proof (preserves_for_each note_id_list
                (normalize_note keep_tag replace_tag_list pid) zero_counters
                (preserves_normalize_note keep_tag replace_tag_list pid) w1 H1) as H2.
  destruct (for_each _ _ _ w1) as [[c|e2] w2]; [| done].
  cbn [snd] in H2. destruct H2 as (_ & [d Ht] & _). unfold commit. rewrite Ht. done.
Qed.

End Preservation.

(** The run of a call whose transaction raises [e]: the handler rolls back
    and reports. *)
Lemma run_of_a_failed_transaction (note_id_list : list Z) (keep_tag : string)
    (replace_tag_list : list string) (db : database) (f : nat → option exn)
    (g : sync_outcome) (e : exn) :
  (transaction_steps note_id_list keep_tag replace_tag_list
     (begun note_id_list keep_tag replace_tag_list (start db f g))).1 = Raise e →
  ∃ out wf,
    apply_tag_normalization note_id_list keep_tag replace_tag_list (start db f g)
      = (Return tt, wf)
    ∧ conn wf = {| committed := db; txn := None |}
    ∧ stderr wf = ["Error applying tag normalizations: " +:+ str e]
    ∧ stdout wf = out ++ ["No changes were made to the database."].
Proof.
  intros Hraise.
  destruct (announce_ok note_id_list keep_tag replace_tag_list (start db f g))
    as [lines Ha]. cbn [start conn current committed txn default] in Ha.
  set (w := start db f g) in *.
  set (w0 := set_conn (after w 0 db lines) {| committed := db; txn := Some db |}).
  assert (begin_transaction (after w 0 db lines) = (Return tt, w0)) as Hb
    by (by rewrite begin_ok).
  assert (begun note_id_list keep_tag replace_tag_list w = w0) as Hbegun.
  { unfold begun. erewrite bind_return by exact Ha. by rewrite Hb. }
  rewrite Hbegun in Hraise.
  assert (in_transaction db [] w0) as Hw0 by (split_and!; [done | by eexists | done]).
  pose proof (transaction_steps_raise db [] note_id_list keep_tag replace_tag_list
                w0 e Hw0 Hraise) as (Hc & [d Ht] & He).
  destruct (transaction_steps note_id_list keep_tag replace_tag_list w0)
    as [r w1] eqn:Hsteps. cbn [fst snd] in *. subst r.
  exists (stdout w1). eexists. split.
  - unfold apply_tag_normalization, try_finally.
    unfold try_except at 1.
    erewrite bind_return by exact Ha. erewrite bind_return by exact Hb.
    unfold try_except at 1. erewrite bind_raise by exact Hsteps.
    unfold rollback_handler, mbind, M_bind, bind, rollback, echo_err, echo, close.
    rewrite Ht. cbn. reflexivity.
  - cbn. rewrite Hc, He. done.
Qed.




(** ** All or nothing, whatever fails *)

Lemma bind_returns {A B} (m : M A) (k : A → M B) w b w'' :
  (m ≫= k) w = (Return b, w'') →
  ∃ a w', m w = (Return a, w') ∧ k a w' = (Return b, w'').
Proof.
  unfold mbind, M_bind, bind. destruct (m w) as [[a|e] w']; [| done].
  intros H. by exists a, w'.
Qed.

Lemma execute_returns {A} (stmt : database → A * database) w a w' :
  execute stmt w = (Return a, w') →
  a = (stmt (current (conn w))).1
  ∧ current (conn w') = (stmt (current (conn w))).2.
Proof.
  unfold execute. destruct (faults w (executed w)); [done |].
  destruct (stmt (current (conn w))) as [a' db']. intros [= <- <-].
  cbn. by rewrite current_write.
Qed.

Lemma get_or_create_tag_returns tag_name w tid w' :
  get_or_create_tag tag_name w = (Return tid, w') →
  tid = (ensure_tag tag_name (current (conn w))).1
  ∧ current (conn w') = (ensure_tag tag_name (current (conn w))).2.
Proof.
  unfold get_or_create_tag, ensure_tag.
  intros (r & w1 & [-> Hw1]%execute_returns & Hk)%bind_returns.
  cbn [fst snd] in *. destruct (select_tag_id tag_name (current (conn w))).
  - injection Hk as <- <-. done.
  - apply execute_returns in Hk. by rewrite Hw1 in Hk.
Qed.

Lemma delete_loop_returns note_id (l : list Z) w w' :
  for_each l (λ tag_id (_ : unit), update (delete_note_tag note_id tag_id)) tt w
    = (Return tt, w') →
  current (conn w')
  = foldl (λ d tag_id, delete_note_tag note_id tag_id d) (current (conn w)) l.
Proof.
  revert w. induction l as [|tag_id l IH]; intros w; cbn [for_each foldl].
  - by intros [= <-].
  - intros ([] & w1 & [_ Hw1]%execute_returns & Hk)%bind_returns.
    cbn [snd] in Hw1. rewrite <-Hw1. by apply IH.
Qed.

Lemma normalize_note_returns keep_tag replace_tag_list primary_tag_id note_id c w c' w' :
  normalize_note keep_tag replace_tag_list primary_tag_id note_id c w
    = (Return c', w') →
  c' = note_count keep_tag replace_tag_list note_id (current (conn w)) c
  ∧ current (conn w')
    = note_effect keep_tag replace_tag_list primary_tag_id note_id (current (conn w)).
Proof.
  unfold normalize_note, note_count, note_effect.
  intros (ex & w1 & [-> Hw1]%execute_returns & Hk)%bind_returns. cbn [fst snd] in *.
  set (db := current (conn w)) in *.
  destruct (select_note_exists note_id db); cbn [negb] in Hk.
  - apply bind_returns in Hk as (rows & w2 & [-> Hw2]%execute_returns & Hk).
    cbn [fst snd] in *. rewrite Hw1 in Hk, Hw2.
    fold (tags_to_remove_of replace_tag_list note_id db) in *.
    fold (tag_names_of db note_id) in *.
    set (rm := tags_to_remove_of replace_tag_list note_id db) in *.
    apply bind_returns in Hk as (removed & w3 & Hrm & Hk).
    assert (removed = tags_removed c + length rm
            ∧ current (conn w3)
              = foldl (λ d tag_id, delete_note_tag note_id tag_id d) db rm)
      as [-> Hw3].
    { destruct rm as [|t rm'] eqn:Erm.
      - injection Hrm as <- <-. cbn. split; [lia | done].
      - apply bind_returns in Hrm as ([] & w4 & Hdel%delete_loop_returns & Hret).
        injection Hret as <- <-. by rewrite Hdel, Hw2. }
    apply bind_returns in Hk as (added & w4 & Hadd & Hret).
    injection Hret as <- <-.
    destruct (bool_decide (keep_tag ∈ tag_names_of db note_id)); cbn [negb] in Hadd.
    + injection Hadd as <- <-. done.
    + apply bind_returns in Hadd as ([] & w5 & [_ Hw5]%execute_returns & Hret).
      injection Hret as <- <-. cbn [snd] in Hw5. by rewrite Hw5, Hw3.
  - apply bind_returns in Hk as ([] & w2 & Hecho & Hret).
    injection Hret as <- <-. unfold echo in Hecho. injection Hecho as <-.
    done.
Qed.

Lemma normalize_loop_returns keep_tag replace_tag_list primary_tag_id ids c w c' w' :
  for_each ids (normalize_note keep_tag replace_tag_list primary_tag_id) c w
    = (Return c', w') →
  c' = (notes_effect keep_tag replace_tag_list primary_tag_id ids
          (current (conn w)) c).1.2
  ∧ current (conn w')
    = (notes_effect keep_tag replace_tag_list primary_tag_id ids
         (current (conn w)) c).1.1.
Proof.
  revert c w. induction ids as [|id ids IH]; intros c w; cbn [for_each].
  - by intros [= <- <-].
  - intros (c1 & w1 & [-> Hw1]%normalize_note_returns & Hk)%bind_returns.
    apply IH in Hk. rewrite Hw1 in Hk. by rewrite notes_effect_cons.
Qed.

Lemma transaction_steps_returns ids keep_tag replace_tag_list w c w' :
  is_Some (txn (conn w)) →
  transaction_steps ids keep_tag replace_tag_list w = (Return c, w') →
  conn w'
  = {| committed := (normalized ids keep_tag replace_tag_list (current (conn w))).1.1;
       txn := None |}.
Proof.
  intros Htxn. unfold transaction_steps, normalized.
  intros (pid & w1 & [-> Hw1]%get_or_create_tag_returns & Hk)%bind_returns.
  apply bind_returns in Hk as (c1 & w2 & [-> Hw2]%normalize_loop_returns & Hk).
  apply bind_returns in Hk as ([] & w3 & Hcommit & Hret).
  injection Hret as <- <-. rewrite Hw1 in Hw2.
  destruct (ensure_tag keep_tag (current (conn w))) as [pid db1]. cbn [fst snd] in *.
  unfold commit in Hcommit. destruct (txn (conn w2)) as [d|] eqn:Ht; [| done].
  injection Hcommit as <-. cbn. unfold current in Hw2. rewrite Ht in Hw2. cbn in Hw2.
  by rewrite Hw2.
Qed.

(** X1: whatever statement fails and whatever the push to GitHub does, a
    call leaves the stored data either as they were or as the whole request
    makes them. *)
Theorem apply_is_all_or_nothing (note_id_list : list Z) (keep_tag : string)
    (replace_tag_list : list string) (db : database) (f : nat → option exn)
    (g : sync_outcome) :
  let run := apply_tag_normalization note_id_list keep_tag replace_tag_list
               (start db f g) in
  stored run = db
  ∨ stored run = (normalized note_id_list keep_tag replace_tag_list db).1.1.
Proof.
  intros run.
  destruct (transaction_steps note_id_list keep_tag replace_tag_list
              (begun note_id_list keep_tag replace_tag_list (start db f g)))
    as [[c|e] w1] eqn:Hsteps.
  - right.
    destruct (announce_ok note_id_list keep_tag replace_tag_list (start db f g))
      as [lines Ha]. cbn [start conn current committed txn default] in Ha.
    set (w := start db f g) in *.
    set (w0 := set_conn (after w 0 db lines) {| committed := db; txn := Some db |}).
    assert (begin_transaction (after w 0 db lines) = (Return tt, w0)) as Hb
      by (by rewrite begin_ok).
    assert (begun note_id_list keep_tag replace_tag_list w = w0) as Hbegun.
    { unfold begun. erewrite bind_return by exact Ha. by rewrite Hb. }
    rewrite Hbegun in Hsteps.
    assert (is_Some (txn (conn w0))) as Hopen by (by eexists).
    pose proof (transaction_steps_returns _ _ _ _ _ _ Hopen Hsteps) as Hconn.
    change (current (conn w0)) with db in Hconn.
    destruct (report_and_sync_ok c w1) as (r & w2 & tail & Hr & Hconn2 & _).
    subst run. unfold stored, apply_tag_normalization, try_finally.
    unfold try_except at 1.
    erewrite bind_return by exact Ha. erewrite bind_return by exact Hb.
    unfold try_except at 1. erewrite bind_return by exact Hsteps. rewrite Hr.
    destruct r as [[]|e].
    + cbn. by rewrite Hconn2, Hconn.
    + unfold rollback_handler. erewrite bind_raise.
      2:{ unfold rollback. rewrite Hconn2, Hconn. cbn. reflexivity. }
      cbn. by rewrite Hconn2, Hconn.
  - left.
    destruct (run_of_a_failed_transaction note_id_list keep_tag replace_tag_list
                db f g e) as (out & wf & Hrun & Hconn & _); [by rewrite Hsteps |].
    subst run. unfold stored. rewrite Hrun. cbn [snd]. by rewrite Hconn.
Qed.

(** ** The dimension of an embedding *)

(** C9: an embedding whose length is not 3072 makes both [add_note] and
    [search_notes_by_similarity] raise their [ValueError] at once: the world
    is returned untouched, so no statement was issued, nothing was compared
    or written, and the vector was neither truncated nor padded. *)
Theorem embedding_dimension_is_checked
    (cosine_distance : list float → list float → float)
    (embedding : list float) (title content : string)
    (tags : option (list string)) (limit : nat) (tag_filter : option string)
    (w : world) :
  length embedding ≠ 3072 →
  add_note title content embedding tags w
    = (Raise (ValueError "Embedding must be exactly 3072 dimensions"), w)
  ∧ search_notes_by_similarity cosine_distance embedding limit tag_filter w
    = (Raise (ValueError "Query embedding must be exactly 3072 dimensions"), w).
Proof.
  intros Hlen. unfold add_note, search_notes_by_similarity.
  destruct (Nat.eqb_spec (length embedding) 3072) as [Heq|_]; [done |].
  done.
Qed.

Lemma embedding_dimension_is_checked_witness :
  add_note "X" "text" (replicate 100 0%float) (Some ["py"])
      (start sample_db no_faults synced)
    = (Raise (ValueError "Embedding must be exactly 3072 dimensions"),
       start sample_db no_faults synced)
  ∧ search_notes_by_similarity line_distance (replicate 100 0%float) 10 None
      (start sample_db no_faults synced)
    = (Raise (ValueError "Query embedding must be exactly 3072 dimensions"),
       start sample_db no_faults synced).
Proof.
  apply (embedding_dimension_is_checked line_distance).
  rewrite length_replicate. discriminate.
Defined.

(** A vector of the right length is stored as it is, under the next
    note id. *)
Lemma add_note_stores_embedding (embedding : list float) (title content : string)
    (db : database) g :
  length embedding = 3072 →
  notes (stored (add_note title content embedding None (start db no_faults g)))
  = notes db ++ [{| n_note_id := note_id_seq db; n_title := title;
                    n_content := content; n_embedding := embedding;
                    n_created_at := clock db |}].
Proof.
  intros Hlen. unfold add_note. rewrite Hlen. reflexivity.
Qed.

Lemma add_note_stores_embedding_witness :
  notes (stored (add_note "X" "text" (replicate 3072 0.5%float) None
                   (start sample_db no_faults synced)))
  = notes sample_db
    ++ [{| n_note_id := 7; n_title := "X"; n_content := "text";
           n_embedding := replicate 3072 0.5%float; n_created_at := 0 |}].
Proof.
  apply (add_note_stores_embedding (replicate 3072 0.5%float) "X" "text"
           sample_db synced).
  apply length_replicate.
Defined.

(** ** The tag tally *)


Lemma increment_keys tag tag_counts :
  (increment tag tag_counts).*1 =
  if decide (tag ∈ tag_counts.*1) then tag_counts.*1 else tag_counts.*1 ++ [tag].
Proof.
  induction tag_counts as [|[t n] rest IH].
  - case_decide as H; [by apply elem_of_nil in H | done].
  - cbn [increment]. destruct (decide (t = tag)) as [->|Hne].
    + rewrite decide_True; [done | cbn; left].
    + cbn [fmap list_fmap fst]. cbn in IH. rewrite IH.
      destruct (decide (tag ∈ rest.*1)) as [Hin|Hnin].
      * rewrite decide_True; [done | by right].
      * rewrite decide_False; [done |].
        intros [?|?]%elem_of_cons; cbn in *; congruence.
Qed.

Lemma increment_NoDup tag tag_counts :
  NoDup tag_counts.*1 → NoDup (increment tag tag_counts).*1.
Proof.
  intros Hnd. rewrite increment_keys. case_decide; [done |].
  apply NoDup_app. split_and!; [done | | apply NoDup_singleton].
  intros x Hx ->%list_elem_of_singleton. done.
Qed.

Lemma tally_get_increment tag tag' tag_counts :
  tally_get tag (increment tag' tag_counts) =
  tally_get tag tag_counts + (if decide (tag' = tag) then 1 else 0).
Proof.
  induction tag_counts as [|[t n] rest IH]; cbn.
  - by repeat case_decide.
  - destruct (decide (t = tag')) as [->|Hne]; cbn.
    + repeat case_decide; lia.
    + rewrite IH. repeat case_decide; try lia; congruence.
Qed.

Lemma tally_get_elem tag n tag_counts :
  NoDup tag_counts.*1 → (tag, n) ∈ tag_counts → tally_get tag tag_counts = n.
Proof.
  induction tag_counts as [|[t m] rest IH]; cbn; intros Hnd Hin.
  - by apply elem_of_nil in Hin.
  - apply NoDup_cons in Hnd as [Hnin Hnd].
    apply elem_of_cons in Hin as [[= -> ->]|Hin].
    + by rewrite decide_True.
    + rewrite decide_False; [by apply IH |].
      intros ->. apply Hnin. apply list_elem_of_fmap. by exists (tag, n).
Qed.

Lemma count_tags_flat cluster :
  count_tags cluster =
  foldl (λ tag_counts tag, increment tag tag_counts) [] (all_tags cluster).
Proof.
  unfold count_tags, all_tags. generalize (@nil (string * nat)).
  induction cluster as [|note rest IH]; intros acc; [done |].
  cbn. rewrite foldl_app. apply IH.
Qed.

Lemma tally_spec (l : list string) (acc : list (string * nat)) :
  NoDup acc.*1 →
  let r := foldl (λ tag_counts tag, increment tag tag_counts) acc l in
  NoDup r.*1
  ∧ (∀ t, t ∈ r.*1 ↔ t ∈ acc.*1 ∨ t ∈ l)
  ∧ (∀ t, tally_get t r = tally_get t acc + length (filter (λ x, x = t) l)).
Proof.
  revert acc. induction l as [|x l IH]; intros acc Hnd; cbn zeta; cbn [foldl].
  - split_and!; [done | | intros; cbn; lia].
    intros t. rewrite elem_of_nil. tauto.
  - destruct (IH (increment x acc) (increment_NoDup _ _ Hnd)) as (H1 & H2 & H3).
    cbn zeta in H1, H2, H3.
    split_and!; [done | |].
    + intros t. rewrite H2, increment_keys, elem_of_cons.
      case_decide as Hx; [| rewrite elem_of_app, list_elem_of_singleton].
      * split; [tauto |]. intros [?|[->|?]]; tauto.
      * tauto.
    + intros t. rewrite H3, tally_get_increment, filter_cons.
      repeat case_decide; cbn; try lia; congruence.
Qed.

Lemma count_tags_NoDup cluster : NoDup (count_tags cluster).*1.
Proof.
  rewrite count_tags_flat. apply (tally_spec _ []). apply NoDup_nil_2.
Qed.

Lemma count_tags_keys cluster t :
  t ∈ (count_tags cluster).*1 ↔ t ∈ all_tags cluster.
Proof.
  rewrite count_tags_flat.
  destruct (tally_spec (all_tags cluster) [] (NoDup_nil_2)) as (_ & H & _).
  rewrite H. cbn. rewrite elem_of_nil. tauto.
Qed.

Lemma count_tags_count cluster t n :
  (t, n) ∈ count_tags cluster → n = occurrences t cluster.
Proof.
  intros Hin. rewrite <-(tally_get_elem t n _ (count_tags_NoDup cluster) Hin).
  rewrite count_tags_flat.
  destruct (tally_spec (all_tags cluster) [] (NoDup_nil_2)) as (_ & _ & H).
  by rewrite H.
Qed.

Lemma count_tags_length cluster :
  length (count_tags cluster) = length (distinct_tags cluster).
Proof.
  rewrite <-(length_fmap fst). apply Permutation_length.
  apply NoDup_Permutation; [apply count_tags_NoDup | apply NoDup_remove_dups |].
  intros t. unfold distinct_tags. by rewrite count_tags_keys, elem_of_remove_dups.
Qed.

Lemma suggest_for_cluster_spec suggestions cluster :
  suggest_for_cluster suggestions cluster =
  if decide (2 ≤ length (distinct_tags cluster)) then
    suggestions ++
      [{| Suggestion.note_ids := Note.note_id <$> cluster;
          Suggestion.note_titles := Note.title <$> cluster;
          Suggestion.tags := count_tags cluster;
          Suggestion.most_common_tag := most_common (count_tags cluster) |}]
  else suggestions.
Proof.
  unfold suggest_for_cluster. rewrite <-count_tags_length.
  destruct (Nat.leb_spec (length (count_tags cluster)) 1) as [Hle|Hgt].
  - rewrite decide_False; [done | lia].
  - rewrite decide_True by lia.
    destruct (Nat.ltb_spec 1 (length (count_tags cluster))); [done | lia].
Qed.

Lemma find_suggestions_from acc clusters :
  Suggestion.note_ids <$> foldl suggest_for_cluster acc clusters =
  (Suggestion.note_ids <$> acc) ++
  (member_ids <$> filter (λ c, 2 ≤ length (distinct_tags c)) clusters).
Proof.
  revert acc. induction clusters as [|c clusters IH]; intros acc.
  - cbn. by rewrite app_nil_r.
  - cbn [foldl]. rewrite IH, suggest_for_cluster_spec, filter_cons.
    case_decide; [| done]. rewrite fmap_app. cbn. by rewrite <-app_assoc.
Qed.

(** C5: a cluster gets a suggestion exactly when its members carry at
    least two distinct tag names: alone it yields one suggestion or none, in
    a list the suggestions are those of the clusters with two distinct tags
    or more, in order; and the tally counts every tag of every member, so
    that the count of a tag is the number of its occurrences. *)
Theorem suggestion_iff_two_distinct_tags (clusters : list (list Note.t))
    (cluster : list Note.t) :
  find_tag_normalization_suggestions [cluster]
    = (if decide (2 ≤ length (distinct_tags cluster)) then
         [{| Suggestion.note_ids := member_ids cluster;
             Suggestion.note_titles := Note.title <$> cluster;
             Suggestion.tags := count_tags cluster;
             Suggestion.most_common_tag := most_common (count_tags cluster) |}]
       else [])
  ∧ Suggestion.note_ids <$> find_tag_normalization_suggestions clusters
    = (member_ids <$> filter (λ c, 2 ≤ length (distinct_tags c)) clusters)
  ∧ (∀ tag, tally_get tag (count_tags cluster) = occurrences tag cluster).
Proof.
  split_and!.
  - unfold find_tag_normalization_suggestions. cbn [foldl].
    rewrite suggest_for_cluster_spec. by case_decide.
  - unfold find_tag_normalization_suggestions. by rewrite find_suggestions_from.
  - intros tag. rewrite count_tags_flat.
    destruct (tally_spec (all_tags cluster) [] (NoDup_nil_2)) as (_ & _ & H).
    by rewrite H.
Qed.

(** C6: the claim does not hold of the code. Both notes of
    [same_tags_cluster] carry exactly [py] and [python], and the cluster
    still gets a suggestion, with each tag counted twice. *)
Lemma identical_tag_sets_still_get_a_suggestion :
  Forall (λ note, Note.tags note = ["py"; "python"]) same_tags_cluster
  ∧ find_tag_normalization_suggestions [same_tags_cluster]
    = [{| Suggestion.note_ids := [1; 2]%Z;
          Suggestion.note_titles := ["X"; "Y"];
          Suggestion.tags := [("py", 2); ("python", 2)];
          Suggestion.most_common_tag := "py" |}].
Proof. split; [by repeat constructor | reflexivity]. Qed.

(** ** The similar pairs *)

Lemma insert_sorted_perm {A} (le : A → A → bool) x l :
  insert_sorted le x l ≡ₚ x :: l.
Proof.
  induction l as [|y l IH]; cbn; [done |].
  destruct (le x y); [done |]. rewrite IH. apply Permutation_swap.
Qed.

Lemma order_by_perm {A} (le : A → A → bool) l : order_by le l ≡ₚ l.
Proof.
  induction l as [|x l IH]; cbn; [done |].
  rewrite insert_sorted_perm. by constructor.
Qed.

Lemma has_tag_link_tagged db id : has_tag_link db id = true ↔ tagged db id.
Proof.
  unfold has_tag_link, tagged. rewrite bool_decide_eq_true, list_elem_of_fmap. split.
  - intros ([n t] & -> & Hin). by exists t.
  - intros [tid Hin]. by eexists {| nt_note_id := id; nt_tag_id := tid |}.
Qed.

Section Pairs.

Context (cosine_distance : list float → list float → float).

Lemma elem_of_similar_pairs tau db a b d :
  (a, b, d) ∈ similar_pairs_query cosine_distance tau db ↔
  ∃ n1 n2, n1 ∈ notes db ∧ n2 ∈ notes db
    ∧ n_note_id n1 = a ∧ n_note_id n2 = b
    ∧ (a < b)%Z ∧ tagged db a ∧ tagged db b
    ∧ d = cosine_distance (n_embedding n1) (n_embedding n2)
    ∧ sql_le d tau = true.
Proof.
  unfold similar_pairs_query. rewrite order_by_perm, list_elem_of_bind.
  setoid_rewrite list_elem_of_bind. split.
  - intros (n1 & (n2 & Hin & Hn2) & Hn1). exists n1, n2.
    destruct (bool_decide _ && _ && _ && _) eqn:Hc; [| by apply elem_of_nil in Hin].
    apply list_elem_of_singleton in Hin as [= -> -> ->].
    apply andb_true_iff in Hc as [[[Hlt H1]%andb_true_iff H2]%andb_true_iff Hle].
    apply bool_decide_eq_true in Hlt.
    split_and!; try done; by apply has_tag_link_tagged.
  - intros (n1 & n2 & Hn1 & Hn2 & <- & <- & Hlt & H1 & H2 & -> & Hle).
    exists n1. split; [| done]. exists n2. split; [| done].
    rewrite bool_decide_eq_true_2 by done.
    apply has_tag_link_tagged in H1, H2. rewrite H1, H2, Hle. by left.
Qed.

(** C4: the similar pairs are exactly the pairs [(a, b)] of ids of tagged
    notes with [a < b] whose distance is at most
    [1 - similarity_threshold]; no note is paired with itself and no pair
    comes in both directions. *)
Theorem similar_pairs_are_the_close_tagged_pairs (db : database)
    (similarity_threshold : float) :
  let similar_pairs :=
    similar_pairs_query cosine_distance
      (distance_threshold similarity_threshold) db in
  (∀ a b d,
     (a, b, d) ∈ similar_pairs ↔
     ∃ n1 n2, n1 ∈ notes db ∧ n2 ∈ notes db
       ∧ n_note_id n1 = a ∧ n_note_id n2 = b
       ∧ (a < b)%Z ∧ tagged db a ∧ tagged db b
       ∧ d = cosine_distance (n_embedding n1) (n_embedding n2)
       ∧ sql_le d (1 - similarity_threshold)%float = true)
  ∧ (∀ a d, (a, a, d) ∉ similar_pairs)
  ∧ (∀ a b d d', (a, b, d) ∈ similar_pairs → (b, a, d') ∉ similar_pairs).
Proof.
  cbn zeta. split_and!.
  - intros a b d. apply elem_of_similar_pairs.
  - intros a d (_ & _ & _ & _ & _ & _ & Hlt & _)%elem_of_similar_pairs. lia.
  - intros a b d d' (_ & _ & _ & _ & _ & _ & Hlt & _)%elem_of_similar_pairs
      (_ & _ & _ & _ & _ & _ & Hlt' & _)%elem_of_similar_pairs. lia.
Qed.

End Pairs.

(** The default similarity 0.85 gives the distance threshold
    0.15000000000000002, the double next above 0.15. *)
Lemma default_distance_threshold :
  distance_threshold 0x1.b333333333333p-1 = 0x1.3333333333334p-3%float
  ∧ PrimFloat.next_up 0x1.3333333333333p-3 = 0x1.3333333333334p-3%float.
Proof. split; vm_compute; reflexivity. Qed.

(** ** The similarity graph as a dictionary *)

Lemma dict_get_app {V} k (g g' : list (Z * V)) :
  dict_get k (g ++ g') =
  match dict_get k g with Some v => Some v | None => dict_get k g' end.
Proof.
  induction g as [|[k' v] g IH]; cbn; [done |]. by case_decide.
Qed.

Lemma dict_get_is_Some {V} k (g : list (Z * V)) :
  is_Some (dict_get k g) ↔ k ∈ g.*1.
Proof.
  induction g as [|[k' v] g IH]; cbn.
  - rewrite elem_of_nil. split; [by intros [x Hx] | done].
  - rewrite elem_of_cons. case_decide as Hk.
    + split; [by left | by eexists].
    + rewrite IH. split; [by right | intros [?|?]; [congruence | done]].
Qed.

Lemma entries_setdefault k k' g :
  entries (dict_setdefault k' g) k = entries g k.
Proof.
  unfold entries, dict_setdefault.
  destruct (dict_get k' g) as [v|] eqn:Hk'; [done |].
  rewrite dict_get_app. destruct (dict_get k g) as [v|] eqn:Hk; [done |].
  cbn. by case_decide.
Qed.

Lemma keys_setdefault {V} k k' (g : list (Z * list V)) :
  k ∈ (dict_setdefault k' g).*1 ↔ k ∈ g.*1 ∨ k = k'.
Proof.
  unfold dict_setdefault. destruct (dict_get k' g) as [v|] eqn:Hk'.
  - split; [by left |]. intros [H| ->]; [done |].
    apply dict_get_is_Some. by eexists.
  - rewrite fmap_app, elem_of_app. cbn. by rewrite list_elem_of_singleton.
Qed.

Lemma keys_append {V} k (x : V) (g : list (Z * list V)) :
  (dict_append k x g).*1 = g.*1.
Proof.
  induction g as [|[k' v] g IH]; cbn; [done |].
  case_decide; cbn; [done |]. by f_equal.
Qed.

Lemma entries_append k k' x g :
  k' ∈ g.*1 →
  entries (dict_append k' x g) k
  = if decide (k = k') then entries g k ++ [x] else entries g k.
Proof.
  unfold entries. induction g as [|[k0 v] g IH]; cbn; intros Hk'.
  - by apply elem_of_nil in Hk'.
  - destruct (decide (k0 = k')) as [->|Hne]; cbn.
    + destruct (decide (k' = k)) as [->|Hnk].
      * by rewrite decide_True.
      * by rewrite decide_False.
    + apply elem_of_cons in Hk' as [?|Hk']; [congruence |].
      destruct (decide (k0 = k)) as [->|Hnk].
      * by rewrite decide_False.
      * by apply IH.
Qed.

(** Lines 138-144: what one pair adds to the graph. *)
Lemma graph_step g (n1 n2 : Z) (d : float) :
  let g' := dict_append n2 (n1, d)
              (dict_append n1 (n2, d)
                 (dict_setdefault n2 (dict_setdefault n1 g))) in
  (∀ a x, x ∈ entries g' a ↔
          x ∈ entries g a ∨ (a = n1 ∧ x = (n2, d)) ∨ (a = n2 ∧ x = (n1, d)))
  ∧ (∀ k, k ∈ g'.*1 ↔ k ∈ g.*1 ∨ k = n1 ∨ k = n2).
Proof.
  cbn zeta.
  assert (∀ k, k ∈ (dict_setdefault n2 (dict_setdefault n1 g)).*1
               ↔ k ∈ g.*1 ∨ k = n1 ∨ k = n2) as Hkeys.
  { intros k. rewrite !keys_setdefault. tauto. }
  split.
  - intros a x. rewrite entries_append.
    2:{ rewrite keys_append. apply Hkeys. tauto. }
    rewrite entries_append by (apply Hkeys; tauto).
    rewrite !entries_setdefault.
    clear Hkeys. repeat case_decide; subst;
      rewrite ?elem_of_app, ?list_elem_of_singleton; intuition congruence.
  - intros k. by rewrite !keys_append.
Qed.

Lemma graph_fold (similar_pairs : list (Z * Z * float)) g :
  let g' :=
    foldl (λ similarity_graph '(note1_id, note2_id, distance),
             dict_append note2_id (note1_id, distance)
               (dict_append note1_id (note2_id, distance)
                  (dict_setdefault note2_id
                     (dict_setdefault note1_id similarity_graph))))
          g similar_pairs in
  (∀ a b d, (b, d) ∈ entries g' a ↔
            (b, d) ∈ entries g a
            ∨ (a, b, d) ∈ similar_pairs ∨ (b, a, d) ∈ similar_pairs)
  ∧ (∀ k, k ∈ g'.*1 ↔
          k ∈ g.*1 ∨ ∃ b d, (k, b, d) ∈ similar_pairs ∨ (b, k, d) ∈ similar_pairs).
Proof.
  cbn zeta. revert g.
  induction similar_pairs as [|[[n1 n2] d0] ps IH]; intros g; cbn [foldl].
  - split.
    + intros a b d. rewrite !elem_of_nil. tauto.
    + intros k. split; [by left |]. intros [?|(? & ? & [[]%elem_of_nil|[]%elem_of_nil])].
      done.
  - destruct (graph_step g n1 n2 d0) as [Hs1 Hs2]. cbn zeta in Hs1, Hs2.
    destruct (IH (dict_append n2 (n1, d0)
                    (dict_append n1 (n2, d0)
                       (dict_setdefault n2 (dict_setdefault n1 g))))) as [IH1 IH2].
    split.
    + intros a b d. rewrite IH1, Hs1, !elem_of_cons. naive_solver.
    + intros k. rewrite IH2, Hs2. setoid_rewrite elem_of_cons. naive_solver.
Qed.

Lemma build_similarity_graph_adjacent similar_pairs a b :
  adjacent (build_similarity_graph similar_pairs) a b ↔ edge similar_pairs a b.
Proof.
  unfold adjacent, edge, build_similarity_graph.
  destruct (graph_fold similar_pairs []) as [H _]. cbn zeta in H.
  rewrite list_elem_of_fmap. split.
  - intros ([b' d] & -> & Hin). apply H in Hin as [[]%elem_of_nil|Hin]. by exists d.
  - intros [d Hd]. exists (b, d). split; [done |]. apply H. by right.
Qed.

Lemma build_similarity_graph_keys similar_pairs k :
  k ∈ (build_similarity_graph similar_pairs).*1 ↔ ∃ b, edge similar_pairs k b.
Proof.
  unfold edge, build_similarity_graph.
  destruct (graph_fold similar_pairs []) as [_ H]. cbn zeta in H.
  rewrite H. cbn. rewrite elem_of_nil. naive_solver.
Qed.

(** ** The depth-first search *)

Lemma weight_mono g c visited : weight g ({[c]} ∪ visited) ≤ weight g visited.
Proof.
  unfold weight. induction g as [|[k v] g IH]; cbn; [done |].
  repeat case_decide; try lia. set_solver.
Qed.

Lemma weight_visit g c visited :
  c ∉ visited →
  weight g ({[c]} ∪ visited) + length (entries g c) ≤ weight g visited.
Proof.
  intros Hc. unfold weight, entries. induction g as [|[k v] g IH]; cbn; [done |].
  destruct (decide (k = c)) as [->|Hne].
  - rewrite decide_True by set_solver. rewrite decide_False by done.
    pose proof (weight_mono g c visited) as Hm. unfold weight in Hm. cbn. lia.
  - destruct (decide (k ∈ visited)) as [Hk|Hk].
    + rewrite decide_True by set_solver. lia.
    + rewrite decide_False by set_solver. lia.
Qed.

Lemma weight_total g visited :
  weight g visited ≤ sum_list ((λ e, length e.2) <$> g).
Proof.
  unfold weight. induction g as [|[k v] g IH]; cbn; [done |].
  case_decide; lia.
Qed.

Lemma push_spec (visited : gset Z) (adj : list (Z * float)) (stack : list Z) :
  let stack' :=
    foldl (λ stack '(neighbor_id, _),
             if decide (neighbor_id ∈ visited) then stack
             else neighbor_id :: stack) stack adj in
  length stack' ≤ length stack + length adj
  ∧ ∀ x, x ∈ stack' ↔ x ∈ stack ∨ (x ∈ adj.*1 ∧ x ∉ visited).
Proof.
  cbn zeta. revert stack. induction adj as [|[n d] adj IH]; intros stack; cbn [foldl].
  - split; [cbn; lia |]. intros x. cbn. rewrite elem_of_nil. tauto.
  - destruct (decide (n ∈ visited)) as [Hn|Hn].
    + destruct (IH stack) as [IH1 IH2]. split; [cbn; lia |].
      intros x. rewrite IH2. cbn. rewrite elem_of_cons.
      split; [tauto |]. intros [?|[[->|?] ?]]; tauto.
    + destruct (IH (n :: stack)) as [IH1 IH2]. split; [cbn in *; lia |].
      intros x. rewrite IH2. cbn. rewrite !elem_of_cons.
      split; [| tauto]. intros [[->|?]|[? ?]]; tauto.
Qed.

Lemma dfs_spec g (notes_data : gmap Z Note.t) fuel :
  ∀ stack visited cluster,
  length stack + weight g visited < fuel →
  ∃ visited' order,
    dfs fuel g notes_data stack visited cluster
    = Some (visited', cluster ++ omap (λ v, notes_data !! v) order)
    ∧ NoDup order
    ∧ (∀ v, v ∈ order ↔ v ∈ visited' ∧ v ∉ visited)
    ∧ visited ⊆ visited'
    ∧ (∀ s, s ∈ stack → s ∈ visited')
    ∧ (∀ v, v ∈ order → ∃ s, s ∈ stack ∧ rtc (adjacent g) s v)
    ∧ (∀ v u, v ∈ order → adjacent g v u → u ∈ visited').
Proof.
  induction fuel as [|fuel IH]; intros stack visited cluster Hfuel; [lia |].
  destruct stack as [|c stack]; cbn [dfs].
  - exists visited, []. cbn. rewrite app_nil_r.
    split_and!; [done | apply NoDup_nil_2 | | done | | |];
      try (intros v; rewrite elem_of_nil; tauto);
      try (by intros ? ? []%elem_of_nil); try (by intros ? []%elem_of_nil).
  - destruct (decide (c ∈ visited)) as [Hc|Hc].
    + destruct (IH stack visited cluster) as (visited' & order & Hd & H1 & H2 & H3 & H4 & H5 & H6).
      { cbn in Hfuel. lia. }
      exists visited', order. split_and!; try done.
      * intros s [->|Hs]%elem_of_cons; [set_solver | by apply H4].
      * intros v Hv. destruct (H5 v Hv) as (s & Hs & Hr). exists s. split; [by right | done].
    + set (visited1 := {[c]} ∪ visited).
      set (cluster1 := match notes_data !! c with
                       | Some note => cluster ++ [note]
                       | None => cluster
                       end).
      fold (entries g c).
      destruct (push_spec visited1 (entries g c) stack) as [Hp1 Hp2].
      cbn zeta in Hp1, Hp2.
      set (stack1 := foldl _ stack (entries g c)) in *.
      destruct (IH stack1 visited1 cluster1)
        as (visited' & order & Hd & H1 & H2 & H3 & H4 & H5 & H6).
      { pose proof (weight_visit g c visited Hc). cbn in Hfuel. subst visited1. lia. }
      exists visited', (c :: order). split_and!.
      * rewrite Hd. f_equal. f_equal. subst cluster1. cbn.
        destruct (notes_data !! c); [by rewrite <-app_assoc | done].
      * apply NoDup_cons. split; [| done]. intros Hin%H2. set_solver.
      * intros v. rewrite elem_of_cons, H2. subst visited1.
        split; [intros [->|[? ?]]; set_solver |].
        intros [? ?]. destruct (decide (v = c)); [by left | right; set_solver].
      * set_solver.
      * intros s [->|Hs]%elem_of_cons; [set_solver |]. apply H4, Hp2. by left.
      * intros v [->|Hv]%elem_of_cons.
        -- exists c. split; [by left | done].
        -- destruct (H5 v Hv) as (s & [Hs|[Hs _]]%Hp2 & Hr).
           ++ exists s. split; [by right | done].
           ++ exists c. split; [by left |]. by eapply rtc_l.
      * intros v u [->|Hv]%elem_of_cons Hu; [| by eapply H6].
        destruct (decide (u ∈ visited1)) as [?|Hnu]; [set_solver |].
        apply H4, Hp2. right. done.
Qed.

(** ** Clusters are disjoint *)

Lemma member_ids_omap (notes_data : gmap Z Note.t) (order : list Z) :
  keyed_by_id notes_data →
  member_ids (omap (λ v, notes_data !! v) order)
  = filter (λ v, is_Some (notes_data !! v)) order.
Proof.
  intros Hkey. unfold member_ids.
  induction order as [|v order IH]; [done |]. rewrite filter_cons. cbn [omap list_omap].
  destruct (notes_data !! v) as [n|] eqn:Hv.
  - rewrite decide_True by (by eexists). cbn. rewrite (Hkey v n Hv). by f_equal.
  - rewrite decide_False by (by intros [x Hx]). done.
Qed.

Lemma dfs_from g (notes_data : gmap Z Note.t) (s : Z) (visited : gset Z) :
  ∃ visited' order,
    dfs (dfs_fuel g) g notes_data [s] visited []
    = Some (visited', omap (λ v, notes_data !! v) order)
    ∧ NoDup order
    ∧ (∀ v, v ∈ order ↔ v ∈ visited' ∧ v ∉ visited)
    ∧ visited ⊆ visited'
    ∧ s ∈ visited'
    ∧ (∀ v, v ∈ order → rtc (adjacent g) s v)
    ∧ (∀ v u, v ∈ order → adjacent g v u → u ∈ visited').
Proof.
  destruct (dfs_spec g notes_data (dfs_fuel g) [s] visited [])
    as (visited' & order & Hd & H1 & H2 & H3 & H4 & H5 & H6).
  { pose proof (weight_total g visited). unfold dfs_fuel. cbn. lia. }
  exists visited', order. split_and!; try done.
  - apply H4. by left.
  - intros v Hv. destruct (H5 v Hv) as (s' & ->%list_elem_of_singleton & Hr). done.
Qed.

Lemma find_clusters_from_disjoint g (notes_data : gmap Z Note.t) keys :
  keyed_by_id notes_data →
  ∀ visited clusters,
  ∃ new,
    find_clusters_from keys g notes_data visited clusters = Some (clusters ++ new)
    ∧ NoDup (clustered_ids new)
    ∧ ∀ v, v ∈ clustered_ids new → v ∉ visited.
Proof.
  intros Hkey. induction keys as [|k keys IH]; intros visited clusters;
    cbn [find_clusters_from].
  - exists []. rewrite app_nil_r. split_and!; [done | apply NoDup_nil_2 |].
    by intros v []%elem_of_nil.
  - destruct (decide (k ∈ visited)) as [Hk|Hk]; [apply IH |].
    destruct (dfs_from g notes_data k visited)
      as (visited' & order & -> & H1 & H2 & H3 & _).
    set (c := omap (λ v, notes_data !! v) order).
    assert (NoDup (member_ids c) ∧ ∀ v, v ∈ member_ids c → v ∈ order) as [Hc1 Hc2].
    { subst c. rewrite member_ids_omap by done. split.
      - by apply NoDup_filter.
      - by intros v [_ ?]%list_elem_of_filter. }
    destruct (Nat.leb 2 (length c)).
    + destruct (IH visited' (clusters ++ [c])) as (new & -> & Hn1 & Hn2).
      exists (c :: new). rewrite <-app_assoc. split_and!; [done | |].
      * unfold clustered_ids. rewrite bind_cons. apply NoDup_app.
        split_and!; [done | | done].
        intros v Hv%Hc2%H2 Hv'%Hn2. tauto.
      * unfold clustered_ids. rewrite bind_cons.
        intros v [Hv%Hc2%H2|Hv%Hn2]%elem_of_app; [tauto | set_solver].
    + destruct (IH visited' clusters) as (new & -> & Hn1 & Hn2).
      exists new. split_and!; [done | done |].
      intros v Hv%Hn2. set_solver.
Qed.

Lemma build_notes_data_keyed rows : keyed_by_id (build_notes_data rows).
Proof.
  unfold build_notes_data.
  assert (keyed_by_id (∅ : gmap Z Note.t)) as H0 by (by intros k n ?).
  revert H0. generalize (∅ : gmap Z Note.t).
  induction rows as [|[[id ttl] tgs] rows IH]; intros acc Hacc; [done |].
  cbn [foldl]. apply IH. destruct (parse_tags tgs); [done |].
  intros k n. destruct (decide (k = id)) as [->|Hne].
  - rewrite lookup_insert_eq. by intros [= <-].
  - rewrite lookup_insert_ne by done. apply Hacc.
Qed.

Lemma NoDup_bind_disjoint {A B} (f : A → list B) (l : list A) i j x y :
  NoDup (l ≫= f) → i ≠ j → l !! i = Some x → l !! j = Some y →
  ∀ v, v ∈ f x → v ∉ f y.
Proof.
  revert i j. induction l as [|a l IH]; intros i j Hnd Hij Hi Hj v Hx Hy; [done |].
  rewrite bind_cons in Hnd. apply NoDup_app in Hnd as (_ & Hd & Hnd).
  destruct i as [|i], j as [|j]; cbn in Hi, Hj; simplify_eq.
  - apply (Hd v Hx). apply list_elem_of_bind. exists y.
    split; [done |]. by eapply list_elem_of_lookup_2.
  - apply (Hd v Hy). apply list_elem_of_bind. exists x.
    split; [done |]. by eapply list_elem_of_lookup_2.
  - eapply (IH i j); eauto.
Qed.

Section Disjoint.

Context (cosine_distance : list float → list float → float).

(** C7: every run of the clustering returns clusters, and no note id occurs
    twice in them: the clusters are pairwise disjoint. *)
Theorem clusters_are_pairwise_disjoint (db : database)
    (similarity_threshold : float) :
  ∃ clusters,
    cluster_similar_notes cosine_distance db similarity_threshold = Some clusters
    ∧ NoDup (clustered_ids clusters)
    ∧ ∀ i j c1 c2, i ≠ j → clusters !! i = Some c1 → clusters !! j = Some c2 →
        ∀ v, v ∈ member_ids c1 → v ∉ member_ids c2.
Proof.
  assert (∃ clusters,
    cluster_similar_notes cosine_distance db similarity_threshold = Some clusters
    ∧ NoDup (clustered_ids clusters)) as (clusters & Hc & Hnd).
  { unfold cluster_similar_notes.
    destruct (notes_with_tags_query db) as [|row rows];
      [exists []; split; [done | apply NoDup_nil_2] |].
    destruct (size _); [exists []; split; [done | apply NoDup_nil_2] |].
    destruct (similar_pairs_query _ _ _) as [|p ps];
      [exists []; split; [done | apply NoDup_nil_2] |].
    unfold find_clusters.
    edestruct (find_clusters_from_disjoint (build_similarity_graph (p :: ps))
                (build_notes_data (row :: rows))) as (new & Hf & Hnd & _);
      [apply build_notes_data_keyed |].
    rewrite Hf. exists new. done. }
  exists clusters. split_and!; [done | done |].
  intros i j c1 c2 Hij Hi Hj. by eapply (NoDup_bind_disjoint member_ids clusters i j).
Qed.

End Disjoint.

(** ** Clusters are the connected components *)

Lemma adjacent_key g a b : adjacent g a b → a ∈ g.*1.
Proof.
  unfold adjacent, entries. intros Hb. apply dict_get_is_Some.
  destruct (dict_get a g); [by eexists | by apply elem_of_nil in Hb].
Qed.

Lemma closed_rtc g visited v u :
  closed g visited → v ∈ visited → rtc (adjacent g) v u → u ∈ visited.
Proof. intros Hcl Hv Hr. induction Hr as [|x y z Hxy _ IH]; eauto. Qed.

Lemma two_members {A} (l : list A) a b :
  a ∈ l → b ∈ l → a ≠ b → 2 ≤ length l.
Proof.
  destruct l as [|x [|y l]]; cbn; intros Ha Hb Hne; [| | lia].
  - by apply elem_of_nil in Ha.
  - apply list_elem_of_singleton in Ha, Hb. congruence.
Qed.

Section Components.

Context (g : list (Z * list (Z * float))) (notes_data : gmap Z Note.t).
Context (Hsym : ∀ a b, adjacent g a b → adjacent g b a).
Context (Hnb : ∀ k, k ∈ g.*1 → ∃ u, adjacent g k u ∧ u ≠ k).
Context (Hcov : ∀ k, k ∈ g.*1 →
                ∃ n, notes_data !! k = Some n ∧ Note.note_id n = k).

Lemma rtc_adjacent_sym a b : rtc (adjacent g) a b → rtc (adjacent g) b a.
Proof.
  intros Hr. induction Hr as [|x y z Hxy _ IH]; [done |].
  eapply rtc_r; [exact IH | by apply Hsym].
Qed.

Lemma rtc_adjacent_key s v : s ∈ g.*1 → rtc (adjacent g) s v → v ∈ g.*1.
Proof.
  intros Hs Hr. induction Hr as [|x y z Hxy _ IH]; [done |].
  apply IH. eapply adjacent_key. by apply Hsym.
Qed.

Lemma member_ids_covered (order : list Z) :
  (∀ v, v ∈ order → v ∈ g.*1) →
  member_ids (omap (λ v, notes_data !! v) order) = order.
Proof.
  unfold member_ids. induction order as [|v order IH]; intros Hk; [done |].
  destruct (Hcov v) as (n & Hn & Hid); [apply Hk; left |].
  cbn [omap list_omap]. rewrite Hn. cbn. rewrite Hid. f_equal.
  apply IH. intros u Hu. apply Hk. by right.
Qed.

(** One search from a fresh key visits exactly what is connected to it. *)
Lemma dfs_component (s : Z) (visited : gset Z) :
  closed g visited → s ∉ visited → s ∈ g.*1 →
  ∃ visited' cluster,
    dfs (dfs_fuel g) g notes_data [s] visited [] = Some (visited', cluster)
    ∧ 2 ≤ length cluster
    ∧ (∀ v, v ∈ member_ids cluster ↔ rtc (adjacent g) s v)
    ∧ closed g visited'
    ∧ (∀ v, v ∈ visited' ↔ v ∈ visited ∨ rtc (adjacent g) s v).
Proof.
  intros Hcl Hs Hkey.
  destruct (dfs_from g notes_data s visited)
    as (visited' & order & Hd & H1 & H2 & H3 & H4 & H5 & H6).
  assert (closed g visited') as Hcl'.
  { intros v u Hv Hu. destruct (decide (v ∈ visited)) as [Hin|Hnin].
    - apply H3. by eapply Hcl.
    - eapply H6; [| done]. by apply H2. }
  assert (∀ v, v ∈ order ↔ rtc (adjacent g) s v) as Horder.
  { intros v. split; [apply H5 |]. intros Hr. apply H2. split.
    - by eapply closed_rtc.
    - intros Hv. apply Hs. eapply closed_rtc; [done | exact Hv |].
      by apply rtc_adjacent_sym. }
  assert (member_ids (omap (λ v, notes_data !! v) order) = order) as Hids.
  { apply member_ids_covered. intros v Hv%Horder. by eapply rtc_adjacent_key. }
  exists visited', (omap (λ v, notes_data !! v) order). split_and!; [done | | | done |].
  - destruct (Hnb s Hkey) as (u & Hu & Hne).
    rewrite <-(length_fmap Note.note_id). fold (member_ids (omap (λ v, notes_data !! v) order)).
    rewrite Hids. apply (two_members order s u); [| | done].
    + by apply Horder.
    + apply Horder. by apply rtc_once.
  - intros v. by rewrite Hids.
  - intros v. rewrite <-Horder, H2.
    destruct (decide (v ∈ visited)); set_solver.
Qed.

Lemma find_clusters_from_components keys :
  (∀ k, k ∈ keys → k ∈ g.*1) →
  ∀ visited clusters, closed g visited →
  ∃ new,
    find_clusters_from keys g notes_data visited clusters = Some (clusters ++ new)
    ∧ (∀ c, c ∈ new →
         ∃ s, s ∈ keys ∧ ∀ v, v ∈ member_ids c ↔ rtc (adjacent g) s v)
    ∧ (∀ k, k ∈ keys → k ∉ visited → ∃ c, c ∈ new ∧ k ∈ member_ids c).
Proof.
  induction keys as [|k keys IH]; intros Hkeys visited clusters Hcl;
    cbn [find_clusters_from].
  - exists []. rewrite app_nil_r. split_and!; [done | |].
    + by intros c []%elem_of_nil.
    + by intros k []%elem_of_nil.
  - assert (∀ k', k' ∈ keys → k' ∈ g.*1) as Hkeys'
      by (intros k' Hk'; apply Hkeys; by right).
    destruct (decide (k ∈ visited)) as [Hk|Hk].
    + destruct (IH Hkeys' visited clusters Hcl) as (new & -> & Hn1 & Hn2).
      exists new. split_and!; [done | |].
      * intros c Hc. destruct (Hn1 c Hc) as (s & Hs & Hv). exists s.
        split; [by right | done].
      * intros k' [->|Hk']%elem_of_cons Hnv; [done | by apply Hn2].
    + destruct (dfs_component k visited Hcl Hk)
        as (visited' & cluster & -> & Hlen & Hmem & Hcl' & Hvis);
        [apply Hkeys; left |].
      destruct (Nat.leb_spec 2 (length cluster)) as [_|?]; [| lia].
      destruct (IH Hkeys' visited' (clusters ++ [cluster]) Hcl')
        as (new & -> & Hn1 & Hn2).
      exists (cluster :: new). rewrite <-app_assoc. split_and!; [done | |].
      * intros c [->|Hc]%elem_of_cons.
        -- exists k. split; [by left | done].
        -- destruct (Hn1 c Hc) as (s & Hs & Hv). exists s. split; [by right | done].
      * intros k' Hin Hnv. destruct (decide (k' ∈ visited')) as [Hv'|Hnv'].
        -- exists cluster. split; [by left |]. apply Hmem.
           apply Hvis in Hv' as [?|?]; done.
        -- apply elem_of_cons in Hin as [->|Hin].
           ++ exfalso. apply Hnv', Hvis. by right.
           ++ destruct (Hn2 k' Hin Hnv') as (c & Hc & Hkc). exists c.
              split; [by right | done].
Qed.

Lemma find_clusters_components :
  ∃ clusters,
    find_clusters g notes_data = Some clusters
    ∧ (∀ c, c ∈ clusters →
         ∃ s, ∀ v, v ∈ member_ids c ↔ rtc (adjacent g) s v)
    ∧ ∀ a b, same_cluster clusters a b ↔ tc (adjacent g) a b.
Proof.
  destruct (find_clusters_from_components g.*1 (λ k Hk, Hk) ∅ [])
    as (clusters & Hf & H1 & H2); [by intros v u Hv |].
  exists clusters. split; [done |]. split.
  { intros c Hc. destruct (H1 c Hc) as (s & _ & Hs). by exists s. }
  intros a b. split.
  - intros (c & Hc & Ha & Hb). destruct (H1 c Hc) as (s & Hs & Hmem).
    apply Hmem in Ha, Hb.
    assert (rtc (adjacent g) a b) as Hab
      by (etrans; [by apply rtc_adjacent_sym | done]).
    destruct (Hnb a) as (u & Hu & _); [by eapply rtc_adjacent_key |].
    apply rtc_tc in Hab as [<-|Hab]; [| done].
    eapply tc_l; [exact Hu |]. apply tc_once. by apply Hsym.
  - intros Hab.
    assert (a ∈ g.*1) as Ha.
    { destruct Hab as [x y Hxy|x y z Hxy _]; by eapply adjacent_key. }
    destruct (H2 a Ha) as (c & Hc & Hac); [set_solver |].
    exists c. split_and!; [done | done |].
    destruct (H1 c Hc) as (s & Hs & Hmem). apply Hmem.
    etrans; [by apply Hmem | by apply tc_rtc].
Qed.

End Components.

(** The clusters of a list of pairs: each is all that some note reaches
    along the edges. *)
Lemma clusters_of_pairs (similar_pairs : list (Z * Z * float))
    (notes_data : gmap Z Note.t) :
  (∀ a b d, (a, b, d) ∈ similar_pairs → a ≠ b) →
  (∀ a b, edge similar_pairs a b →
          ∃ n, notes_data !! a = Some n ∧ Note.note_id n = a) →
  ∃ clusters,
    find_clusters (build_similarity_graph similar_pairs) notes_data = Some clusters
    ∧ (∀ c, c ∈ clusters →
         ∃ s, ∀ v, v ∈ member_ids c ↔ rtc (edge similar_pairs) s v)
    ∧ (∀ a b, same_cluster clusters a b ↔ tc (edge similar_pairs) a b).
Proof.
  intros Hloop Hcov.
  set (g := build_similarity_graph similar_pairs).
  assert (∀ a b, edge similar_pairs a b → edge similar_pairs b a) as Hsym.
  { intros a b [d Hd]. exists d. tauto. }
  destruct (find_clusters_components g notes_data) as (clusters & Hf & Hcomp & Hsame).
  - intros a b. subst g. rewrite !build_similarity_graph_adjacent. apply Hsym.
  - intros k [b Hb]%build_similarity_graph_keys. exists b. split.
    + by apply build_similarity_graph_adjacent.
    + destruct Hb as [d [Hd|Hd]]; apply Hloop in Hd; congruence.
  - intros k [b Hb]%build_similarity_graph_keys. by eapply Hcov.
  - assert (∀ a b, tc (adjacent g) a b ↔ tc (edge similar_pairs) a b) as Htc.
    { intros a b. split; intros H; induction H as [x y Hxy|x y z Hxy _ IH].
      - apply tc_once. by apply build_similarity_graph_adjacent.
      - eapply tc_l; [| exact IH]. by apply build_similarity_graph_adjacent.
      - apply tc_once. by apply build_similarity_graph_adjacent.
      - eapply tc_l; [| exact IH]. by apply build_similarity_graph_adjacent. }
    assert (∀ a b, rtc (adjacent g) a b ↔ rtc (edge similar_pairs) a b) as Hrtc.
    { intros a b. rewrite !rtc_tc. by rewrite Htc. }
    exists clusters. split_and!; [done | |].
    + intros c Hc. destruct (Hcomp c Hc) as [s Hs]. exists s.
      intros v. by rewrite Hs, Hrtc.
    + intros a b. by rewrite Hsame, Htc.
Qed.

(** C3: when no pair relates a note to itself and [notes_data] holds every
    endpoint of an edge under its id (every note on an edge has a tag string
    that is not empty), the clustering step ends, two notes are in one cluster exactly
    when a path of similarity edges connects them, and three notes chained
    by two edges share a cluster whether or not the outer two are similar. *)
Theorem chained_notes_share_a_cluster (similar_pairs : list (Z * Z * float))
    (notes_data : gmap Z Note.t) :
  (∀ a b d, (a, b, d) ∈ similar_pairs → a ≠ b) →
  (∀ a b, edge similar_pairs a b →
          ∃ n, notes_data !! a = Some n ∧ Note.note_id n = a) →
  ∃ clusters,
    find_clusters (build_similarity_graph similar_pairs) notes_data = Some clusters
    ∧ (∀ a b, same_cluster clusters a b ↔ tc (edge similar_pairs) a b)
    ∧ (∀ a b c, edge similar_pairs a b → edge similar_pairs b c →
         ∃ cluster, cluster ∈ clusters
           ∧ a ∈ member_ids cluster ∧ b ∈ member_ids cluster
           ∧ c ∈ member_ids cluster).
Proof.
  intros Hloop Hcov.
  destruct (clusters_of_pairs similar_pairs notes_data Hloop Hcov)
    as (clusters & Hf & Hcomp & Hsame).
  exists clusters. split_and!; [done | done |].
  intros a b c Hab Hbc.
  assert (same_cluster clusters a b) as (cl & Hcl & Ha & Hb)
    by (by apply Hsame, tc_once).
  exists cl. split_and!; try done.
  destruct (Hcomp cl Hcl) as [s Hs]. apply Hs.
  eapply rtc_r; [by apply Hs | done].
Qed.

(** Notes 1 and 3 are not similar to each other; note 2 bridges them. *)
Lemma chained_notes_share_a_cluster_witness :
  ∃ clusters,
    find_clusters (build_similarity_graph chain_pairs)
      (build_notes_data (notes_with_tags_query sample_db)) = Some clusters
    ∧ (∀ a b, same_cluster clusters a b ↔ tc (edge chain_pairs) a b)
    ∧ (∀ a b c, edge chain_pairs a b → edge chain_pairs b c →
         ∃ cluster, cluster ∈ clusters
           ∧ a ∈ member_ids cluster ∧ b ∈ member_ids cluster
           ∧ c ∈ member_ids cluster).
Proof.
  apply (chained_notes_share_a_cluster chain_pairs
           (build_notes_data (notes_with_tags_query sample_db))).
  - intros a b d Hin. unfold chain_pairs in Hin.
    repeat (apply elem_of_cons in Hin as [[= -> -> ->]|Hin]); try done.
    by apply elem_of_nil in Hin.
  - intros a b [d Hd]. unfold chain_pairs in Hd.
    destruct Hd as [Hin|Hin];
      repeat (apply elem_of_cons in Hin as [[= -> -> ->]|Hin]);
      try (by apply elem_of_nil in Hin);
      eexists; split; vm_compute; reflexivity.
Defined.

(** C3 as stated fails for a note on an edge that [notes_data] does not
    hold.  The only tag of note 2 has the empty name, so its tag string is
    empty and it gets no entry, while its link makes it a tagged note for
    the pair query: the search walks through it from note 1 to note 3 and
    lists only those two, so note 2 is in no cluster although it is chained
    to both. *)
Lemma bridging_note_without_tag_names_is_in_no_cluster :
  let similar_pairs :=
    similar_pairs_query line_distance (distance_threshold 0.875) bridge_db in
  edge similar_pairs 1 2
  ∧ edge similar_pairs 2 3
  ∧ ¬ edge similar_pairs 1 3
  ∧ ∃ clusters,
      cluster_similar_notes line_distance bridge_db 0.875 = Some clusters
      ∧ member_ids <$> clusters = [[1; 3]%Z]
      ∧ ¬ same_cluster clusters 1 2.
Proof.
  assert (similar_pairs_query line_distance (distance_threshold 0.875) bridge_db
          = [(1%Z, 2%Z, 0.125%float); (2%Z, 3%Z, 0.125%float)]) as ->
    by (vm_compute; reflexivity).
  cbn zeta. split_and!.
  - exists 0.125%float. left. left.
  - exists 0.125%float. left. right. left.
  - intros [d [Hd|Hd]];
      repeat (apply elem_of_cons in Hd as [[= ]|Hd]); by apply elem_of_nil in Hd.
  - eexists. split; [vm_compute; reflexivity |]. split; [reflexivity |].
    intros (c & ->%list_elem_of_singleton & _ & H2). cbn in H2.
    repeat (apply elem_of_cons in H2 as [[= ]|H2]). by apply elem_of_nil in H2.
Qed.

(** ** The whole pipeline *)

Lemma join_nonempty sep x rest : x ≠ EmptyString → join sep (x :: rest) ≠ EmptyString.
Proof.
  intros Hx. destruct x as [|c x]; [done |]. cbn. by destruct rest.
Qed.

Lemma split_nonempty sep s : split sep s ≠ [].
Proof.
  induction s as [|c s IH]; cbn; [done |].
  case_decide; [done |]. by destruct (split sep s).
Qed.

Lemma parse_tags_nonempty s : s ≠ EmptyString → parse_tags (Some s) ≠ [].
Proof.
  intros Hs. unfold parse_tags. destruct s as [|c s]; [done |]. cbn [truthy_str].
  pose proof (split_nonempty ","%char (String c s)) as H.
  by destruct (split _ _).
Qed.

Lemma string_agg_tags_nonempty db id :
  links_resolve db → tagged db id →
  ∃ s, string_agg_tags db id = Some s ∧ s ≠ EmptyString.
Proof.
  intros [Hfk Hnm] [tid Hlink].
  rewrite Forall_forall in Hfk. rewrite Forall_forall in Hnm.
  pose proof (Hfk _ Hlink) as ([tid' nm] & Htid & Htag)%list_elem_of_fmap.
  cbn in Htid. subst tid'.
  assert ((tid, nm) ∈ select_note_tags id db) as Hrow
    by (by apply elem_of_select_note_tags).
  assert (∀ x, x ∈ (select_note_tags id db).*2 → x ≠ EmptyString) as Hall.
  { intros x ([t x'] & -> & [_ Ht]%elem_of_select_note_tags)%list_elem_of_fmap.
    apply (Hnm _ Ht). }
  unfold string_agg_tags.
  destruct (select_note_tags id db).*2 as [|x rest] eqn:Hn.
  - apply (list_elem_of_fmap_2 snd) in Hrow. rewrite Hn in Hrow.
    by apply elem_of_nil in Hrow.
  - eexists. split; [done |]. apply join_nonempty, Hall. left.
Qed.

Lemma build_notes_data_covers rows id :
  (∃ ttl s, (id, ttl, Some s) ∈ rows ∧ s ≠ EmptyString) →
  is_Some (build_notes_data rows !! id).
Proof.
  unfold build_notes_data.
  assert (∀ acc : gmap Z Note.t,
    is_Some (acc !! id) ∨ (∃ ttl s, (id, ttl, Some s) ∈ rows ∧ s ≠ EmptyString) →
    is_Some (foldl (λ notes_data '(note_id, title, tags),
                      match parse_tags tags with
                      | [] => notes_data
                      | tags_list =>
                          <[note_id := {| Note.note_id := note_id; Note.title := title;
                                          Note.tags := tags_list |}]> notes_data
                      end) acc rows !! id)) as H.
  { induction rows as [|[[id' ttl'] tgs] rows IH]; intros acc Hacc; cbn [foldl].
    - destruct Hacc as [?|(? & ? & []%elem_of_nil & _)]. done.
    - apply IH. destruct Hacc as [Hacc|(ttl & s & [[= <- <- <-]|Hin]%elem_of_cons & Hs)].
      + left. destruct (parse_tags tgs); [done |].
        destruct (decide (id = id')) as [->|Hne].
        * rewrite lookup_insert_eq. by eexists.
        * by rewrite lookup_insert_ne.
      + left. pose proof (parse_tags_nonempty s Hs).
        destruct (parse_tags (Some s)); [done |].
        rewrite lookup_insert_eq. by eexists.
      + right. by exists ttl, s. }
  intros Hex. apply H. by right.
Qed.

Section Pipeline.

Context (cosine_distance : list float → list float → float).

(** X2: on a store whose links resolve, [cluster_similar_notes] returns,
    and its clusters are the connected components of the similar pairs it
    reads: two notes share a cluster exactly when a path of pairs connects
    them. *)
Theorem pipeline_clusters_are_components (db : database)
    (similarity_threshold : float) :
  links_resolve db →
  ∃ clusters,
    cluster_similar_notes cosine_distance db similarity_threshold = Some clusters
    ∧ ∀ a b,
        same_cluster clusters a b ↔
        tc (edge (similar_pairs_query cosine_distance
                    (distance_threshold similarity_threshold) db)) a b.
Proof.
  intros Hres.
  set (pairs := similar_pairs_query cosine_distance
                  (distance_threshold similarity_threshold) db).
  assert (∀ a b, edge pairs a b →
            ∃ n, build_notes_data (notes_with_tags_query db) !! a = Some n
                 ∧ Note.note_id n = a) as Hcov.
  { assert (∀ a, (∃ n1, n1 ∈ notes db ∧ n_note_id n1 = a) → tagged db a →
              ∃ n, build_notes_data (notes_with_tags_query db) !! a = Some n
                   ∧ Note.note_id n = a) as Hnote.
    { intros a (n1 & Hn1 & <-) Htag.
      destruct (string_agg_tags_nonempty db _ Hres Htag) as (s & Hs & Hne).
      destruct (build_notes_data_covers (notes_with_tags_query db) (n_note_id n1))
        as [n Hn].
      - exists (n_title n1), s. split; [| done]. unfold notes_with_tags_query.
        apply list_elem_of_fmap. exists n1. rewrite Hs. split; [done |].
        apply list_elem_of_filter. split; [| done].
        apply Is_true_true. by apply has_tag_link_tagged.
      - exists n. split; [done |]. by eapply build_notes_data_keyed. }
    intros a b [d [Hd|Hd]];
      apply elem_of_similar_pairs in Hd
        as (n1 & n2 & Hn1 & Hn2 & <- & <- & _ & Ht1 & Ht2 & _);
      apply Hnote; eauto. }
  assert (∀ a b d, (a, b, d) ∈ pairs → a ≠ b) as Hloop.
  { intros a b d (_ & _ & _ & _ & _ & _ & Hlt & _)%elem_of_similar_pairs. lia. }
  assert (pairs = [] → ∀ a b, ¬ tc (edge pairs) a b) as Hnone.
  { intros -> a b Htc.
    destruct Htc as [x y [d [[]%elem_of_nil|[]%elem_of_nil]]
                    |x y z [d [[]%elem_of_nil|[]%elem_of_nil]] _]. }
  assert (∀ a b, ¬ same_cluster [] a b) as Hempty
    by (by intros a b (c & []%elem_of_nil & _)).
  assert (∀ p, p ∈ pairs → notes_with_tags_query db ≠ []
                          ∧ size (build_notes_data (notes_with_tags_query db)) ≠ 0)
    as Hrows.
  { intros [[a b] d] Hp.
    destruct (Hcov a b) as (n & Hn & _); [exists d; by left |].
    split.
    - intros Hnil. rewrite Hnil in Hn. cbn in Hn. by rewrite lookup_empty in Hn.
    - intros Hsz%map_size_empty_iff. rewrite Hsz in Hn. by rewrite lookup_empty in Hn. }
  unfold cluster_similar_notes. fold pairs.
  destruct pairs as [|p ps] eqn:Hp.
  - exists []. split.
    + by repeat case_match.
    + intros a b. split; [by intros ?%Hempty | by intros ?%Hnone].
  - destruct (Hrows p) as [Hr Hs]; [left |].
    destruct (notes_with_tags_query db) as [|row rows] eqn:Hq; [done |].
    destruct (size _) as [|sz] eqn:Hsz; [done |].
    destruct (clusters_of_pairs (p :: ps)
                (build_notes_data (row :: rows)) Hloop Hcov)
      as (clusters & Hf & _ & Hsame).
    exists clusters. done.
Qed.

End Pipeline.

Lemma pipeline_clusters_are_components_witness :
  ∃ clusters,
    cluster_similar_notes line_distance sample_db 0.875 = Some clusters
    ∧ ∀ a b,
        same_cluster clusters a b ↔
        tc (edge (similar_pairs_query line_distance
                    (distance_threshold 0.875) sample_db)) a b.
Proof.
  apply (pipeline_clusters_are_components line_distance sample_db 0.875).
  split; apply (bool_decide_unpack _); vm_compute; exact I.
Defined.

(** On the sample store notes 1, 2 and 3 are chained into one cluster
    although notes 1 and 3 are too far apart, notes 4 and 5 form another,
    and the only suggestion is for the first one, with [py] and [python]
    counted twice each (the spec's scenarios A and B). *)
Lemma sample_run :
  ∃ clusters : list (list Note.t),
    distance_threshold 0.875 = 0.125%float
    ∧ similar_pairs_query line_distance (distance_threshold 0.875) sample_db
      = [(1%Z, 2%Z, 0.125%float); (2%Z, 3%Z, 0.125%float);
         (4%Z, 5%Z, 0.0625%float)]
    ∧ cluster_similar_notes line_distance sample_db 0.875 = Some clusters
    ∧ member_ids <$> clusters = [[1; 2; 3]%Z; [4; 5]%Z]
    ∧ Suggestion.tags <$> find_tag_normalization_suggestions clusters
      = [[("py", 2); ("python", 2)]].
Proof. eexists. split_and!; vm_compute; reflexivity. Qed.

(** * Further properties

    ** What a normalization leaves stored *)

Lemma select_tag_id_none nm db :
  select_tag_id nm db = None → nm ∉ t_name <$> tags db.
Proof.
  unfold select_tag_id. intros H (t & -> & Ht)%list_elem_of_fmap.
  destruct (filter (λ t0, t_name t0 = t_name t) (tags db)) as [|x l] eqn:E; [| done].
  assert (t ∈ filter (λ t0, t_name t0 = t_name t) (tags db)) as Hin
    by (by apply list_elem_of_filter).
  rewrite E in Hin. by apply elem_of_nil in Hin.
Qed.

Lemma ensure_tag_cases nm db :
  (ensure_tag nm db).2 = db
  ∨ (nm ∉ t_name <$> tags db)
    ∧ (ensure_tag nm db)
      = (tag_id_seq db,
         set_tags db (tags db ++ [{| t_tag_id := tag_id_seq db; t_name := nm |}])
           (tag_id_seq db + 1)%Z).
Proof.
  unfold ensure_tag. destruct (select_tag_id nm db) eqn:E; [by left |].
  right. split; [by apply select_tag_id_none | done].
Qed.

Lemma ensure_tag_schema nm db :
  schema_ok db → schema_ok (ensure_tag nm db).2.
Proof.
  intros Hok. destruct (ensure_tag_cases nm db) as [-> | [Hnew ->]]; [done |].
  destruct Hok as (Hn & Hns & Ht & Hts & Hnm & Hl & Hfk).
  unfold schema_ok. cbn. rewrite !fmap_app. cbn. split_and!; try done.
  - apply NoDup_app. split_and!; [done | | apply NoDup_singleton].
    intros x (t & -> & Hin)%list_elem_of_fmap Heq%list_elem_of_singleton.
    rewrite Forall_forall in Hts. specialize (Hts _ Hin). lia.
  - apply Forall_app. split.
    + eapply Forall_impl; [exact Hts |]. cbn. intros; lia.
    + apply Forall_singleton. cbn. lia.
  - apply NoDup_app. split_and!; [done | | apply NoDup_singleton].
    by intros x Hx ->%list_elem_of_singleton.
  - eapply Forall_impl; [exact Hfk |]. cbn. intros nt [? ?]. split; [done |].
    apply elem_of_app. by left.
Qed.

Lemma filter_all {A} (P : A → Prop) `{!∀ x, Decision (P x)} (l : list A) :
  Forall P l → filter P l = l.
Proof.
  induction 1 as [|x l Hx _ IH]; [done |].
  rewrite filter_cons, decide_True by done. by rewrite IH.
Qed.

Lemma filter_on {A} (P Q : A → Prop) `{!∀ x, Decision (P x)}
    `{!∀ x, Decision (Q x)} (l : list A) :
  (∀ x, x ∈ l → (P x ↔ Q x)) → filter P l = filter Q l.
Proof.
  induction l as [|x l IH]; intros Hl; [done |].
  rewrite !filter_cons. rewrite IH by (intros y Hy; apply Hl; by right).
  assert (P x ↔ Q x) as Hx by (apply Hl; by left).
  destruct (decide (P x)) as [Hp|Hp], (decide (Q x)) as [Hq|Hq]; tauto.
Qed.

Lemma delete_loop_links id (l : list Z) db :
  note_tags (foldl (λ d tag_id, delete_note_tag id tag_id d) db l)
  = filter (λ nt, ¬ (nt_note_id nt = id ∧ nt_tag_id nt ∈ l)) (note_tags db).
Proof.
  revert db. induction l as [|t l IH]; intros db; cbn [foldl].
  - symmetry. apply filter_all, Forall_forall. intros nt _ [_ H].
    by apply elem_of_nil in H.
  - rewrite IH. cbn. rewrite list_filter_filter. apply list_filter_iff.
    intros nt. rewrite elem_of_cons. tauto.
Qed.

Lemma database_eq db db' :
  notes db = notes db' → tags db = tags db' → note_tags db = note_tags db' →
  note_id_seq db = note_id_seq db' → tag_id_seq db = tag_id_seq db' →
  clock db = clock db' → db = db'.
Proof. destruct db, db'; cbn; congruence. Qed.

Lemma delete_loop_rest id (l : list Z) db :
  note_id_seq (foldl (λ d tag_id, delete_note_tag id tag_id d) db l) = note_id_seq db
  ∧ clock (foldl (λ d tag_id, delete_note_tag id tag_id d) db l) = clock db.
Proof.
  revert db. induction l as [|t l IH]; intros db; [done |].
  cbn [foldl]. by destruct (IH (delete_note_tag id t db)) as [-> ->].
Qed.

Lemma note_effect_cases keep_tag replace_tag_list primary_tag_id id db :
  let rm := tags_to_remove_of replace_tag_list id db in
  let kept := filter (λ nt, ¬ (nt_note_id nt = id ∧ nt_tag_id nt ∈ rm)) (note_tags db) in
  note_effect keep_tag replace_tag_list primary_tag_id id db
  = if select_note_exists id db then
      set_note_tags db
        (if bool_decide (keep_tag ∈ tag_names_of db id) then kept
         else kept ++ [{| nt_note_id := id; nt_tag_id := primary_tag_id |}])
    else db.
Proof.
  intros rm kept. unfold note_effect.
  destruct (select_note_exists id db); [| done].
  fold rm. pose proof (delete_loop_links id rm db) as Hl. fold kept in Hl.
  destruct (delete_loop_tables id rm db) as (Hn & Ht & Hs & _).
  destruct (delete_loop_rest id rm db) as [Hq Hc].
  set (db1 := foldl (λ d tag_id, delete_note_tag id tag_id d) db rm) in *.
  assert (db1 = set_note_tags db kept) as -> by (by apply database_eq).
  by destruct (bool_decide _).
Qed.

Lemma note_effect_schema keep_tag replace_tag_list primary_tag_id id db :
  schema_ok db →
  {| t_tag_id := primary_tag_id; t_name := keep_tag |} ∈ tags db →
  schema_ok (note_effect keep_tag replace_tag_list primary_tag_id id db).
Proof.
  intros Hok Hprimary. rewrite note_effect_cases. cbn zeta.
  destruct (select_note_exists id db) eqn:Hex; [| done].
  destruct Hok as (Hn & Hns & Ht & Hts & Hnm & Hl & Hfk).
  set (kept := filter _ (note_tags db)).
  assert (NoDup kept) as Hkept by (by apply NoDup_filter).
  assert (Forall (λ nt, nt_note_id nt ∈ n_note_id <$> notes db
                        ∧ nt_tag_id nt ∈ t_tag_id <$> tags db) kept) as Hkfk.
  { apply Forall_forall. intros nt [_ Hin]%list_elem_of_filter.
    rewrite Forall_forall in Hfk. by apply Hfk. }
  unfold schema_ok. cbn. split_and!; try done.
  - destruct (bool_decide_reflect (keep_tag ∈ tag_names_of db id)) as [Hhas|Hhas];
      [done |].
    apply NoDup_app. split_and!; [done | | apply NoDup_singleton].
    intros nt [_ Hin]%list_elem_of_filter Heq%list_elem_of_singleton. subst nt.
    apply Hhas, elem_of_tag_names_of. exists primary_tag_id.
    by apply elem_of_select_note_tags.
  - destruct (bool_decide (keep_tag ∈ tag_names_of db id)); [done |].
    apply Forall_app. split; [done |]. apply Forall_singleton. cbn. split.
    + unfold select_note_exists in Hex. by apply bool_decide_eq_true in Hex.
    + apply list_elem_of_fmap.
      by exists {| t_tag_id := primary_tag_id; t_name := keep_tag |}.
Qed.

Lemma note_effects_schema keep_tag replace_tag_list primary_tag_id (ids : list Z) db :
  schema_ok db →
  {| t_tag_id := primary_tag_id; t_name := keep_tag |} ∈ tags db →
  schema_ok (foldl (λ d id, note_effect keep_tag replace_tag_list primary_tag_id id d)
               db ids).
Proof.
  revert db. induction ids as [|id ids IH]; intros db Hok Hp; [done |].
  cbn [foldl]. apply IH.
  - by apply note_effect_schema.
  - destruct (note_effect_tables keep_tag replace_tag_list primary_tag_id id db)
      as (_ & -> & _). done.
Qed.

Lemma schema_consistent db : schema_ok db → db_consistent db.
Proof. intros (_ & _ & ? & ? & _). by split. Qed.

Lemma normalized_schema ids keep_tag replace_tag_list db :
  schema_ok db → schema_ok (normalized ids keep_tag replace_tag_list db).1.1.
Proof.
  intros Hok. unfold normalized.
  pose proof (ensure_tag_schema keep_tag db Hok) as Hok1.
  destruct (ensure_tag_consistent keep_tag db (schema_consistent db Hok)) as [_ Hp].
  destruct (ensure_tag keep_tag db) as [pid db1]. cbn [fst snd] in *.
  rewrite notes_effect_db. by apply note_effects_schema.
Qed.

Lemma note_effects_tables keep_tag replace_tag_list primary_tag_id (ids : list Z) db :
  notes (foldl (λ d id, note_effect keep_tag replace_tag_list primary_tag_id id d) db ids)
    = notes db
  ∧ tags (foldl (λ d id, note_effect keep_tag replace_tag_list primary_tag_id id d) db ids)
    = tags db.
Proof.
  revert db. induction ids as [|id ids IH]; intros db; [done |].
  cbn [foldl].
  destruct (IH (note_effect keep_tag replace_tag_list primary_tag_id id db)) as [-> ->].
  by destruct (note_effect_tables keep_tag replace_tag_list primary_tag_id id db)
    as (-> & -> & _).
Qed.

Lemma normalized_tables ids keep_tag replace_tag_list db :
  notes (normalized ids keep_tag replace_tag_list db).1.1 = notes db
  ∧ (tags (normalized ids keep_tag replace_tag_list db).1.1 = tags db
     ∨ (keep_tag ∉ t_name <$> tags db)
       ∧ tags (normalized ids keep_tag replace_tag_list db).1.1
         = tags db ++ [{| t_tag_id := tag_id_seq db; t_name := keep_tag |}]).
Proof.
  unfold normalized.
  pose proof (ensure_tag_cases keep_tag db) as Hc.
  pose proof (ensure_tag_notes keep_tag db) as Hn.
  destruct (ensure_tag keep_tag db) as [pid db1]. cbn [fst snd] in *.
  rewrite notes_effect_db.
  destruct (note_effects_tables keep_tag replace_tag_list pid ids db1) as [-> ->].
  split; [done |].
  destruct Hc as [-> | [Hnew [= -> ->]]]; [by left | by right].
Qed.

Lemma note_effect_keeps_names keep_tag replace_tag_list primary_tag_id id db id' nm :
  NoDup (t_tag_id <$> tags db) →
  {| t_tag_id := primary_tag_id; t_name := keep_tag |} ∈ tags db →
  nm ≠ keep_tag → nm ∉ replace_tag_list →
  (nm ∈ tag_names_of (note_effect keep_tag replace_tag_list primary_tag_id id db) id'
   ↔ nm ∈ tag_names_of db id').
Proof.
  intros Hkey Hp Hnk Hnr.
  destruct (decide (id' = id)) as [->|Hne]; [| by apply note_effect_other_names].
  destruct (select_note_exists id db) eqn:Hex;
    [| unfold note_effect; by rewrite Hex].
  rewrite !elem_of_tag_names_of.
  destruct (note_effect_tables keep_tag replace_tag_list primary_tag_id id db)
    as (_ & Ht & _).
  split; intros [tid [Hl Hrow]%elem_of_select_note_tags]; exists tid;
    apply elem_of_select_note_tags.
  - rewrite Ht in Hrow. split; [| done].
    apply note_effect_links in Hl as [[Hl _]|[_ Heq]]; [done | | done].
    injection Heq as ->. destruct Hnk. by apply (tag_id_is_key (tags db) primary_tag_id).
  - rewrite Ht. split; [| done].
    apply note_effect_links; [done |]. left. split; [done |].
    intros [_ (nm' & [_ Hrow']%elem_of_select_note_tags & Hin')%elem_of_tags_to_remove].
    cbn in Hrow', Hin'.
    by rewrite (tag_id_is_key (tags db) tid nm nm') in Hnr.
Qed.

Lemma note_effects_keep_names keep_tag replace_tag_list primary_tag_id (ids : list Z)
    db id' nm :
  NoDup (t_tag_id <$> tags db) →
  {| t_tag_id := primary_tag_id; t_name := keep_tag |} ∈ tags db →
  nm ≠ keep_tag → nm ∉ replace_tag_list →
  (nm ∈ tag_names_of
          (foldl (λ d id, note_effect keep_tag replace_tag_list primary_tag_id id d)
             db ids) id'
   ↔ nm ∈ tag_names_of db id').
Proof.
  intros Hkey Hp Hnk Hnr. revert db Hkey Hp.
  induction ids as [|id ids IH]; intros db Hkey Hp; [done |].
  cbn [foldl].
  destruct (note_effect_tables keep_tag replace_tag_list primary_tag_id id db)
    as (_ & Ht & _).
  rewrite IH by (by rewrite Ht). by apply note_effect_keeps_names.
Qed.

Lemma ensure_tag_keeps_names tag_name db id nm :
  nm ≠ tag_name →
  (nm ∈ tag_names_of (ensure_tag tag_name db).2 id ↔ nm ∈ tag_names_of db id).
Proof.
  intros Hne. destruct (ensure_tag_cases tag_name db) as [-> | [_ ->]]; [done |].
  rewrite !elem_of_tag_names_of. cbn [snd].
  split; intros [tid [Hl Hrow]%elem_of_select_note_tags]; exists tid;
    apply elem_of_select_note_tags; cbn in *; (split; [done |]).
  - apply elem_of_app in Hrow as [Hrow|Heq%list_elem_of_singleton]; [done |].
    injection Heq as _ Heq. by destruct Hne.
  - apply elem_of_app. by left.
Qed.

Lemma join_fresh_tag (links : list note_tag_row) (ts : list tag_row)
    (new : tag_row) (id : Z) :
  Forall (λ nt, nt_tag_id nt ≠ t_tag_id new) links →
  (nt ← filter (λ nt, nt_note_id nt = id) links;
   t ← filter (λ t, t_tag_id t = nt_tag_id nt) (ts ++ [new]);
   [(t_tag_id t, t_name t)])
  = (nt ← filter (λ nt, nt_note_id nt = id) links;
     t ← filter (λ t, t_tag_id t = nt_tag_id nt) ts;
     [(t_tag_id t, t_name t)]).
Proof.
  induction 1 as [|nt l Hnt _ IH]; [done |].
  rewrite !filter_cons. destruct (decide (nt_note_id nt = id)); [| done].
  cbn [mbind list_bind]. rewrite IH. f_equal.
  rewrite filter_app, filter_cons, decide_False by done.
  rewrite filter_nil. by rewrite app_nil_r.
Qed.

Lemma ensure_tag_rows tag_name db id :
  schema_ok db →
  select_note_tags id (ensure_tag tag_name db).2 = select_note_tags id db.
Proof.
  intros (_ & _ & _ & Hts & _ & _ & Hfk).
  destruct (ensure_tag_cases tag_name db) as [-> | [_ ->]]; [done |].
  cbn [snd]. unfold select_note_tags. cbn [note_tags tags set_tags].
  apply join_fresh_tag. cbn.
  eapply Forall_impl; [exact Hfk |]. cbn.
  intros nt [_ (t & Heq & Hin)%list_elem_of_fmap] Hseq.
  rewrite Forall_forall in Hts. specialize (Hts _ Hin). lia.
Qed.

Lemma normalized_names ids keep_tag replace_tag_list db :
  schema_ok db → keep_tag ∉ replace_tag_list →
  let db' := (normalized ids keep_tag replace_tag_list db).1.1 in
  (∀ id, id ∈ ids → select_note_exists id db = true →
     settled keep_tag replace_tag_list db' id)
  ∧ (∀ id nm, nm ≠ keep_tag → nm ∉ replace_tag_list →
       (nm ∈ tag_names_of db' id ↔ nm ∈ tag_names_of db id))
  ∧ (∀ id nm, id ∉ ids →
       (nm ∈ tag_names_of db' id ↔ nm ∈ tag_names_of db id)).
Proof.
  intros Hok Hkr. unfold normalized.
  destruct (ensure_tag_consistent keep_tag db (schema_consistent db Hok)) as [Hkey Hp].
  pose proof (ensure_tag_notes keep_tag db) as Hn.
  pose proof (λ id nm, ensure_tag_keeps_names keep_tag db id nm) as Hnames.
  pose proof (λ id, ensure_tag_rows keep_tag db id Hok) as Hrows.
  destruct (ensure_tag keep_tag db) as [pid db1]. cbn [fst snd] in *.
  cbn zeta. rewrite notes_effect_db.
  destruct (loop_settles keep_tag replace_tag_list pid ids db1 Hkr Hkey Hp)
    as (_ & _ & Hs).
  split_and!.
  - intros id Hin Hex. apply Hs; [done |].
    unfold select_note_exists in *. by rewrite Hn.
  - intros id nm Hnk Hnr. rewrite note_effects_keep_names by done. by apply Hnames.
  - intros id nm Hid. rewrite others_keep_names by done.
    unfold tag_names_of. by rewrite Hrows.
Qed.

(** X3: after a run without failures, on a store that meets the schema and
    for a keep tag that is not among the tags to replace, every listed note
    that exists carries the keep tag and none of the tags to replace; which
    notes carry any other tag is as before, and the notes that are not
    listed carry the tags they carried. *)
Theorem listed_notes_end_with_the_keep_tag (note_id_list : list Z)
    (keep_tag : string) (replace_tag_list : list string) (db : database)
    (g : sync_outcome) :
  schema_ok db → keep_tag ∉ replace_tag_list →
  let db' := stored (apply_tag_normalization note_id_list keep_tag
                       replace_tag_list (start db no_faults g)) in
  (∀ id, id ∈ note_id_list → select_note_exists id db = true →
     keep_tag ∈ tag_names_of db' id
     ∧ ∀ nm, nm ∈ replace_tag_list → nm ∉ tag_names_of db' id)
  ∧ (∀ id nm, nm ≠ keep_tag → nm ∉ replace_tag_list →
       (nm ∈ tag_names_of db' id ↔ nm ∈ tag_names_of db id))
  ∧ (∀ id nm, id ∉ note_id_list →
       (nm ∈ tag_names_of db' id ↔ nm ∈ tag_names_of db id)).
Proof.
  intros Hok Hkr db'.
  destruct (apply_ok note_id_list keep_tag replace_tag_list (start db no_faults g))
    as (Hst & _); [done | done |].
  subst db'. rewrite Hst. cbn [start conn committed].
  destruct (normalized_names note_id_list keep_tag replace_tag_list db Hok Hkr)
    as (Hs & Hother & Hrest).
  split_and!; [| done | done].
  intros id Hin Hex. destruct (Hs id Hin Hex) as [Hk Hr]. split; [done |].
  intros nm Hnm Hhas. by apply (Hr nm).
Qed.

Lemma listed_notes_end_with_the_keep_tag_witness :
  let db' := stored (apply_tag_normalization [1; 2; 3]%Z "python" ["py"]
                       (start sample_db no_faults synced)) in
  (∀ id, id ∈ [1; 2; 3]%Z → select_note_exists id sample_db = true →
     "python" ∈ tag_names_of db' id
     ∧ ∀ nm, nm ∈ ["py"] → nm ∉ tag_names_of db' id)
  ∧ (∀ id nm, nm ≠ "python" → nm ∉ ["py"] →
       (nm ∈ tag_names_of db' id ↔ nm ∈ tag_names_of sample_db id))
  ∧ (∀ id nm, id ∉ [1; 2; 3]%Z →
       (nm ∈ tag_names_of db' id ↔ nm ∈ tag_names_of sample_db id)).
Proof.
  apply (listed_notes_end_with_the_keep_tag [1; 2; 3]%Z "python" ["py"] sample_db
           synced).
  - unfold schema_ok.
    split_and!; apply (bool_decide_unpack _); vm_compute; exact I.
  - apply (bool_decide_unpack _). vm_compute. exact I.
Defined.

Lemma apply_stored_cases (note_id_list : list Z) (keep_tag : string)
    (replace_tag_list : list string) (db : database) (f : nat → option exn)
    (g : sync_outcome) :
  stored (apply_tag_normalization note_id_list keep_tag replace_tag_list
            (start db f g)) = db
  ∨ stored (apply_tag_normalization note_id_list keep_tag replace_tag_list
              (start db f g))
    = (normalized note_id_list keep_tag replace_tag_list db).1.1.
Proof.
  destruct (transaction_steps note_id_list keep_tag replace_tag_list
              (begun note_id_list keep_tag replace_tag_list (start db f g)))
    as [[c|e] w1] eqn:Hsteps.
  - right.
    destruct (announce_ok note_id_list keep_tag replace_tag_list (start db f g))
      as [lines Ha]. cbn [start conn current committed txn default] in Ha.
    set (w := start db f g) in *.
    set (w0 := set_conn (after w 0 db lines) {| committed := db; txn := Some db |}).
    assert (begin_transaction (after w 0 db lines) = (Return tt, w0)) as Hb
      by (by rewrite begin_ok).
    assert (begun note_id_list keep_tag replace_tag_list w = w0) as Hbegun.
    { unfold begun. erewrite bind_return by exact Ha. by rewrite Hb. }
    rewrite Hbegun in Hsteps.
    assert (is_Some (txn (conn w0))) as Hopen by (by eexists).
    pose proof (transaction_steps_returns _ _ _ _ _ _ Hopen Hsteps) as Hconn.
    change (current (conn w0)) with db in Hconn.
    destruct (report_and_sync_ok c w1) as (r & w2 & tail & Hr & Hconn2 & _).
    unfold stored, apply_tag_normalization, try_finally.
    unfold try_except at 1.
    erewrite bind_return by exact Ha. erewrite bind_return by exact Hb.
    unfold try_except at 1. erewrite bind_return by exact Hsteps. rewrite Hr.
    destruct r as [[]|e].
    + cbn. by rewrite Hconn2, Hconn.
    + unfold rollback_handler. erewrite bind_raise.
      2:{ unfold rollback. rewrite Hconn2, Hconn. cbn. reflexivity. }
      cbn. by rewrite Hconn2, Hconn.
  - left.
    destruct (run_of_a_failed_transaction note_id_list keep_tag replace_tag_list
                db f g e) as (out & wf & Hrun & Hconn & _); [by rewrite Hsteps |].
    unfold stored. rewrite Hrun. cbn [snd]. by rewrite Hconn.
Qed.

(** X4: whatever fails, a normalization leaves a store that meets the
    schema meeting it: the notes are untouched, and the tags are the ones
    there were, with at most the keep tag added at the end under the next
    identifier. *)
Theorem apply_keeps_the_schema (note_id_list : list Z) (keep_tag : string)
    (replace_tag_list : list string) (db : database) (f : nat → option exn)
    (g : sync_outcome) :
  schema_ok db →
  let db' := stored (apply_tag_normalization note_id_list keep_tag
                       replace_tag_list (start db f g)) in
  schema_ok db'
  ∧ notes db' = notes db
  ∧ (tags db' = tags db
     ∨ (keep_tag ∉ t_name <$> tags db)
       ∧ tags db' = tags db ++ [{| t_tag_id := tag_id_seq db; t_name := keep_tag |}]).
Proof.
  intros Hok db'. subst db'.
  destruct (apply_stored_cases note_id_list keep_tag replace_tag_list db f g)
    as [-> | ->].
  - split_and!; [done | done | by left].
  - split; [by apply normalized_schema | apply normalized_tables].
Qed.

Lemma apply_keeps_the_schema_witness :
  let db' := stored (apply_tag_normalization [1; 2; 3]%Z "snake" ["py"]
                       (start sample_db (fails_at 3) synced)) in
  schema_ok db'
  ∧ notes db' = notes sample_db
  ∧ (tags db' = tags sample_db
     ∨ ("snake" ∉ t_name <$> tags sample_db)
       ∧ tags db' = tags sample_db
                    ++ [{| t_tag_id := tag_id_seq sample_db; t_name := "snake" |}]).
Proof.
  apply (apply_keeps_the_schema [1; 2; 3]%Z "snake" ["py"] sample_db (fails_at 3)
           synced).
  unfold schema_ok.
  split_and!; apply (bool_decide_unpack _); vm_compute; exact I.
Defined.

(** ** The counts of the report *)

Lemma filter_none {A} (P : A → Prop) `{!∀ x, Decision (P x)} (l : list A) :
  Forall (λ x, ¬ P x) l → filter P l = [].
Proof.
  induction 1 as [|x l Hx _ IH]; [done |].
  by rewrite filter_cons, decide_False.
Qed.

Lemma key_lookup (ts : list tag_row) (tid : Z) :
  NoDup (t_tag_id <$> ts) →
  filter (λ t, t_tag_id t = tid) ts = []
  ∨ ∃ t, filter (λ t, t_tag_id t = tid) ts = [t].
Proof.
  induction ts as [|t ts IH]; [by left |].
  rewrite fmap_cons, NoDup_cons. intros [Hnew Hnd]. rewrite filter_cons.
  destruct (decide (t_tag_id t = tid)) as [<-|Hne]; [| by apply IH].
  right. exists t. f_equal. apply filter_none, Forall_forall.
  intros t' Hin Heq. apply Hnew, list_elem_of_fmap. by exists t'.
Qed.

(** The rows of [note_tags] that the [DELETE]s of one note remove are as many
    as the ids in [tags_to_remove]. *)
Lemma removed_rows replace_tag_list id db :
  NoDup (t_tag_id <$> tags db) →
  length (filter (λ nt, nt_note_id nt = id
                        ∧ nt_tag_id nt ∈ tags_to_remove_of replace_tag_list id db)
            (note_tags db))
  = length (tags_to_remove_of replace_tag_list id db).
Proof.
  intros Hkey.
  set (Q := λ nt : note_tag_row,
         Exists (λ t, t_tag_id t = nt_tag_id nt ∧ t_name t ∈ replace_tag_list)
           (tags db)).
  rewrite (filter_on _ (λ nt, Q nt ∧ nt_note_id nt = id)).
  2:{ intros nt Hnt. unfold Q. rewrite Exists_exists, elem_of_tags_to_remove.
      split.
      - intros [Hid (nm & [_ Hrow]%elem_of_select_note_tags & Hnm)].
        split; [| done]. by exists {| t_tag_id := nt_tag_id nt; t_name := nm |}.
      - intros [([tid nm] & Hin & Htid & Hnm) Hid]. cbn in *. subst tid.
        split; [done |]. exists nm. split; [| done].
        apply elem_of_select_note_tags. split; [| done]. subst id. by destruct nt. }
  rewrite <-list_filter_filter.
  unfold tags_to_remove_of. rewrite length_fmap, zip_fst_snd.
  unfold select_note_tags.
  induction (filter (λ nt, nt_note_id nt = id) (note_tags db)) as [|nt l IH];
    [done |].
  cbn [mbind list_bind]. rewrite filter_app, length_app, <-IH, filter_cons.
  destruct (key_lookup (tags db) (nt_tag_id nt) Hkey) as [E|[t E]].
  - rewrite E. cbn. rewrite decide_False; [done |].
    unfold Q. rewrite Exists_exists. intros (t & Hin & Ht & _).
    assert (t ∈ filter (λ t, t_tag_id t = nt_tag_id nt) (tags db)) as Hf
      by (by apply list_elem_of_filter).
    rewrite E in Hf. by apply elem_of_nil in Hf.
  - assert (t ∈ filter (λ t, t_tag_id t = nt_tag_id nt) (tags db)) as
      [Htid Hin]%list_elem_of_filter by (rewrite E; left).
    rewrite E. cbn [mbind list_bind app]. rewrite filter_cons, filter_nil.
    cbn [snd]. destruct (decide (t_name t ∈ replace_tag_list)) as [Hr|Hr].
    + rewrite decide_True; [done |]. unfold Q. rewrite Exists_exists. by exists t.
    + rewrite decide_False; [done |]. unfold Q. rewrite Exists_exists.
      intros (t' & Hin' & Ht' & Hr').
      assert (t' ∈ filter (λ t, t_tag_id t = nt_tag_id nt) (tags db)) as Hf
        by (by apply list_elem_of_filter).
      rewrite E in Hf. apply list_elem_of_singleton in Hf. by subst t'.
Qed.

(** One note's step keeps the books. *)
Lemma note_effect_accounts keep_tag replace_tag_list primary_tag_id id db c :
  NoDup (t_tag_id <$> tags db) →
  let db' := note_effect keep_tag replace_tag_list primary_tag_id id db in
  let c' := note_count keep_tag replace_tag_list id db c in
  length (note_tags db') + tags_removed c' + tags_added c
  = length (note_tags db) + tags_removed c + tags_added c'.
Proof.
  intros Hkey. cbn zeta. rewrite note_effect_cases. cbn zeta. unfold note_count.
  destruct (select_note_exists id db); [| lia].
  pose proof (removed_rows replace_tag_list id db Hkey) as Hrm.
  pose proof (filter_app_complement
                (λ nt, nt_note_id nt = id
                       ∧ nt_tag_id nt ∈ tags_to_remove_of replace_tag_list id db)
                (note_tags db)) as Hperm.
  apply Permutation_length in Hperm. rewrite length_app, Hrm in Hperm.
  destruct (bool_decide (keep_tag ∈ tag_names_of db id)); cbn.
  - lia.
  - rewrite length_app. cbn. lia.
Qed.

Lemma notes_effect_accounts keep_tag replace_tag_list primary_tag_id (ids : list Z)
    db c :
  NoDup (t_tag_id <$> tags db) →
  let r := notes_effect keep_tag replace_tag_list primary_tag_id ids db c in
  length (note_tags r.1.1) + tags_removed r.1.2 + tags_added c
  = length (note_tags db) + tags_removed c + tags_added r.1.2.
Proof.
  revert db c. induction ids as [|id ids IH]; intros db c Hkey; [cbn; lia |].
  cbn zeta. rewrite notes_effect_cons. cbn [fst snd].
  pose proof (note_effect_accounts keep_tag replace_tag_list primary_tag_id id db c
                Hkey) as H1. cbn zeta in H1.
  destruct (note_effect_tables keep_tag replace_tag_list primary_tag_id id db)
    as (_ & Ht & _).
  pose proof (IH (note_effect keep_tag replace_tag_list primary_tag_id id db)
                (note_count keep_tag replace_tag_list id db c)) as H2.
  cbn zeta in H2. rewrite Ht in H2. specialize (H2 Hkey). lia.
Qed.

Lemma normalized_accounts ids keep_tag replace_tag_list db :
  db_consistent db →
  let r := normalized ids keep_tag replace_tag_list db in
  length (note_tags r.1.1) + tags_removed r.1.2
  = length (note_tags db) + tags_added r.1.2.
Proof.
  intros Hc. unfold normalized.
  destruct (ensure_tag_consistent keep_tag db Hc) as [Hkey _].
  assert (note_tags (ensure_tag keep_tag db).2 = note_tags db) as Hl.
  { by destruct (ensure_tag_cases keep_tag db) as [-> | [_ ->]]. }
  destruct (ensure_tag keep_tag db) as [pid db1]. cbn [fst snd] in *.
  pose proof (notes_effect_accounts keep_tag replace_tag_list pid ids db1
                zero_counters Hkey) as H. cbn zeta in H. cbn [zero_counters tags_removed tags_added] in H.
  cbn zeta. rewrite <-Hl. lia.
Qed.

(** X5: the two counts a run without failures prints are the numbers of
    rows it deleted from and inserted into [note_tags]: the rows left, plus
    the ones reported as removed, are the rows there were, plus the ones
    reported as added. *)
Theorem reported_counts_match_the_rows (note_id_list : list Z) (keep_tag : string)
    (replace_tag_list : list string) (db : database) (g : sync_outcome) :
  db_consistent db →
  let run := apply_tag_normalization note_id_list keep_tag replace_tag_list
               (start db no_faults g) in
  ∃ removed added : nat,
    ("Tags removed: " +:+ pretty removed) ∈ stdout run.2
    ∧ ("Tags added: " +:+ pretty added) ∈ stdout run.2
    ∧ length (note_tags (stored run)) + removed = length (note_tags db) + added.
Proof.
  intros Hc run.
  destruct (apply_ok note_id_list keep_tag replace_tag_list (start db no_faults g))
    as (Hst & _ & head & tail & Hout); [done | done |].
  fold run in Hst, Hout. cbn [start conn committed stdout] in Hst, Hout.
  set (r := normalized note_id_list keep_tag replace_tag_list db) in *.
  exists (tags_removed r.1.2), (tags_added r.1.2). rewrite Hout, Hst.
  split_and!.
  - rewrite !elem_of_app. do 3 right. left. do 2 right. left.
  - rewrite !elem_of_app. do 3 right. left. do 3 right. left.
  - by apply normalized_accounts.
Qed.

Lemma reported_counts_match_the_rows_witness :
  let run := apply_tag_normalization [1; 2; 3]%Z "python" ["py"]
               (start sample_db no_faults synced) in
  ∃ removed added : nat,
    ("Tags removed: " +:+ pretty removed) ∈ stdout run.2
    ∧ ("Tags added: " +:+ pretty added) ∈ stdout run.2
    ∧ length (note_tags (stored run)) + removed
      = length (note_tags sample_db) + added.
Proof.
  apply (reported_counts_match_the_rows [1; 2; 3]%Z "python" ["py"] sample_db
           synced).
  split; apply (bool_decide_unpack _); vm_compute; exact I.
Defined.

(** ** [add_note] *)

Lemma link_loop_ok note_id (tags : list string) w :
  fault_free w →
  ∃ k, for_each tags
         (λ tag_name (_ : unit),
            tag_id ← get_or_create_tag tag_name;
            update (insert_note_tag note_id tag_id)) tt w
       = (Return tt, after w k (link_tags note_id tags (current (conn w))) []).
Proof.
  revert w. induction tags as [|tag tags IH]; intros w Hff; cbn [for_each].
  - exists 0. unfold link_tags. cbn. unfold mret, M_ret, ret. by rewrite after_nothing.
  - destruct (get_or_create_tag_ok tag w Hff) as [k1 H1].
    erewrite bind_return.
    2:{ erewrite bind_return by exact H1. by apply update_ok. }
    rewrite current_after, after_after.
    match goal with |- context [for_each _ _ tt ?w1] =>
      destruct (IH w1) as [k2 H2]; [exact Hff |]
    end.
    rewrite current_after in H2. rewrite H2, after_after. by eexists.
Qed.

Lemma link_loop_returns note_id (tags : list string) w w' :
  for_each tags
    (λ tag_name (_ : unit),
       tag_id ← get_or_create_tag tag_name;
       update (insert_note_tag note_id tag_id)) tt w
    = (Return tt, w') →
  current (conn w') = link_tags note_id tags (current (conn w)).
Proof.
  revert w. induction tags as [|tag tags IH]; intros w; cbn [for_each].
  - by intros [= <-].
  - intros ([] & w2 & Hstep & Hk)%bind_returns.
    apply bind_returns in Hstep as (tid & w1 & [-> Hw1]%get_or_create_tag_returns & Hu).
    apply execute_returns in Hu as [_ Hw2]. cbn [snd] in Hw2.
    apply IH in Hk. rewrite Hk, Hw2, Hw1. done.
Qed.

Section AddNote.

Context (db : database) (err : list string).

Lemma preserves_link_loop note_id (tags : list string) :
  preserves (in_transaction db err)
    (for_each tags
       (λ tag_name (_ : unit),
          tag_id ← get_or_create_tag tag_name;
          update (insert_note_tag note_id tag_id)) tt).
Proof.
  apply preserves_for_each. intros tag []. apply preserves_bind.
  - apply preserves_get_or_create_tag.
  - intros tid. apply preserves_execute.
Qed.

End AddNote.

(** The [try] body of [add_note], run inside the transaction it has begun:
    it commits what the statements wrote, or raises with the transaction
    still open. *)
Lemma add_note_body title content embedding (tags : list string) db err w :
  in_transaction db err w →
  let body :=
    (note_id ← execute (insert_note title content embedding);
     for_each tags
       (λ tag_name (_ : unit),
          tag_id ← get_or_create_tag tag_name;
          update (insert_note_tag note_id tag_id)) tt;;
     commit;;
     mret note_id) in
  match body w with
  | (Return note_id, w') =>
      note_id = note_id_seq (current (conn w))
      ∧ conn w'
        = {| committed :=
               link_tags (note_id_seq (current (conn w))) tags
                 (insert_note title content embedding (current (conn w))).2;
             txn := None |}
  | (Raise e, w') => in_transaction db err w'
  end.
Proof.
  intros Hin body. subst body. unfold mbind at 1, M_bind at 1, bind at 1.
  pose proof (preserves_execute db err (insert_note title content embedding) w Hin)
    as Hin1.
  destruct (execute (insert_note title content embedding) w)
    as [[note_id|e] w1] eqn:H1; [| done].
  cbn [snd] in Hin1. apply execute_returns in H1 as [-> Hw1]. cbn [insert_note fst].
  unfold mbind at 1, M_bind at 1, bind at 1.
  pose proof (preserves_link_loop db err (note_id_seq (current (conn w))) tags w1 Hin1)
    as Hin2.
  destruct (for_each tags _ tt w1) as [[[]|e] w2] eqn:H2; [| done].
  cbn [snd] in Hin2. apply link_loop_returns in H2. rewrite Hw1 in H2.
  destruct Hin2 as (Hc2 & [d Ht2] & _).
  unfold mbind, M_bind, bind, commit. rewrite Ht2. cbn. split; [done |].
  unfold current in H2 at 1. rewrite Ht2 in H2. cbn in H2. by rewrite H2.
Qed.






Lemma link_tags_notes new (names : list string) d :
  notes (link_tags new names d) = notes d.
Proof.
  revert d. induction names as [|nm names IH]; intros d; [done |].
  change (link_tags new (nm :: names) d)
    with (link_tags new names
            (insert_note_tag new (ensure_tag nm d).1 (ensure_tag nm d).2)).
  rewrite IH. cbn. apply ensure_tag_notes.
Qed.







(** ** The command line of the normalization *)

Lemma digit_char (m : N) :
  (m < 10)%N →
  is_digit (pretty_N_char m) = true
  ∧ digit_value (pretty_N_char m) = Z.of_N m
  ∧ pretty_N_char m ≠ "_"%char ∧ pretty_N_char m ≠ ","%char
  ∧ isspace (pretty_N_char m) = false.
Proof.
  intros Hm.
  destruct m as [|p]; [done |].
  do 4 (destruct p as [p|p|]; try done); lia.
Qed.

Lemma scan_pretty_go (x : N) :
  (0 < x)%N →
  ∀ s prev acc n,
  ∃ prev' k,
    scan_digits prev acc n (pretty_N_go x s)
    = scan_digits prev' (acc * 10 ^ Z.of_nat k + Z.of_N x)%Z (n + k) s
    ∧ prev' ≠ "_"%char ∧ 1 ≤ k
    ∧ String.length (pretty_N_go x s) = k + String.length s.
Proof.
  induction (N.lt_wf_0 x) as [x _ IH]. intros Hx s prev acc n.
  rewrite pretty_N_go_step by done.
  assert (x `mod` 10 < 10)%N as Hmod by (apply N.mod_lt; lia).
  destruct (digit_char _ Hmod) as (Hd & Hv & Hu & _).
  set (d := pretty_N_char (x `mod` 10)) in *.
  pose proof (N.div_mod x 10 ltac:(lia)) as Hdm.
  destruct (decide (x `div` 10 = 0)%N) as [E|E].
  - rewrite E, pretty_N_go_0. cbn [scan_digits]. rewrite Hd, Hv.
    exists d, 1. split_and!; [| done | lia | done].
    f_equal; [| lia]. rewrite E in Hdm. lia.
  - destruct (IH (x `div` 10)%N) with (s := String d s) (prev := prev)
      (acc := acc) (n := n) as (prev' & k & Hscan & _ & Hk & Hlen).
    { apply N.div_lt; lia. }
    { lia. }
    rewrite Hscan, Hlen. cbn [scan_digits String.length]. rewrite Hd, Hv.
    exists d, (S k). split_and!; [| done | lia | lia].
    f_equal; [| lia].
    replace (Z.of_nat (S k)) with (Z.of_nat k + 1)%Z by lia.
    rewrite Z.pow_add_r, Z.pow_1_r by lia.
    assert (Z.of_N x = 10 * Z.of_N (x `div` 10) + Z.of_N (x `mod` 10))%Z as ->
      by lia.
    generalize (10 ^ Z.of_nat k)%Z (Z.of_N (x `div` 10)) (Z.of_N (x `mod` 10)).
    intros; lia.
Qed.

Lemma append_cons (c : ascii) (s1 s2 : string) :
  String c s1 +:+ s2 = String c (s1 +:+ s2).
Proof. done. Qed.

Lemma string_app_assoc (s1 s2 s3 : string) :
  (s1 +:+ s2) +:+ s3 = s1 +:+ (s2 +:+ s3).
Proof.
  induction s1 as [|c s1 IH]; [done |]. rewrite !append_cons. by f_equal.
Qed.

Lemma string_app_nil_r (s : string) : s +:+ EmptyString = s.
Proof. induction s as [|c s IH]; [done |]. rewrite append_cons. by f_equal. Qed.

Lemma string_rev_app (s1 s2 : string) :
  String.rev_app s1 s2 = String.rev s1 +:+ s2.
Proof.
  revert s2. induction s1 as [|c s1 IH]; intros s2; [done |].
  unfold String.rev. cbn [String.rev_app].
  rewrite (IH (String c s2)), (IH (String c EmptyString)).
  by rewrite string_app_assoc.
Qed.

Lemma string_rev_cons (c : ascii) (s : string) :
  String.rev (String c s) = String.rev s +:+ String c EmptyString.
Proof. unfold String.rev at 1. cbn [String.rev_app]. apply string_rev_app. Qed.

Lemma string_rev_app_distr (s1 s2 : string) :
  String.rev (s1 +:+ s2) = String.rev s2 +:+ String.rev s1.
Proof.
  induction s1 as [|c s1 IH]; [by rewrite string_app_nil_r |].
  rewrite append_cons, !string_rev_cons, IH. by rewrite string_app_assoc.
Qed.

Lemma string_rev_involutive (s : string) : String.rev (String.rev s) = s.
Proof.
  induction s as [|c s IH]; [done |].
  rewrite string_rev_cons, string_rev_app_distr, IH. done.
Qed.

Lemma string_forall_app P (s1 s2 : string) :
  string_forall P (s1 +:+ s2) = string_forall P s1 && string_forall P s2.
Proof.
  induction s1 as [|c s1 IH]; [done |]. rewrite append_cons. cbn [string_forall].
  rewrite IH. by rewrite andb_assoc.
Qed.

Lemma string_forall_rev P (s : string) :
  string_forall P (String.rev s) = string_forall P s.
Proof.
  induction s as [|c s IH]; [done |].
  rewrite string_rev_cons, string_forall_app, IH. cbn [string_forall].
  rewrite andb_true_r. apply andb_comm.
Qed.

Lemma lstrip_plain (s : string) :
  string_forall (λ c, negb (isspace c)) s = true → lstrip s = s.
Proof.
  destruct s as [|c s]; [done |]. cbn [string_forall lstrip].
  intros [Hc _]%andb_true_iff. apply negb_true_iff in Hc. by rewrite Hc.
Qed.

Lemma strip_plain (s : string) :
  string_forall (λ c, negb (isspace c)) s = true → strip s = s.
Proof.
  intros Hs. unfold strip, rstrip. rewrite (lstrip_plain s Hs).
  rewrite lstrip_plain by (by rewrite string_forall_rev).
  apply string_rev_involutive.
Qed.

Lemma split_plain (sep : ascii) (s : string) :
  string_forall (λ c, negb (Ascii.eqb c sep)) s = true → split sep s = [s].
Proof.
  induction s as [|c s IH]; [done |]. cbn [string_forall split].
  intros [Hc Hs]%andb_true_iff. apply negb_true_iff, Ascii.eqb_neq in Hc.
  rewrite decide_False by done. by rewrite IH.
Qed.

Lemma split_app (sep : ascii) (s rest : string) :
  string_forall (λ c, negb (Ascii.eqb c sep)) s = true →
  split sep (s +:+ String sep rest) = s :: split sep rest.
Proof.
  induction s as [|c s IH].
  - intros _. change (EmptyString +:+ String sep rest) with (String sep rest).
    cbn [split]. by rewrite decide_True.
  - cbn [string_forall]. intros [Hc Hs]%andb_true_iff.
    apply negb_true_iff, Ascii.eqb_neq in Hc.
    rewrite append_cons. cbn [split]. rewrite decide_False by done. by rewrite IH.
Qed.

Lemma split_join (sep : ascii) (l : list string) :
  l ≠ [] →
  Forall (λ s, string_forall (λ c, negb (Ascii.eqb c sep)) s = true) l →
  split sep (join (String sep EmptyString) l) = l.
Proof.
  intros Hne Hl. induction Hl as [|x l Hx Hl IH]; [done |].
  destruct l as [|y l]; [by apply split_plain |].
  change (join (String sep EmptyString) (x :: y :: l))
    with (x +:+ String sep (join (String sep EmptyString) (y :: l))).
  rewrite split_app by done. by rewrite IH.
Qed.

Lemma digit_is_plain (c : ascii) :
  is_digit c = true →
  int_space c = false ∧ isspace c = false
  ∧ Ascii.eqb c "+" = false ∧ Ascii.eqb c "-" = false
  ∧ Ascii.eqb c "_" = false ∧ Ascii.eqb c "," = false.
Proof.
  destruct c as [[] [] [] [] [] [] [] []]; vm_compute; intros H;
    first [discriminate H | done].
Qed.

Lemma pretty_go_plain (x : N) :
  ∀ s, string_forall plain s = true → string_forall plain (pretty_N_go x s) = true.
Proof.
  induction (N.lt_wf_0 x) as [x _ IH]. intros s Hs.
  destruct (decide (x = 0)%N) as [->|Hx]; [by rewrite pretty_N_go_0 |].
  rewrite pretty_N_go_step by lia. apply IH; [apply N.div_lt; lia |].
  cbn [string_forall]. rewrite Hs, andb_true_r.
  assert (x `mod` 10 < 10)%N as Hmod by (apply N.mod_lt; lia).
  destruct (digit_char _ Hmod) as (Hd & _).
  destruct (digit_is_plain _ Hd) as (_ & Hsp & _ & _ & _ & Hc).
  unfold plain. by rewrite Hsp, Hc.
Qed.

Lemma pretty_go_head (x : N) :
  (0 < x)%N → ∀ s, ∃ c s', pretty_N_go x s = String c s' ∧ is_digit c = true.
Proof.
  induction (N.lt_wf_0 x) as [x _ IH]. intros Hx s.
  rewrite pretty_N_go_step by done.
  assert (x `mod` 10 < 10)%N as Hmod by (apply N.mod_lt; lia).
  destruct (digit_char _ Hmod) as (Hd & _).
  destruct (decide (x `div` 10 = 0)%N) as [->|E].
  - rewrite pretty_N_go_0. by eexists _, _.
  - apply IH; [apply N.div_lt; lia | by apply N.neq_0_lt_0].
Qed.

Lemma pretty_Z_plain (z : Z) : string_forall plain (pretty z) = true.
Proof.
  destruct z as [|p|p]; [done | |].
  - unfold pretty, pretty_Z, pretty, pretty_positive, pretty, pretty_N.
    rewrite decide_False by done. by apply pretty_go_plain.
  - unfold pretty, pretty_Z, pretty, pretty_positive, pretty, pretty_N.
    rewrite decide_False by done. rewrite append_cons. cbn [string_forall].
    change (EmptyString +:+ ?s) with s. by rewrite pretty_go_plain.
Qed.

Lemma plain_no_space (s : string) :
  string_forall plain s = true → string_forall (λ c, negb (isspace c)) s = true.
Proof.
  induction s as [|c s IH]; [done |]. cbn [string_forall]. unfold plain at 1.
  intros [[-> _]%andb_true_iff Hs]%andb_true_iff. by rewrite IH.
Qed.

Lemma plain_no_comma (s : string) :
  string_forall plain s = true →
  string_forall (λ c, negb (Ascii.eqb c ",")) s = true.
Proof.
  induction s as [|c s IH]; [done |]. cbn [string_forall]. unfold plain at 1.
  intros [[_ ->]%andb_true_iff Hs]%andb_true_iff. by rewrite IH.
Qed.

Lemma py_int_digits (x : N) :
  (0 < x)%N → String.length (pretty_N_go x EmptyString) ≤ max_str_digits →
  match scan_digits "000" 0 0 (pretty_N_go x EmptyString) with
  | Some (value, digits, rest) =>
      value = Z.of_N x ∧ rest = EmptyString
      ∧ Nat.leb 1 digits && Nat.leb digits max_str_digits = true
  | None => False
  end.
Proof.
  intros Hx Hbound.
  destruct (scan_pretty_go x Hx EmptyString "000"%char 0%Z 0)
    as (prev' & k & Hscan & Hprev & Hk & Hlen).
  rewrite Hlen in Hbound. rewrite Hscan.
  cbn [scan_digits]. apply Ascii.eqb_neq in Hprev. rewrite Hprev.
  split_and!; [lia | done |].
  apply andb_true_iff. split; apply Nat.leb_le; [done |].
  cbn [String.length] in Hbound. lia.
Qed.

Lemma pretty_pos (p : positive) :
  pretty (Z.pos p) = pretty_N_go (N.pos p) EmptyString.
Proof.
  unfold pretty, pretty_Z, pretty, pretty_positive, pretty, pretty_N.
  by rewrite decide_False.
Qed.

Lemma py_int_pretty (z : Z) :
  String.length (pretty (Z.abs z)) ≤ max_str_digits → py_int (pretty z) = Some z.
Proof.
  intros Hz. destruct z as [|p|p]; [done | |].
  - change (Z.abs (Z.pos p)) with (Z.pos p) in Hz. rewrite pretty_pos in *.
    destruct (pretty_go_head (N.pos p) ltac:(lia) EmptyString) as (c & s' & Hs & Hc).
    destruct (digit_is_plain c Hc) as (Hsp & _ & Hplus & Hminus & Hus & _).
    pose proof (py_int_digits (N.pos p) ltac:(lia) Hz) as Hscan.
    unfold py_int. rewrite Hs in *. cbn [skip_int_space]. rewrite Hsp, Hplus, Hminus, Hus.
    destruct (scan_digits _ _ _ _) as [[[value digits] rest]|]; [| done].
    destruct Hscan as (-> & -> & ->). done.
  - change (Z.abs (Z.neg p)) with (Z.pos p) in Hz. rewrite pretty_pos in Hz.
    unfold pretty, pretty_Z, pretty, pretty_positive, pretty, pretty_N.
    rewrite decide_False by done. rewrite append_cons. change (EmptyString +:+ ?s) with s.
    destruct (pretty_go_head (N.pos p) ltac:(lia) EmptyString) as (c & s' & Hs & Hc).
    destruct (digit_is_plain c Hc) as (Hsp & _ & Hplus & Hminus & Hus & _).
    pose proof (py_int_digits (N.pos p) ltac:(lia) Hz) as Hscan.
    unfold py_int. cbn [skip_int_space]. cbn [int_space].
    change (int_space "-") with false. cbn iota.
    change (Ascii.eqb "-" "+") with false. change (Ascii.eqb "-" "-") with true.
    cbn iota. rewrite Hs in *. rewrite Hus.
    destruct (scan_digits _ _ _ _) as [[[value digits] rest]|]; [| done].
    destruct Hscan as (-> & -> & ->). done.
Qed.

(** X7: the ids a suggestion prints after [--note-ids] are read back by
    the command as the ids of the suggestion, as long as there is one at
    least and each is printed with 4300 digits at most. *)
Theorem printed_note_ids_parse_back (self : Suggestion.t) :
  Suggestion.note_ids self ≠ [] →
  Forall (λ id, String.length (pretty (Z.abs id)) ≤ max_str_digits)
    (Suggestion.note_ids self) →
  parse_note_ids (note_ids_str self) = Some (Suggestion.note_ids self).
Proof.
  intros Hne Hids. unfold parse_note_ids, note_ids_str.
  rewrite (split_join ","%char).
  - apply mapM_fmap_Forall_Some. eapply Forall_impl; [exact Hids |].
    intros id Hid. cbn beta.
    rewrite strip_plain by apply plain_no_space, pretty_Z_plain.
    by apply py_int_pretty.
  - by destruct (Suggestion.note_ids self).
  - apply Forall_fmap, Forall_forall. intros id _.
    apply plain_no_comma, pretty_Z_plain.
Qed.

Lemma printed_note_ids_parse_back_witness :
  parse_note_ids (note_ids_str sample_suggestion)
  = Some (Suggestion.note_ids sample_suggestion).
Proof.
  apply (printed_note_ids_parse_back sample_suggestion).
  - discriminate.
  - apply (bool_decide_unpack _). vm_compute. exact I.
Defined.

(** ** From the stored tags to a suggestion, and back *)

Lemma split_cons_other (sep c : ascii) (s : string) :
  c ≠ sep →
  split sep (String c s)
  = match split sep s with p :: ps => String c p :: ps | [] => [String c EmptyString] end.
Proof. intros Hne. cbn [split]. by rewrite decide_False. Qed.

Lemma split_join_comma_space (x : string) (l : list string) :
  Forall (λ s, string_forall (λ c, negb (Ascii.eqb c ",")) s = true) (x :: l) →
  split "," (join ", " (x :: l)) = x :: (String " " <$> l).
Proof.
  revert x. induction l as [|y l IH]; intros x Hl.
  - apply Forall_cons in Hl as [Hx _]. by apply split_plain.
  - apply Forall_cons in Hl as [Hx Hl].
    change (join ", " (x :: y :: l))
      with (x +:+ String "," (String " " (join ", " (y :: l)))).
    rewrite split_app by done. rewrite split_cons_other by done.
    by rewrite IH.
Qed.

Lemma strip_after_space (s : string) : strip (String " " s) = strip s.
Proof. done. Qed.

(** [parse_tags] reads back the names that [STRING_AGG] joined. *)
Lemma parse_tags_join (names : list string) :
  Forall clean_name names →
  parse_tags (match names with [] => None | _ => Some (join ", " names) end)
  = names.
Proof.
  intros Hclean. destruct names as [|x l]; [done |].
  assert (join ", " (x :: l) ≠ EmptyString) as Hne.
  { apply join_nonempty. apply Forall_cons in Hclean as [[? _] _]. done. }
  unfold parse_tags, truthy_str.
  destruct (join ", " (x :: l)) as [|c s] eqn:E; [done |]. rewrite <-E.
  rewrite split_join_comma_space.
  2:{ eapply Forall_impl; [exact Hclean |]. by intros nm (_ & ? & _). }
  apply Forall_cons in Hclean as [(_ & _ & Hx) Hl].
  rewrite fmap_cons, Hx. f_equal. rewrite <-list_fmap_compose.
  clear -Hl. induction Hl as [|y l (_ & _ & Hy) _ IH]; [done |].
  rewrite fmap_cons, IH. cbn [compose]. by rewrite strip_after_space, Hy.
Qed.

Lemma parse_string_agg (db : database) (note_id : Z) :
  Forall clean_name (tag_names_of db note_id) →
  parse_tags (string_agg_tags db note_id) = tag_names_of db note_id.
Proof.
  intros Hclean. unfold string_agg_tags. fold (tag_names_of db note_id).
  destruct (tag_names_of db note_id) as [|x l]; [done |].
  exact (parse_tags_join (x :: l) Hclean).
Qed.

Lemma find_clusters_from_members g (notes_data : gmap Z Note.t) keys :
  ∀ visited clusters,
  ∃ new,
    find_clusters_from keys g notes_data visited clusters = Some (clusters ++ new)
    ∧ Forall (λ c, 2 ≤ length c
                   ∧ Forall (λ n, ∃ k, notes_data !! k = Some n) c) new.
Proof.
  induction keys as [|k keys IH]; intros visited clusters; cbn [find_clusters_from].
  - exists []. by rewrite app_nil_r.
  - destruct (decide (k ∈ visited)) as [Hk|Hk]; [apply IH |].
    destruct (dfs_from g notes_data k visited) as (visited' & order & -> & _).
    set (c := omap (λ v, notes_data !! v) order).
    destruct (Nat.leb_spec 2 (length c)) as [Hlen|Hlen].
    + destruct (IH visited' (clusters ++ [c])) as (new & -> & Hnew).
      exists (c :: new). rewrite <-app_assoc. split; [done |].
      apply Forall_cons. split; [| done]. split; [done |].
      apply Forall_forall. intros n (v & _ & Hv)%list_elem_of_omap. by exists v.
    + destruct (IH visited' clusters) as (new & -> & Hnew). by exists new.
Qed.

Lemma build_notes_data_lookup rows (k : Z) (n : Note.t) :
  build_notes_data rows !! k = Some n →
  ∃ ttl tgs, (k, ttl, tgs) ∈ rows
    ∧ n = {| Note.note_id := k; Note.title := ttl; Note.tags := parse_tags tgs |}
    ∧ parse_tags tgs ≠ [].
Proof.
  unfold build_notes_data.
  assert (∀ acc : gmap Z Note.t,
    (∀ k n, acc !! k = Some n →
       ∃ ttl tgs, (k, ttl, tgs) ∈ rows
         ∧ n = {| Note.note_id := k; Note.title := ttl;
                  Note.tags := parse_tags tgs |}
         ∧ parse_tags tgs ≠ []) →
    ∀ l, l ⊆ rows →
    ∀ k n,
      foldl (λ notes_data '(note_id, title, tags),
               match parse_tags tags with
               | [] => notes_data
               | tags_list =>
                   <[note_id := {| Note.note_id := note_id; Note.title := title;
                                   Note.tags := tags_list |}]> notes_data
               end) acc l !! k = Some n →
      ∃ ttl tgs, (k, ttl, tgs) ∈ rows
        ∧ n = {| Note.note_id := k; Note.title := ttl;
                 Note.tags := parse_tags tgs |}
        ∧ parse_tags tgs ≠ []) as H.
  { intros acc Hacc l. revert acc Hacc.
    induction l as [|[[id ttl] tgs] l IH]; intros acc Hacc Hsub k' n'; [apply Hacc |].
    cbn [foldl]. apply IH; [| set_solver].
    destruct (parse_tags tgs) as [|t ts] eqn:E; [done |].
    intros k2 n2. destruct (decide (k2 = id)) as [->|Hne].
    - rewrite lookup_insert_eq. intros [= <-]. exists ttl, tgs.
      split; [set_solver |]. rewrite E. done.
    - rewrite lookup_insert_ne by done. apply Hacc. }
  apply (H ∅); [by intros ? ? ?%lookup_empty_Some | done].
Qed.

Lemma elem_of_notes_with_tags db (k : Z) (ttl : string) (tgs : option string) :
  (k, ttl, tgs) ∈ notes_with_tags_query db →
  ∃ row, row ∈ notes db ∧ n_note_id row = k ∧ n_title row = ttl
    ∧ tgs = string_agg_tags db k ∧ tagged db k.
Proof.
  unfold notes_with_tags_query.
  intros (row & [= -> -> ->] & [Hl Hin]%list_elem_of_filter)%list_elem_of_fmap.
  exists row. split_and!; try done. apply has_tag_link_tagged.
  by destruct (has_tag_link db (n_note_id row)).
Qed.

Lemma cluster_similar_notes_members cosine_distance db similarity_threshold :
  ∃ clusters,
    cluster_similar_notes cosine_distance db similarity_threshold = Some clusters
    ∧ ∀ c, c ∈ clusters →
        2 ≤ length c
        ∧ ∀ n, n ∈ c →
            ∃ row, row ∈ notes db
              ∧ n_note_id row = Note.note_id n
              ∧ n_title row = Note.title n
              ∧ tagged db (Note.note_id n)
              ∧ Note.tags n = parse_tags (string_agg_tags db (Note.note_id n))
              ∧ Note.tags n ≠ [].
Proof.
  unfold cluster_similar_notes.
  destruct (notes_with_tags_query db) as [|row rows] eqn:Erows;
    [exists []; split; [done | by intros c ?%elem_of_nil] |].
  destruct (size _);
    [exists []; split; [done | by intros c ?%elem_of_nil] |].
  destruct (similar_pairs_query _ _ _) as [|p ps];
    [exists []; split; [done | by intros c ?%elem_of_nil] |].
  unfold find_clusters.
  edestruct (find_clusters_from_members (build_similarity_graph (p :: ps))
               (build_notes_data (row :: rows))) as (new & Hf & Hnew).
  rewrite Hf. exists new. split; [done |].
  intros c Hc. rewrite Forall_forall in Hnew. destruct (Hnew c Hc) as [Hlen Hmem].
  split; [done |]. intros note Hn. rewrite Forall_forall in Hmem.
  destruct (Hmem note Hn) as [k Hk].
  apply build_notes_data_lookup in Hk as (ttl & tgs & Hin & -> & Hne).
  rewrite <-Erows in Hin.
  apply elem_of_notes_with_tags in Hin as (r & Hr & Hid & Httl & -> & Htag).
  exists r. by split_and!.
Qed.

Lemma tag_names_are_tag_rows db id nm :
  nm ∈ tag_names_of db id → nm ∈ t_name <$> tags db.
Proof.
  intros [tid [_ Hrow]%elem_of_select_note_tags]%elem_of_tag_names_of.
  apply list_elem_of_fmap. by exists {| t_tag_id := tid; t_name := nm |}.
Qed.

Section Members.

Context (cosine_distance : list float → list float → float).


End Members.


Lemma elem_of_suggestions (clusters : list (list Note.t)) (s : Suggestion.t) :
  s ∈ find_tag_normalization_suggestions clusters →
  ∃ c, c ∈ clusters ∧ 2 ≤ length (distinct_tags c)
    ∧ s = {| Suggestion.note_ids := member_ids c;
             Suggestion.note_titles := Note.title <$> c;
             Suggestion.tags := count_tags c;
             Suggestion.most_common_tag := most_common (count_tags c) |}.
Proof.
  unfold find_tag_normalization_suggestions.
  assert (∀ acc,
    s ∈ foldl suggest_for_cluster acc clusters →
    s ∈ acc
    ∨ ∃ c, c ∈ clusters ∧ 2 ≤ length (distinct_tags c)
        ∧ s = {| Suggestion.note_ids := member_ids c;
                 Suggestion.note_titles := Note.title <$> c;
                 Suggestion.tags := count_tags c;
                 Suggestion.most_common_tag := most_common (count_tags c) |}) as H.
  { induction clusters as [|c clusters IH]; intros acc; [by left |].
    cbn [foldl]. intros [Hin|(c' & Hc' & Hrest)]%IH.
    - rewrite suggest_for_cluster_spec in Hin. case_decide as Hd; [| by left].
      apply elem_of_app in Hin as [Hin|Heq%list_elem_of_singleton]; [by left |].
      right. exists c. split_and!; [by left | done | done].
    - right. exists c'. split; [by right | done]. }
  intros [[]%elem_of_nil|Hs]%H. done.
Qed.

Lemma get_other_tags_of_keep (s : Suggestion.t) (keep_tag : string) :
  keep_tag ≠ EmptyString →
  get_other_tags s (Some keep_tag)
  = filter (λ tag, tag ≠ keep_tag) (Suggestion.tags s).*1.
Proof. intros Hne. unfold get_other_tags. by destruct keep_tag. Qed.

Section Applying.

Context (cosine_distance : list float → list float → float).

(** X13: applying a suggestion as its text proposes, keeping one of its
    tags and replacing [get_other_tags] of it, leaves every note of the
    suggestion with the kept tag and no other (on a store that meets the
    schema, with tag names that survive the aggregation, and without
    failures). *)
Theorem applying_a_suggestion_leaves_the_kept_tag (db : database)
    (similarity_threshold : float) (g : sync_outcome)
    (clusters : list (list Note.t)) (s : Suggestion.t) (keep_tag : string) :
  schema_ok db →
  Forall clean_name (t_name <$> tags db) →
  cluster_similar_notes cosine_distance db similarity_threshold = Some clusters →
  s ∈ find_tag_normalization_suggestions clusters →
  keep_tag ∈ (Suggestion.tags s).*1 →
  let run := apply_tag_normalization (Suggestion.note_ids s) keep_tag
               (get_other_tags s (Some keep_tag)) (start db no_faults g) in
  ∀ id, id ∈ Suggestion.note_ids s →
    ∀ nm, nm ∈ tag_names_of (stored run) id ↔ nm = keep_tag.
Proof.
  intros Hok Hclean Hclusters Hs Hkeep run id Hid nm.
  destruct (cluster_similar_notes_members cosine_distance db similarity_threshold)
    as (clusters' & Hc' & Hmem).
  rewrite Hclusters in Hc'. injection Hc' as <-.
  apply elem_of_suggestions in Hs as (c & Hc & _ & ->).
  cbn [Suggestion.tags Suggestion.note_ids] in *.
  destruct (Hmem c Hc) as [_ Hnotes].
  assert (∀ n, n ∈ c →
            select_note_exists (Note.note_id n) db = true
            ∧ Note.tags n = tag_names_of db (Note.note_id n)) as Hnote.
  { intros n Hn. destruct (Hnotes n Hn) as (row & Hrow & Hrid & _ & _ & Htags & _).
    split.
    - apply bool_decide_eq_true, list_elem_of_fmap. by exists row.
    - rewrite Htags. apply parse_string_agg.
      apply Forall_forall. intros nm' Hnm'%tag_names_are_tag_rows.
      rewrite Forall_forall in Hclean. by apply Hclean. }
  assert (keep_tag ≠ EmptyString) as Hne.
  { apply count_tags_keys, list_elem_of_bind in Hkeep as (n & Hk & Hn).
    destruct (Hnote n Hn) as [_ Htags]. rewrite Htags in Hk.
    apply tag_names_are_tag_rows in Hk. rewrite Forall_forall in Hclean.
    by destruct (Hclean _ Hk). }
  subst run. rewrite get_other_tags_of_keep by done.
  cbn [Suggestion.tags Suggestion.note_ids].
  set (replace_tag_list := filter (λ tag, tag ≠ keep_tag) (count_tags c).*1).
  assert (keep_tag ∉ replace_tag_list) as Hkr
    by (by intros [? _]%list_elem_of_filter).
  destruct (apply_ok (member_ids c) keep_tag replace_tag_list (start db no_faults g))
    as (-> & _); [done | done |].
  cbn [start conn committed].
  destruct (normalized_names (member_ids c) keep_tag replace_tag_list db Hok Hkr)
    as (Hsettled & Hother & _).
  apply list_elem_of_fmap in Hid as (n & -> & Hn).
  destruct (Hnote n Hn) as [Hex Htags].
  destruct (Hsettled (Note.note_id n)) as [Hhas Hnone];
    [apply list_elem_of_fmap; by exists n | done |].
  split; [| by intros ->].
  intros Hnm. destruct (decide (nm = keep_tag)) as [|Hnk]; [done |]. exfalso.
  apply (Hnone nm Hnm). apply list_elem_of_filter. split; [done |].
  apply count_tags_keys, list_elem_of_bind. exists n. split; [| done].
  rewrite Htags. apply (Hother (Note.note_id n) nm Hnk); [| done].
  intros Hin. by apply (Hnone nm Hnm).
Qed.

End Applying.

Lemma applying_a_suggestion_leaves_the_kept_tag_witness :
  let run := apply_tag_normalization (Suggestion.note_ids sample_suggestion)
               "python" (get_other_tags sample_suggestion (Some "python"))
               (start sample_db no_faults synced) in
  Forall (λ id, ∀ nm, nm ∈ tag_names_of (stored run) id ↔ nm = "python")
    (Suggestion.note_ids sample_suggestion).
Proof.
  apply Forall_forall.
  apply (applying_a_suggestion_leaves_the_kept_tag line_distance sample_db 0.875
           synced sample_clusters sample_suggestion "python").
  - unfold schema_ok.
    split_and!; apply (bool_decide_unpack _); vm_compute; exact I.
  - repeat constructor; vm_compute; congruence.
  - vm_compute. reflexivity.
  - vm_compute. left.
  - apply (bool_decide_unpack _). vm_compute. exact I.
Defined.

(** ** The results of a search *)

Lemma SFcompare_antisym x y c :
  SpecFloat.SFcompare x y = Some c → SpecFloat.SFcompare y x = Some (CompOpp c).
Proof.
  destruct x as [sx|sx| |sx mx ex], y as [sy|sy| |sy my ey]; cbn;
    try (intros [= <-]; by repeat case_match).
  intros [= <-]. f_equal.
  destruct sx, sy; try done.
  - rewrite (Z.compare_antisym ex ey). destruct (ex ?= ey)%Z; cbn; try done.
    by rewrite (Pos.compare_cont_antisym mx my Eq).
  - rewrite (Z.compare_antisym ex ey). destruct (ex ?= ey)%Z; cbn; try done.
    by rewrite (Pos.compare_cont_antisym mx my Eq).
Qed.

Lemma SFcompare_none x y :
  SpecFloat.SFcompare x y = None → x = SpecFloat.S754_nan ∨ y = SpecFloat.S754_nan.
Proof.
  destruct x as [sx|sx| |sx mx ex], y as [sy|sy| |sy my ey]; cbn; try done; auto.
Qed.

Lemma SFleb_trans x y z :
  SpecFloat.SFleb x y = true → SpecFloat.SFleb y z = true →
  SpecFloat.SFleb x z = true.
Proof.
  unfold SpecFloat.SFleb.
  destruct x as [sx|sx| |sx mx ex], y as [sy|sy| |sy my ey], z as [sz|sz| |sz mz ez];
    cbn; try done;
    try (destruct sx; try done); try (destruct sy; try done);
    try (destruct sz; try done).
  all: change (PosDef.Pos.compare_cont Eq ?a ?b) with (Pos.compare a b).
  all: destruct (Z.compare_spec ex ey), (Z.compare_spec ey ez),
         (Z.compare_spec ex ez); try done; try lia.
  all: subst; try lia.
  all: destruct (Pos.compare_spec mx my), (Pos.compare_spec my mz),
         (Pos.compare_spec mx mz); cbn; try done; try lia.
Qed.

(** [sql_le] is a total preorder. *)
Lemma sql_le_total x y : sql_le x y = false → sql_le y x = true.
Proof.
  unfold sql_le, is_nan. rewrite !FloatAxioms.leb_spec, !FloatAxioms.eqb_spec.
  unfold SpecFloat.SFleb, SpecFloat.SFeqb.
  destruct (SpecFloat.SFcompare (Prim2SF x) (Prim2SF y)) as [c|] eqn:E.
  - rewrite (SFcompare_antisym _ _ _ E). destruct c; cbn; try done.
  - apply SFcompare_none in E as [->| ->]; cbn; try done.
    intros _. by rewrite orb_true_r.
Qed.

Lemma sql_le_trans x y z :
  sql_le x y = true → sql_le y z = true → sql_le x z = true.
Proof.
  unfold sql_le, is_nan. rewrite !FloatAxioms.leb_spec, !FloatAxioms.eqb_spec.
  intros Hxy Hyz.
  destruct (SpecFloat.SFleb (Prim2SF y) (Prim2SF z)) eqn:E2.
  - destruct (SpecFloat.SFleb (Prim2SF x) (Prim2SF y)) eqn:E1.
    + by rewrite (SFleb_trans _ _ _ E1 E2).
    + cbn in Hxy. apply negb_true_iff in Hxy.
      exfalso. unfold SpecFloat.SFleb, SpecFloat.SFeqb in *.
      destruct (Prim2SF y) as [sy|sy| |sy my ey]; cbn in *; try done.
      * by destruct sy.
      * rewrite Z.compare_refl, Pos.compare_cont_refl in Hxy. by destruct sy.
  - cbn in Hyz. rewrite Hyz. apply orb_true_r.
Qed.

Lemma insert_sorted_sorted {A} (le : A → A → bool) (x : A) (l : list A) :
  (∀ a b, le a b = false → le b a = true) →
  (∀ a b c, le a b = true → le b c = true → le a c = true) →
  StronglySorted (λ a b, le a b = true) l →
  StronglySorted (λ a b, le a b = true) (insert_sorted le x l).
Proof.
  intros Htotal Htrans. induction 1 as [|y l Hl IH Hy]; cbn [insert_sorted].
  - by repeat constructor.
  - destruct (le x y) eqn:E.
    + constructor; [by constructor |]. constructor; [done |].
      eapply Forall_impl; [exact Hy |]. cbn. intros z Hz. by eapply Htrans.
    + constructor; [done |].
      rewrite (insert_sorted_perm le x l). constructor; [by apply Htotal | done].
Qed.

Lemma order_by_sorted {A} (le : A → A → bool) (l : list A) :
  (∀ a b, le a b = false → le b a = true) →
  (∀ a b c, le a b = true → le b c = true → le a c = true) →
  StronglySorted (λ a b, le a b = true) (order_by le l).
Proof.
  intros Htotal Htrans. induction l as [|x l IH]; [constructor |].
  by apply insert_sorted_sorted.
Qed.

Lemma StronglySorted_lookup {A} (R : relation A) (l : list A) i j x y :
  StronglySorted R l → i < j → l !! i = Some x → l !! j = Some y → R x y.
Proof.
  intros Hs. revert i j. induction Hs as [|a l Hl IH Ha]; intros i j Hij Hi Hj;
    [done |].
  destruct j as [|j]; [lia |]. cbn in Hj. destruct i as [|i]; cbn in Hi.
  - injection Hi as ->. rewrite Forall_forall in Ha. apply Ha.
    by eapply list_elem_of_lookup_2.
  - apply (IH i j); [lia | done | done].
Qed.

Section SearchResults.

Context (cosine_distance : list float → list float → float).

(** X10: a search with a vector of the right length changes nothing and
    returns [limit] rows, or all the selected notes when there are fewer:
    each row is a selected note of the store with its distance to the
    query, the rows are in ascending order of distance, and every selected
    note that is left out is at least as far as each one returned. *)
Theorem search_returns_the_closest_notes (query_embedding : list float)
    (limit : nat) (tag_filter : option string) (db : database)
    (g : sync_outcome) :
  length query_embedding = 3072 →
  let run := search_notes_by_similarity cosine_distance query_embedding limit
               tag_filter (start db no_faults g) in
  ∃ results,
    run.1 = Return results
    ∧ conn run.2 = conn (start db no_faults g)
    ∧ length results
      = limit `min` length (filter (λ n, wanted db tag_filter n = true) (notes db))
    ∧ (∀ r, r ∈ results →
         ∃ n, n ∈ notes db ∧ wanted db tag_filter n = true
           ∧ r = {| sr_note_id := n_note_id n; sr_title := n_title n;
                    sr_content := n_content n; sr_created_at := n_created_at n;
                    sr_distance := cosine_distance (n_embedding n) query_embedding;
                    sr_tags := string_agg_tags db (n_note_id n) |})
    ∧ (∀ i j r1 r2, i < j → results !! i = Some r1 → results !! j = Some r2 →
         sql_le (sr_distance r1) (sr_distance r2) = true)
    ∧ (∀ n, n ∈ notes db → wanted db tag_filter n = true →
         (∃ r, r ∈ results ∧ sr_note_id r = n_note_id n
               ∧ sr_distance r = cosine_distance (n_embedding n) query_embedding)
         ∨ ∀ r, r ∈ results →
             sql_le (sr_distance r)
               (cosine_distance (n_embedding n) query_embedding) = true).
Proof.
  intros Hlen run. subst run. unfold search_notes_by_similarity.
  rewrite Hlen. cbn [Nat.eqb negb]. rewrite query_ok by done.
  cbn [start conn current committed txn default fst snd after].
  eexists. split; [reflexivity |]. split; [done |].
  unfold search_query.
  set (row := λ n, {| sr_note_id := n_note_id n; sr_title := n_title n;
                       sr_content := n_content n; sr_created_at := n_created_at n;
                       sr_distance := cosine_distance (n_embedding n) query_embedding;
                       sr_tags := string_agg_tags db (n_note_id n) |}).
  set (selected := match truthy_str tag_filter with
                   | Some tag =>
                       filter (λ n, tag ∈ (select_note_tags (n_note_id n) db).*2)
                         (notes db)
                   | None => notes db
                   end).
  assert (selected = filter (λ n, wanted db tag_filter n = true) (notes db)) as Hsel.
  { subst selected. unfold wanted. destruct (truthy_str tag_filter) as [tag|].
    - apply list_filter_iff. intros n. unfold tag_names_of.
      by rewrite bool_decide_eq_true.
    - symmetry. apply filter_all, Forall_forall. done. }
  set (le := λ r1 r2, sql_le (sr_distance r1) (sr_distance r2)).
  set (sorted := order_by le (row <$> selected)).
  assert (StronglySorted (λ a b, le a b = true) sorted) as Hsorted.
  { apply order_by_sorted.
    - intros a b. apply sql_le_total.
    - intros a b c. apply sql_le_trans. }
  assert (sorted ≡ₚ row <$> selected) as Hperm by apply order_by_perm.
  assert (∀ r, r ∈ sorted ↔
               ∃ n, n ∈ notes db ∧ wanted db tag_filter n = true ∧ r = row n)
    as Hin.
  { intros r. rewrite Hperm, list_elem_of_fmap, Hsel. split.
    - intros (n & -> & [Hw Hn]%list_elem_of_filter). by exists n.
    - intros (n & Hn & Hw & ->). exists n. split; [done |].
      by apply list_elem_of_filter. }
  rewrite <-(take_drop limit sorted) in Hsorted.
  apply StronglySorted_app in Hsorted as (Hcross & Htake & _).
  split_and!.
  - rewrite length_take, Hperm, length_fmap, Hsel. done.
  - intros r Hr. apply Hin.
    assert (r ∈ take limit sorted ++ drop limit sorted) as Hr'
      by (apply elem_of_app; by left).
    by rewrite take_drop in Hr'.
  - intros i j r1 r2. by apply (StronglySorted_lookup _ _ i j r1 r2 Htake).
  - intros n Hn Hw.
    assert (row n ∈ take limit sorted ++ drop limit sorted) as Hrow.
    { rewrite take_drop. apply Hin. by exists n. }
    apply elem_of_app in Hrow as [Hrow|Hrow].
    + left. by exists (row n).
    + right. intros r Hr. by apply (Hcross r (row n)).
Qed.

End SearchResults.

Lemma search_returns_the_closest_notes_witness :
  let run := search_notes_by_similarity line_distance sample_embedding 2
               (Some "py") (start sample_db no_faults synced) in
  ∃ results,
    run.1 = Return results
    ∧ conn run.2 = conn (start sample_db no_faults synced)
    ∧ length results
      = 2 `min` length (filter (λ n, wanted sample_db (Some "py") n = true)
                          (notes sample_db))
    ∧ (∀ r, r ∈ results →
         ∃ n, n ∈ notes sample_db ∧ wanted sample_db (Some "py") n = true
           ∧ r = {| sr_note_id := n_note_id n; sr_title := n_title n;
                    sr_content := n_content n; sr_created_at := n_created_at n;
                    sr_distance := line_distance (n_embedding n) sample_embedding;
                    sr_tags := string_agg_tags sample_db (n_note_id n) |})
    ∧ (∀ i j r1 r2, i < j → results !! i = Some r1 → results !! j = Some r2 →
         sql_le (sr_distance r1) (sr_distance r2) = true)
    ∧ (∀ n, n ∈ notes sample_db → wanted sample_db (Some "py") n = true →
         (∃ r, r ∈ results ∧ sr_note_id r = n_note_id n
               ∧ sr_distance r = line_distance (n_embedding n) sample_embedding)
         ∨ ∀ r, r ∈ results →
             sql_le (sr_distance r)
               (line_distance (n_embedding n) sample_embedding) = true).
Proof.
  apply (search_returns_the_closest_notes line_distance sample_embedding 2
           (Some "py") sample_db synced).
  apply length_replicate.
Defined.

(** ** The most common tag *)

Lemma max_by_count_spec (items : list (string * nat)) :
  ∀ (l1 : list (string * nat)) (best : string * nat) (mid : list (string * nat)),
  Forall (λ x, x.2 < best.2) l1 → Forall (λ x, x.2 ≤ best.2) mid →
  ∃ l1' l2',
    l1 ++ best :: mid ++ items = l1' ++ max_by_count best items :: l2'
    ∧ Forall (λ x, x.2 < (max_by_count best items).2) l1'
    ∧ Forall (λ x, x.2 ≤ (max_by_count best items).2) l2'.
Proof.
  induction items as [|x items IH]; intros l1 best mid H1 Hmid; cbn [max_by_count].
  - exists l1, mid. by rewrite app_nil_r.
  - destruct (Nat.ltb_spec best.2 x.2) as [Hlt|Hge].
    + destruct (IH (l1 ++ best :: mid) x []) as (l1' & l2' & Heq & Hl1 & Hl2).
      * apply Forall_app. split.
        -- eapply Forall_impl; [exact H1 |]. cbn. intros; lia.
        -- apply Forall_cons. split; [done |].
           eapply Forall_impl; [exact Hmid |]. cbn. intros; lia.
      * done.
      * exists l1', l2'. split; [| done]. rewrite <-Heq.
        by rewrite <-!app_assoc.
    + destruct (IH l1 best (mid ++ [x])) as (l1' & l2' & Heq & Hl1 & Hl2).
      * done.
      * apply Forall_app. split; [done |]. by apply Forall_singleton.
      * exists l1', l2'. split; [| done]. rewrite <-Heq.
        by rewrite <-!app_assoc.
Qed.

(** X12: the most common tag of a suggestion is the first of the tags
    with the highest count, in the order in which the tags were first met;
    without a keep tag (or with the empty one) [get_other_tags] lists all
    the other tags, and there is one at least. *)
Theorem most_common_tag_is_the_first_most_used (clusters : list (list Note.t))
    (s : Suggestion.t) :
  s ∈ find_tag_normalization_suggestions clusters →
  ∃ n before after,
    Suggestion.tags s = before ++ (Suggestion.most_common_tag s, n) :: after
    ∧ Forall (λ x, x.2 < n) before
    ∧ Forall (λ x, x.2 ≤ n) after
    ∧ (Suggestion.most_common_tag s ≠ EmptyString →
       ∀ keep, keep ∈ [None; Some EmptyString;
                        Some (Suggestion.most_common_tag s)] →
         get_other_tags s keep = (before ++ after).*1)
    ∧ before ++ after ≠ [].
Proof.
  intros (c & _ & Hlen & ->)%elem_of_suggestions.
  cbn [Suggestion.tags Suggestion.most_common_tag].
  rewrite <-count_tags_length in Hlen.
  pose proof (count_tags_NoDup c) as Hnd.
  destruct (count_tags c) as [|x items] eqn:E; [cbn in Hlen; lia |].
  destruct (max_by_count_spec items [] x []) as (before & after & Heq & Hb & Ha);
    [done | done |].
  cbn [app] in Heq. unfold most_common.
  destruct (max_by_count x items) as [t n]. cbn [fst snd] in *.
  exists n, before, after.
  split_and!; [done | done | done | |].
  - intros Hne keep Hkeep.
    assert (default t (truthy_str keep) = t) as Hdef.
    { rewrite !elem_of_cons in Hkeep.
      destruct Hkeep as [->|[->|[->|Hk]]]; [done | done | |].
      - destruct t as [|a t']; done.
      - by apply elem_of_nil in Hk. }
    unfold get_other_tags. cbn [Suggestion.tags Suggestion.most_common_tag].
    rewrite Hdef. rewrite Heq in Hnd |- *.
    rewrite !fmap_app, !fmap_cons in Hnd |- *. cbn [fst] in *.
    apply NoDup_app in Hnd as (_ & Hbt & [Hta _]%NoDup_cons).
    rewrite filter_app, filter_cons, decide_False by (by intros ?).
    rewrite !filter_all; [by rewrite fmap_app | |].
    + apply Forall_forall. intros k Hk ->. done.
    + apply Forall_forall. intros k Hk ->. apply (Hbt t Hk). by left.
  - intros Hnil. rewrite Heq in Hlen. rewrite length_app in Hlen. cbn in Hlen.
    apply app_eq_nil in Hnil as [-> ->]. cbn in Hlen. lia.
Qed.

Lemma most_common_tag_is_the_first_most_used_witness :
  ∃ n before after,
    Suggestion.tags sample_suggestion
    = before ++ (Suggestion.most_common_tag sample_suggestion, n) :: after
    ∧ Forall (λ x, x.2 < n) before
    ∧ Forall (λ x, x.2 ≤ n) after
    ∧ (Suggestion.most_common_tag sample_suggestion ≠ EmptyString →
       ∀ keep, keep ∈ [None; Some EmptyString;
                        Some (Suggestion.most_common_tag sample_suggestion)] →
         get_other_tags sample_suggestion keep = (before ++ after).*1)
    ∧ before ++ after ≠ [].
Proof.
  apply (most_common_tag_is_the_first_most_used sample_clusters sample_suggestion).
  vm_compute. left.
Defined.

(** ** The SQL backdoor *)

Section BackdoorProofs.

Context (extract_statements : string → exn + list StatementType).
Context (run_sql : string → database
                   → outcome (list (list (option string)) * option (list string))
                     * database).

Lemma first_disallowed_spec (statements : list StatementType) :
  match first_disallowed statements with
  | Some t => t ∈ statements ∧ (t ∉ allowed_types)
  | None => Forall (λ t, t ∈ allowed_types) statements
  end.
Proof.
  unfold first_disallowed.
  destruct (filter (λ t, t ∉ allowed_types) statements) as [|t l] eqn:E; cbn.
  - apply Forall_forall. intros t Ht.
    destruct (decide (t ∈ allowed_types)) as [|Hn]; [done |].
    assert (t ∈ filter (λ t, t ∉ allowed_types) statements) as Hin
      by (by apply list_elem_of_filter).
    rewrite E in Hin. by apply elem_of_nil in Hin.
  - assert (t ∈ filter (λ t, t ∉ allowed_types) statements) as
      [Hn Hin]%list_elem_of_filter by (rewrite E; left).
    done.
Qed.

Lemma check_statements_parsed (query : string)
    (statements : list StatementType) (w : world) :
  extract_statements query = inr statements →
  check_statements extract_statements query w
  = match statements with
    | [] => (Return None, (echo "Error: No valid SQL statement found." w).2)
    | _ =>
        match first_disallowed statements with
        | Some t =>
            (Return None,
             ((echo ("Error: Statement type '" +:+ type_name t
                     +:+ "' is not allowed for safety reasons.");;
               echo "Only SELECT, INSERT, UPDATE, DELETE, and EXPLAIN statements are permitted.")
                w).2)
        | None => (Return (Some (is_readonly_query statements)), w)
        end
    end.
Proof.
  intros Hparse. unfold check_statements. rewrite Hparse.
  unfold mbind, M_bind, bind, mret, M_ret, ret. cbn beta iota.
  destruct statements as [|s0 rest]; [done |].
  by destruct (first_disallowed (s0 :: rest)).
Qed.

(** X14: a query with a statement of a type that is not allowed is not
    run, the connection and stderr are as before and the two lines of the
    refusal are printed; but the [return] of line 67 leaves through the
    [finally] block before [is_readonly] is assigned, so the command ends
    with an [UnboundLocalError] instead of returning. *)
Theorem disallowed_statement_is_never_executed (query : string)
    (statements : list StatementType) (w : world) :
  extract_statements query = inr statements →
  Exists (λ t, t ∉ allowed_types) statements →
  let run := notes_sql_backdoor extract_statements run_sql query w in
  run.1 = Raise (UnboundLocalError "is_readonly")
  ∧ conn run.2 = conn w
  ∧ stderr run.2 = stderr w
  ∧ ∃ t, t ∈ statements ∧ (t ∉ allowed_types)
      ∧ stdout run.2
        = stdout w
          ++ ["Error: Statement type '" +:+ type_name t
              +:+ "' is not allowed for safety reasons.";
              "Only SELECT, INSERT, UPDATE, DELETE, and EXPLAIN statements are permitted."].
Proof.
  intros Hparse Hex run. subst run.
  unfold notes_sql_backdoor. rewrite (check_statements_parsed _ _ _ Hparse).
  pose proof (first_disallowed_spec statements) as Hfd.
  destruct statements as [|s0 rest]; [by inversion Hex |].
  destruct (first_disallowed (s0 :: rest)) as [t|].
  - destruct Hfd as [Hin Hn]. cbn. split_and!; try done. exists t.
    split_and!; [done | done |].
    unfold mbind, M_bind, bind, echo. cbn. by rewrite <-app_assoc.
  - apply Exists_exists in Hex as (t & Hin & Hn).
    rewrite Forall_forall in Hfd. by destruct (Hn (Hfd t Hin)).
Qed.

Lemma execute_sql_git query w g :
  execute_sql run_sql query (with_git_sync w g)
  = ((execute_sql run_sql query w).1,
     with_git_sync (execute_sql run_sql query w).2 g).
Proof.
  unfold execute_sql. cbn. by destruct (run_sql query (current (conn w))).
Qed.

Lemma echo_git s w g :
  echo s (with_git_sync w g) = ((echo s w).1, with_git_sync (echo s w).2 g).
Proof. done. Qed.

Lemma bind_git {A B} (m : M A) (k : A → M B) w g :
  m (with_git_sync w g) = ((m w).1, with_git_sync (m w).2 g) →
  (∀ a w', k a (with_git_sync w' g) = ((k a w').1, with_git_sync (k a w').2 g)) →
  (m ≫= k) (with_git_sync w g)
  = (((m ≫= k) w).1, with_git_sync ((m ≫= k) w).2 g).
Proof.
  intros Hm Hk. unfold mbind, M_bind, bind. rewrite Hm.
  destruct (m w) as [[a|e] w']; cbn [fst snd]; [apply Hk | done].
Qed.

Lemma echo_rows_git (results : list (list (option string))) w g :
  for_each results (λ row (_ : unit), echo (format_row row)) tt (with_git_sync w g)
  = ((for_each results (λ row (_ : unit), echo (format_row row)) tt w).1,
     with_git_sync
       (for_each results (λ row (_ : unit), echo (format_row row)) tt w).2 g).
Proof.
  revert w. induction results as [|row results IH]; intros w; [done |].
  cbn [for_each]. apply bind_git; [apply echo_git |]. intros [] w'. apply IH.
Qed.

Lemma run_query_git query w g :
  run_query run_sql true query (with_git_sync w g)
  = ((run_query run_sql true query w).1,
     with_git_sync (run_query run_sql true query w).2 g).
Proof.
  unfold run_query. cbn iota. apply bind_git; [apply execute_sql_git |].
  intros [results description] w'. destruct results as [|r0 results];
    [apply echo_git |].
  repeat (apply bind_git; [apply echo_git || apply echo_rows_git | intros [] ?]).
  apply echo_git.
Qed.

(** X15: a query made of [SELECT] and [EXPLAIN] statements only never
    calls the push to GitHub: the run is the same whatever the push would
    do. *)
Theorem readonly_query_never_pushes (query : string)
    (statements : list StatementType) (w : world) (g : sync_outcome) :
  extract_statements query = inr statements →
  statements ≠ [] →
  Forall (λ t, t ∈ [SELECT; EXPLAIN]) statements →
  notes_sql_backdoor extract_statements run_sql query (with_git_sync w g)
  = ((notes_sql_backdoor extract_statements run_sql query w).1,
     with_git_sync (notes_sql_backdoor extract_statements run_sql query w).2 g).
Proof.
  intros Hparse Hne Hro.
  unfold notes_sql_backdoor. rewrite !(check_statements_parsed _ _ _ Hparse).
  destruct statements as [|s0 rest]; [done |].
  pose proof (first_disallowed_spec (s0 :: rest)) as Hfd.
  destruct (first_disallowed (s0 :: rest)) as [t|].
  { destruct Hfd as [Hin Hn]. rewrite Forall_forall in Hro.
    specialize (Hro t Hin). destruct Hn. unfold allowed_types. set_solver. }
  assert (is_readonly_query (s0 :: rest) = true) as ->.
  { unfold is_readonly_query. apply forallb_forall. intros t Ht.
    apply bool_decide_eq_true. rewrite Forall_forall in Hro. apply Hro.
    by apply list_elem_of_In. }
  unfold try_finally, try_except. rewrite run_query_git.
  destruct (run_query run_sql true query w) as [[[]|e] w1]; done.
Qed.

(** X16: for an allowed query with a statement other than [SELECT] and
    [EXPLAIN], what the engine did is what is stored, and the command goes
    on to the push to GitHub whether the query succeeded or raised (the
    error is then reported on stderr). *)
Theorem modifying_query_is_pushed_even_when_it_fails (query : string)
    (statements : list StatementType) (db : database) (f : nat → option exn)
    (g : sync_outcome) :
  extract_statements query = inr statements →
  Forall (λ t, t ∈ allowed_types) statements →
  Exists (λ t, t ∉ [SELECT; EXPLAIN]) statements →
  let run := notes_sql_backdoor extract_statements run_sql query (start db f g) in
  stored run = (run_sql query db).2
  ∧ (nl +:+ "--- GitHub Synchronization ---") ∈ stdout run.2
  ∧ match (run_sql query db).1 with
    | Return _ => "Query executed successfully." ∈ stdout run.2
    | Raise e => ("Error executing SQL: " +:+ str e) ∈ stderr run.2
    end.
Proof.
  intros Hparse Hall Hmod run. subst run.
  unfold notes_sql_backdoor. rewrite (check_statements_parsed _ _ _ Hparse).
  destruct statements as [|s0 rest]; [by inversion Hmod |].
  pose proof (first_disallowed_spec (s0 :: rest)) as Hfd.
  destruct (first_disallowed (s0 :: rest)) as [t|].
  { destruct Hfd as [Hin Hn]. rewrite Forall_forall in Hall. by destruct (Hn (Hall t Hin)). }
  assert (is_readonly_query (s0 :: rest) = false) as ->.
  { apply not_true_is_false. unfold is_readonly_query. rewrite forallb_forall.
    intros Hro. apply Exists_exists in Hmod as (t & Hin & Hn). apply Hn.
    eapply bool_decide_eq_true_1, Hro. by apply list_elem_of_In. }
  unfold try_finally, try_except, run_query, finally_block, execute_sql.
  unfold mbind, M_bind, bind, echo, echo_err, sync_database_to_github, close, stored.
  cbn [start conn current committed txn default write set_conn negb git_sync
       stdout stderr executed faults].
  destruct (run_sql query db) as [[[results description]|e] db'];
    destruct g as [[] message|e']; cbn; split_and!; try done;
    rewrite ?elem_of_app, ?elem_of_cons; tauto.
Qed.

End BackdoorProofs.

Lemma disallowed_statement_is_never_executed_witness :
  let run := notes_sql_backdoor sample_parser sample_engine "DROP TABLE notes"
               (start sample_db no_faults synced) in
  run.1 = Raise (UnboundLocalError "is_readonly")
  ∧ conn run.2 = conn (start sample_db no_faults synced)
  ∧ stderr run.2 = stderr (start sample_db no_faults synced)
  ∧ ∃ t, t ∈ [OtherStatement "DROP"] ∧ (t ∉ allowed_types)
      ∧ stdout run.2
        = stdout (start sample_db no_faults synced)
          ++ ["Error: Statement type '" +:+ type_name t
              +:+ "' is not allowed for safety reasons.";
              "Only SELECT, INSERT, UPDATE, DELETE, and EXPLAIN statements are permitted."].
Proof.
  apply (disallowed_statement_is_never_executed sample_parser sample_engine
           "DROP TABLE notes" [OtherStatement "DROP"]
           (start sample_db no_faults synced)).
  - reflexivity.
  - apply (bool_decide_unpack _). vm_compute. exact I.
Defined.

Lemma readonly_query_never_pushes_witness :
  notes_sql_backdoor sample_parser sample_engine "SELECT 1"
    (with_git_sync (start sample_db no_faults synced)
       (SyncRaises (ValueError "no remote")))
  = ((notes_sql_backdoor sample_parser sample_engine "SELECT 1"
        (start sample_db no_faults synced)).1,
     with_git_sync
       (notes_sql_backdoor sample_parser sample_engine "SELECT 1"
          (start sample_db no_faults synced)).2
       (SyncRaises (ValueError "no remote"))).
Proof.
  apply (readonly_query_never_pushes sample_parser sample_engine "SELECT 1"
           [SELECT] (start sample_db no_faults synced)
           (SyncRaises (ValueError "no remote"))).
  - reflexivity.
  - discriminate.
  - apply (bool_decide_unpack _). vm_compute. exact I.
Defined.

Lemma modifying_query_is_pushed_even_when_it_fails_witness :
  let run := notes_sql_backdoor sample_parser sample_engine "DELETE FROM note_tags"
               (start sample_db no_faults synced) in
  stored run = (sample_engine "DELETE FROM note_tags" sample_db).2
  ∧ (nl +:+ "--- GitHub Synchronization ---") ∈ stdout run.2
  ∧ match (sample_engine "DELETE FROM note_tags" sample_db).1 with
    | Return _ => "Query executed successfully." ∈ stdout run.2
    | Raise e => ("Error executing SQL: " +:+ str e) ∈ stderr run.2
    end.
Proof.
  apply (modifying_query_is_pushed_even_when_it_fails sample_parser sample_engine
           "DELETE FROM note_tags" [DELETE] sample_db no_faults synced).
  - reflexivity.
  - apply (bool_decide_unpack _). vm_compute. exact I.
  - apply (bool_decide_unpack _). vm_compute. exact I.
Defined.

(** ** The guard against an empty list of ids *)

Lemma parse_note_ids_nonempty (note_ids : string) (l : list Z) :
  parse_note_ids note_ids = Some l → l ≠ [].
Proof.
  unfold parse_note_ids. intros H%length_mapM Hnil. subst l.
  pose proof (split_nonempty ","%char note_ids) as Hs.
  by destruct (split ","%char note_ids).
Qed.

(** X6: when the checkout is not behind, the command either reports the
    format error or hands the parsed lists to the normalization: the test
    of line 40 for an empty list of ids never succeeds, since [split]
    returns one item at least; an empty [--note-ids] is a format error. *)
Theorem empty_id_list_guard_never_fires (note_ids keep_tag replace_tags : string)
    (w : world) :
  apply_tag_normalization_command false note_ids keep_tag replace_tags w
  = match parse_note_ids note_ids with
    | Some note_id_list =>
        apply_tag_normalization note_id_list keep_tag
          (parse_replace_tags replace_tags) w
    | None =>
        echo_err
          "Error: Invalid format for note IDs or tags. Use comma-separated values."
          w
    end
  ∧ parse_note_ids note_ids ≠ Some []
  ∧ parse_note_ids EmptyString = None.
Proof.
  split_and!; [| | done].
  - unfold apply_tag_normalization_command.
    destruct (parse_note_ids note_ids) as [l|] eqn:E; [| done].
    apply parse_note_ids_nonempty in E. by destruct l.
  - intros E. by apply parse_note_ids_nonempty in E.
Qed.

(** ** The [add_note] command *)

Lemma after_start_conn w k db out :
  txn (conn w) = None →
  conn (after w k db out) = {| committed := db; txn := None |}.
Proof. intros H. unfold after, write. cbn. by rewrite H. Qed.

Lemma add_note_ok title content embedding tags w :
  fault_free w → txn (conn w) = None → length embedding = 3072 →
  ∃ k, add_note title content embedding tags w
       = (Return (note_id_seq (committed (conn w))),
          after w k
            (note_added title content embedding tags (committed (conn w))) []).
Proof.
  intros Hff Htxn Hlen. unfold add_note. rewrite Hlen. cbn [Nat.eqb negb].
  set (db := committed (conn w)).
  set (w0 := set_conn w {| committed := db; txn := Some db |}).
  assert (begin_transaction w = (Return tt, w0)) as Hb by (by rewrite begin_ok).
  assert (fault_free w0) as Hff0 by exact Hff.
  set (w1 := after w0 1 (insert_note title content embedding db).2 []).
  destruct (link_loop_ok (note_id_seq db) (truthy_list tags) w1) as [k Hloop];
    [exact Hff |].
  exists (k + 1).
  erewrite bind_return by exact Hb.
  unfold try_except.
  erewrite bind_return by (by apply execute_ok).
  change (current (conn w0)) with db. cbn [insert_note fst snd]. cbn beta.
  erewrite bind_return by exact Hloop.
  unfold mbind, M_bind, bind, commit, w1, w0, note_added, after, write, set_conn.
  cbn. rewrite Htxn. cbn. rewrite app_nil_r. do 2 f_equal. lia.
Qed.

Lemma quiet_bind {A B} (m : M A) (k : A → M B) :
  quiet m → (∀ a, quiet (k a)) → quiet (m ≫= k).
Proof.
  intros Hm Hk w. unfold mbind, M_bind, bind. specialize (Hm w).
  destruct (m w) as [[a|e] w']; [| done]. cbn [snd] in Hm.
  destruct (Hk a w') as (-> & -> & ->). done.
Qed.

Lemma quiet_ret {A} (a : A) : quiet (mret a).
Proof. done. Qed.

Lemma quiet_raise {A} (e : exn) : quiet (raise (A := A) e).
Proof. done. Qed.

Lemma quiet_execute {A} (stmt : database → A * database) : quiet (execute stmt).
Proof.
  intros w. unfold execute. destruct (faults w (executed w)); [done |].
  by destruct (stmt (current (conn w))).
Qed.

Lemma quiet_for_each {A S} (l : list A) (body : A → S → M S) (s : S) :
  (∀ x s, quiet (body x s)) → quiet (for_each l body s).
Proof.
  intros Hbody. revert s. induction l as [|x l IH]; intros s; cbn [for_each].
  - apply quiet_ret.
  - apply quiet_bind; [apply Hbody | intros s'; apply IH].
Qed.

Lemma quiet_begin : quiet begin_transaction.
Proof. intros w. unfold begin_transaction. by destruct (txn (conn w)). Qed.

Lemma quiet_commit : quiet commit.
Proof. intros w. unfold commit. by destruct (txn (conn w)). Qed.

Lemma quiet_rollback : quiet rollback.
Proof. intros w. unfold rollback. by destruct (txn (conn w)). Qed.

Lemma quiet_try_except {A} (body : M A) (handler : exn → M A) :
  quiet body → (∀ e, quiet (handler e)) → quiet (try_except body handler).
Proof.
  intros Hb Hh w. unfold try_except. specialize (Hb w).
  destruct (body w) as [[a|e] w']; [done |]. cbn [snd] in Hb.
  destruct (Hh e w') as (-> & -> & ->). done.
Qed.

Lemma quiet_add_note title content embedding tags :
  quiet (add_note title content embedding tags).
Proof.
  unfold add_note. case_match; [apply quiet_raise |].
  apply quiet_bind; [apply quiet_begin | intros []].
  apply quiet_try_except.
  - apply quiet_bind; [apply quiet_execute | intros note_id].
    apply quiet_bind.
    + apply quiet_for_each. intros tag []. apply quiet_bind.
      * apply quiet_bind; [apply quiet_execute |].
        intros [tid|]; [apply quiet_ret | apply quiet_execute].
      * intros tid. apply quiet_execute.
    + intros []. apply quiet_bind; [apply quiet_commit | intros []; apply quiet_ret].
  - intros e. apply quiet_bind; [apply quiet_rollback | intros []; apply quiet_raise].
Qed.

Lemma add_note_outcome title content embedding tags w :
  txn (conn w) = None →
  let run := add_note title content embedding tags w in
  txn (conn run.2) = None
  ∧ match run.1 with
    | Return note_id =>
        length embedding = 3072
        ∧ note_id = note_id_seq (committed (conn w))
        ∧ committed (conn run.2)
          = note_added title content embedding tags (committed (conn w))
    | Raise e => committed (conn run.2) = committed (conn w)
    end.
Proof.
  intros Htxn. cbn zeta. unfold add_note.
  destruct (Nat.eqb_spec (length embedding) 3072) as [Hlen|Hlen]; cbn [negb];
    [| done].
  set (db := committed (conn w)).
  set (w0 := set_conn w {| committed := db; txn := Some db |}).
  assert (begin_transaction w = (Return tt, w0)) as Hb by (by rewrite begin_ok).
  erewrite bind_return by exact Hb.
  assert (in_transaction db (stderr w) w0) as Hin
    by (split_and!; [done | by eexists | done]).
  pose proof (add_note_body title content embedding (truthy_list tags) db (stderr w)
                w0 Hin) as Hbody. cbn zeta in Hbody.
  unfold try_except.
  match type of Hbody with
  | match ?b with _ => _ end => destruct b as [[note_id|e] w1]
  end.
  - destruct Hbody as [-> Hconn]. cbn [fst snd]. rewrite Hconn. done.
  - destruct Hbody as (Hc & [d Ht] & _).
    unfold mbind, M_bind, bind, rollback, raise. rewrite Ht. cbn. done.
Qed.

Lemma echo_lines_ok {A} (l : list A) (body : A → unit → M unit)
    (line : A → string) w :
  (∀ x w, body x tt w = echo (line x) w) →
  for_each l body tt w
  = (Return tt, after w 0 (current (conn w)) (line <$> l)).
Proof.
  intros Hbody. revert w. induction l as [|x l IH]; intros w; cbn [for_each].
  - unfold mret, M_ret, ret. by rewrite after_nothing.
  - erewrite bind_return by (rewrite Hbody; apply echo_ok). rewrite IH.
    by rewrite current_after, after_after.
Qed.

Lemma display_database_stats_ok now w :
  fault_free w →
  ∃ k out,
    display_database_stats now w
    = (Return tt,
       after w k (current (conn w))
         ([nl +:+ "--- Database Statistics ---";
           "Total notes: " +:+ pretty (length (notes (current (conn w))))]
          ++ out)).
Proof.
  intros Hff. unfold display_database_stats.
  set (db := current (conn w)).
  erewrite bind_return by apply echo_ok.
  erewrite bind_return by (apply query_ok; by apply fault_free_after).
  rewrite current_after, after_after.
  erewrite bind_return by apply echo_ok.
  rewrite current_after, after_after.
  erewrite bind_return by (apply query_ok; by apply fault_free_after).
  rewrite current_after, after_after.
  erewrite bind_return by apply echo_ok.
  rewrite current_after, after_after.
  erewrite bind_return by (apply query_ok; by apply fault_free_after).
  rewrite current_after, after_after.
  erewrite bind_return by apply echo_ok.
  rewrite current_after, after_after. fold db.
  destruct (Nat.ltb 0 (length (tags db))).
  - erewrite bind_return.
    2:{ erewrite bind_return by (apply query_ok; by apply fault_free_after).
        rewrite current_after, after_after.
        erewrite bind_return by apply echo_ok.
        rewrite current_after, after_after.
        apply (echo_lines_ok _ _
                 (λ '(tag_name, count),
                    "  - " +:+ tag_name +:+ ": " +:+ pretty count +:+ " note(s)")).
        by intros [tag_name count] w'. }
    rewrite current_after, after_after, echo_ok, current_after, after_after.
    rewrite <-!app_assoc. cbn [app]. eexists _, _. reflexivity.
  - erewrite bind_return by reflexivity.
    rewrite echo_ok, current_after, after_after.
    rewrite <-!app_assoc. cbn [app]. eexists _, _. reflexivity.
Qed.

Section NoteIsIn.

Context (db : database) (line : string).

Lemma stays_bind {A B} (m : M A) (k : A → M B) :
  preserves (note_is_in db line) m →
  (∀ a, preserves (note_is_in db line) (k a)) →
  preserves (note_is_in db line) (m ≫= k).
Proof.
  intros Hm Hk w Hw. unfold mbind, M_bind, bind.
  specialize (Hm w Hw). destruct (m w) as [[a|e] w']; [by apply Hk | done].
Qed.

Lemma stays_ret {A} (a : A) : preserves (note_is_in db line) (mret a).
Proof. by intros w Hw. Qed.

Lemma stays_echo s : preserves (note_is_in db line) (echo s).
Proof.
  intros w [Hc Hl]. split; [done |]. cbn. apply elem_of_app. by left.
Qed.

Lemma stays_echo_err s : preserves (note_is_in db line) (echo_err s).
Proof. by intros w [Hc Hl]. Qed.

Lemma stays_query {A} (q : database → A) :
  preserves (note_is_in db line) (query q).
Proof.
  intros w [Hc Hl]. unfold query, execute.
  destruct (faults w (executed w)); [done |].
  split; [| done]. cbn. by rewrite Hc.
Qed.

Lemma stays_for_each {A S} (l : list A) (body : A → S → M S) (s : S) :
  (∀ x s, preserves (note_is_in db line) (body x s)) →
  preserves (note_is_in db line) (for_each l body s).
Proof.
  intros Hbody. revert s. induction l as [|x l IH]; intros s; cbn [for_each].
  - apply stays_ret.
  - apply stays_bind; [apply Hbody | intros s'; apply IH].
Qed.

Lemma stays_sync : preserves (note_is_in db line) sync_database_to_github.
Proof. intros w Hw. unfold sync_database_to_github. by destruct (git_sync w). Qed.

Lemma stays_display_database_stats now :
  preserves (note_is_in db line) (display_database_stats now).
Proof.
  unfold display_database_stats.
  repeat first
    [ apply stays_echo | apply stays_query | apply stays_ret
    | apply stays_bind; [| intros ?]
    | case_match ].
  apply stays_for_each. intros [tag_name count] []. apply stays_echo.
Qed.

End NoteIsIn.

Section AddNoteCommandProofs.

Context (get_embedding : string → exn + list float).

(** X17: once the embedding is there, the command returns without an
    exception and without an open transaction, whatever fails: either the
    stored data are as before, nothing is printed beyond the two status
    lines and stderr holds the one line of the error, or the embedding has
    3072 numbers, the note is stored with its tag and its id has been
    announced. *)
Theorem add_note_command_stores_or_reports db f g message now title content tag
    embedding :
  get_embedding content = inr embedding →
  let run := add_note_command get_embedding false message now title content tag
               (start db f g) in
  run.1 = Return tt ∧ txn (conn run.2) = None
  ∧ ((stored run = db
      ∧ stdout run.2 = ["Checking Git repository status...";
                        "Git repository is up to date."]
      ∧ ∃ e, stderr run.2 = ["Error adding note: " +:+ str e])
     ∨ (length embedding = 3072
        ∧ stored run
          = note_added title content embedding (Some (tag_argument tag)) db
        ∧ "Note added successfully with ID: " +:+ pretty (note_id_seq db)
          ∈ stdout run.2)).
Proof.
  intros Hemb. cbn zeta. unfold add_note_command. rewrite Hemb.
  erewrite bind_return by apply echo_ok.
  erewrite bind_return by apply echo_ok.
  erewrite bind_return by reflexivity.
  rewrite !current_after, after_after.
  set (w := after _ _ _ _).
  assert (txn (conn w) = None) as Htxn by done.
  pose proof (add_note_outcome title content embedding (Some (tag_argument tag)) w
                Htxn) as Hadd.
  pose proof (quiet_add_note title content embedding (Some (tag_argument tag)) w)
    as (Hout & Herr & Hgit).
  cbn zeta in Hadd. unfold try_finally, try_except.
  destruct (add_note _ _ _ _ w) as [[note_id|e] w1] eqn:Hrun; cbn [fst snd] in *.
  - destruct Hadd as (Ht1 & Hlen & -> & Hc1).
    set (line := "Note added successfully with ID: "
                 +:+ pretty (note_id_seq (committed (conn w)))).
    set (db1 := note_added title content embedding (Some (tag_argument tag))
                  (committed (conn w))) in *.
    erewrite bind_return by exact Hrun.
    erewrite bind_return by apply echo_ok. cbn beta.
    set (w2 := after w1 0 (current (conn w1)) [line]).
    assert (note_is_in db1 line w2) as Hw2.
    { split; [| apply elem_of_app; right; by apply list_elem_of_singleton].
      unfold w2, after, write, current. cbn. rewrite Ht1. cbn. by rewrite Hc1. }
    match goal with
    | |- context[(display_database_stats now ≫= ?k) ?w'] =>
        set (rest := display_database_stats now ≫= k); change w' with w2
    end.
    assert (preserves (note_is_in db1 line) rest) as Hrest.
    { unfold rest.
      repeat first
        [ apply stays_echo | apply stays_echo_err | apply stays_query
        | apply stays_ret | apply stays_sync | apply stays_display_database_stats
        | apply stays_bind; [| intros ?]
        | case_match ]. }
    specialize (Hrest w2 Hw2). clearbody rest.
    destruct (rest w2) as [[[]|e] w3]; destruct Hrest as [Hc3 Hl3]; cbn [snd] in *.
    + unfold close, stored. cbn. rewrite Hc3. cbn. split_and!; [done.. |].
      right. done.
    + unfold close, echo_err, stored. cbn. rewrite Hc3. cbn. split_and!; [done.. |].
      right. done.
  - destruct Hadd as [Ht1 Hc1]. erewrite bind_raise by exact Hrun.
    unfold close, echo_err, stored. cbn. split_and!; [done.. |].
    left. rewrite Hc1, Hout, Herr. split_and!; [done | done |]. by exists e.
Qed.

(** X18: without storage failures the note is committed before the push
    to GitHub is tried: it is stored and counted in the statistics whatever
    the push does; when the push raises, the command still reports
    "Error adding note", and when it returns a failure, "GitHub sync". *)
Theorem note_is_stored_before_the_push db g message now title content tag
    embedding :
  get_embedding content = inr embedding → length embedding = 3072 →
  let run := add_note_command get_embedding false message now title content tag
               (start db no_faults g) in
  run.1 = Return tt
  ∧ stored run = note_added title content embedding (Some (tag_argument tag)) db
  ∧ "Total notes: " +:+ pretty (S (length (notes db))) ∈ stdout run.2
  ∧ stderr run.2 = match g with
                   | SyncRaises e => ["Error adding note: " +:+ str e]
                   | SyncReturns true _ => []
                   | SyncReturns false message => ["GitHub sync: " +:+ message]
                   end.
Proof.
  intros Hemb Hlen. cbn zeta. unfold add_note_command. rewrite Hemb.
  erewrite bind_return by apply echo_ok.
  erewrite bind_return by apply echo_ok.
  erewrite bind_return by reflexivity.
  rewrite !current_after, after_after.
  set (w := after _ _ _ _).
  assert (txn (conn w) = None) as Htxn by done.
  assert (fault_free w) as Hff by done.
  destruct (add_note_ok title content embedding (Some (tag_argument tag)) w
              Hff Htxn Hlen) as [k Hrun].
  change (committed (conn w)) with db in Hrun.
  set (db1 := note_added title content embedding (Some (tag_argument tag)) db) in *.
  assert (length (notes db1) = S (length (notes db))) as Hnotes.
  { unfold db1, note_added. rewrite link_tags_notes. cbn.
    rewrite length_app. cbn. lia. }
  unfold try_finally, try_except.
  erewrite bind_return by exact Hrun.
  erewrite bind_return by apply echo_ok.
  rewrite current_after, after_after.
  match goal with |- context[after w ?k ?d ?o] => set (w2 := after w k d o) end.
  destruct (display_database_stats_ok now w2) as (k2 & out & Hstats);
    [by apply fault_free_after |].
  erewrite bind_return by exact Hstats.
  unfold w2. rewrite current_after, after_after, Hnotes.
  erewrite bind_return by apply echo_ok.
  rewrite current_after, after_after.
  unfold mbind, M_bind, bind, sync_database_to_github.
  cbn [git_sync after w start].
  destruct g as [[] msg|e]; cbn; [| destruct (decide _); cbn |];
    (split_and!; [done | done | | done]);
    do 4 apply list_elem_of_further; apply list_elem_of_here.
Qed.

End AddNoteCommandProofs.

Lemma add_note_command_stores_or_reports_witness :
  let run := add_note_command (λ _, inr sample_embedding) false EmptyString 0 "T" "text"
               (Some "ml") (start sample_db (fails_at 2) synced) in
  run.1 = Return tt ∧ txn (conn run.2) = None
  ∧ ((stored run = sample_db
      ∧ stdout run.2 = ["Checking Git repository status...";
                        "Git repository is up to date."]
      ∧ ∃ e, stderr run.2 = ["Error adding note: " +:+ str e])
     ∨ (length sample_embedding = 3072
        ∧ stored run
          = note_added "T" "text" sample_embedding
              (Some (tag_argument (Some "ml"))) sample_db
        ∧ "Note added successfully with ID: " +:+ pretty (note_id_seq sample_db)
          ∈ stdout run.2)).
Proof.
  apply (add_note_command_stores_or_reports (λ _, inr sample_embedding) sample_db
           (fails_at 2) synced EmptyString 0%Z "T" "text" (Some "ml") sample_embedding).
  reflexivity.
Defined.

Lemma note_is_stored_before_the_push_witness :
  let run := add_note_command (λ _, inr sample_embedding) false EmptyString 0 "T" "text"
               (Some "ml")
               (start sample_db no_faults (SyncRaises (ValueError "no remote"))) in
  run.1 = Return tt
  ∧ stored run
    = note_added "T" "text" sample_embedding (Some (tag_argument (Some "ml")))
        sample_db
  ∧ "Total notes: " +:+ pretty (S (length (notes sample_db))) ∈ stdout run.2
  ∧ stderr run.2 = ["Error adding note: " +:+ str (ValueError "no remote")].
Proof.
  apply (note_is_stored_before_the_push (λ _, inr sample_embedding) sample_db
           (SyncRaises (ValueError "no remote")) EmptyString 0%Z "T" "text" (Some "ml")
           sample_embedding).
  - reflexivity.
  - apply length_replicate.
Defined.

(** ** The size filter and the colours of the tags *)

Lemma ascii_compare_refl (c : ascii) : Ascii.compare c c = Eq.
Proof. unfold Ascii.compare. apply N.compare_refl. Qed.

Lemma string_compare_refl (s : string) : String.compare s s = Eq.
Proof.
  induction s as [|c s IH]; [done |]. cbn. by rewrite ascii_compare_refl.
Qed.

Lemma string_compare_trans (s1 s2 s3 : string) :
  String.compare s1 s2 = Lt → String.compare s2 s3 = Lt →
  String.compare s1 s3 = Lt.
Proof.
  revert s2 s3. induction s1 as [|c1 s1 IH]; intros [|c2 s2] [|c3 s3]; cbn;
    try done.
  unfold Ascii.compare.
  destruct (N.compare_spec (N_of_ascii c1) (N_of_ascii c2)) as [E12|L12|G12];
    destruct (N.compare_spec (N_of_ascii c2) (N_of_ascii c3)) as [E23|L23|G23];
    try done; intros H12 H23.
  - rewrite E12, E23, N.compare_refl. by eapply IH.
  - rewrite E12. apply N.compare_lt_iff in L23. by rewrite L23.
  - rewrite <-E23. apply N.compare_lt_iff in L12. by rewrite L12.
  - assert (N_of_ascii c1 < N_of_ascii c3)%N as L by lia.
    apply N.compare_lt_iff in L. by rewrite L.
Qed.

Lemma string_leb_cases (s1 s2 : string) :
  String.leb s1 s2 = true ↔ s1 = s2 ∨ String.compare s1 s2 = Lt.
Proof.
  unfold String.leb. split.
  - destruct (String.compare s1 s2) eqn:E; [| by right | done].
    left. by apply String.compare_eq_iff.
  - intros [-> | Hlt]; [by rewrite string_compare_refl | by rewrite Hlt].
Qed.

Lemma string_leb_trans (s1 s2 s3 : string) :
  String.leb s1 s2 = true → String.leb s2 s3 = true → String.leb s1 s3 = true.
Proof.
  rewrite !string_leb_cases. intros [-> | H12] [-> | H23]; eauto.
  right. by eapply string_compare_trans.
Qed.

Lemma string_leb_total (s1 s2 : string) :
  String.leb s1 s2 = false → String.leb s2 s1 = true.
Proof. destruct (String.leb_total s1 s2) as [H|H]; congruence. Qed.

#[local] Instance string_leb_antisymm :
  AntiSymm (=) (λ s1 s2, String.leb s1 s2 = true).
Proof. intros s1 s2 H12 H21. by apply String.leb_antisym. Qed.

Lemma sorted_perm (l1 l2 : list string) : l1 ≡ₚ l2 → sorted l1 = sorted l2.
Proof.
  intros Hp.
  apply (StronglySorted_unique (λ s1 s2, String.leb s1 s2 = true)).
  - apply order_by_sorted; [apply string_leb_total | apply string_leb_trans].
  - apply order_by_sorted; [apply string_leb_total | apply string_leb_trans].
  - unfold sorted. by rewrite !order_by_perm.
Qed.

Lemma dict_lookup_set {V} (k k' : string) (v : V) (d : list (string * V)) :
  dict_lookup k (dict_set k' v d)
  = if decide (k' = k) then Some v else dict_lookup k d.
Proof.
  induction d as [|[k0 v0] d IH]; cbn [dict_set dict_lookup]; [done |].
  destruct (decide (k0 = k')) as [->|Hne]; cbn [dict_lookup].
  - by destruct (decide (k' = k)).
  - rewrite IH. destruct (decide (k0 = k)) as [->|]; [| done].
    by rewrite decide_False.
Qed.

Lemma colors_lookup (l : list string) (tag : string) :
  ∀ acc i,
    let d := foldl (λ tag_colors '(i, tag), dict_set tag (tag_color i tag) tag_colors)
               acc (enumerate i l) in
    (tag ∈ l → ∃ j, dict_lookup tag d = Some (tag_color j tag))
    ∧ (tag ∉ l → dict_lookup tag d = dict_lookup tag acc).
Proof.
  induction l as [|x l IH]; intros acc i; cbn [enumerate foldl].
  - split; [by intros ?%elem_of_nil | done].
  - destruct (IH (dict_set x (tag_color i x) acc) (S i)) as [Hin Hout].
    cbn zeta in *. split.
    + intros Hx. destruct (decide (tag ∈ l)) as [Hl|Hl]; [by apply Hin |].
      apply elem_of_cons in Hx as [->|Hx]; [| done].
      rewrite Hout by done. rewrite dict_lookup_set, decide_True by done. by eexists.
    + intros Hx. apply not_elem_of_cons in Hx as [Hne Hl].
      rewrite Hout by done. rewrite dict_lookup_set. by rewrite decide_False.
Qed.

Lemma base_hue_listed (tag : string) : base_hue tag ∈ base_hues.
Proof.
  unfold base_hue.
  assert (tag_hash tag `mod` length base_hues < length base_hues) as Hlt
    by (apply Nat.mod_upper_bound; discriminate).
  destruct (lookup_lt_is_Some_2 _ _ Hlt) as [h Hh]. rewrite Hh. cbn [default].
  by eapply list_elem_of_lookup_2.
Qed.

(** X20: [generate_tag_colors] gives every tag of its list a colour
    [hsl(h, 70%, 90%)] whose hue [h] is the base hue of the tag's name, one
    of the twelve listed, plus 0, 5 or 10; [h] stays below 360, so the
    reduction modulo 360 never applies; a tag that is not listed has no
    colour. *)
Theorem every_tag_gets_a_pastel_colour (tags : list string) (tag : string) :
  (tag ∈ tags →
     ∃ shift, shift ∈ [0; 5; 10] ∧ base_hue tag ∈ base_hues
       ∧ base_hue tag + shift < 360
       ∧ dict_lookup tag (generate_tag_colors tags)
         = Some ("hsl(" +:+ pretty (base_hue tag + shift) +:+ ", 70%, 90%)"))
  ∧ (tag ∉ tags → dict_lookup tag (generate_tag_colors tags) = None).
Proof.
  destruct (colors_lookup (sorted tags) tag [] 0) as [Hin Hout]. cbn zeta in *.
  fold (generate_tag_colors tags) in Hin, Hout.
  assert (tag ∈ sorted tags ↔ tag ∈ tags) as Hs
    by (unfold sorted; by rewrite order_by_perm).
  split.
  - intros Ht. destruct Hin as [j Hj]; [by apply Hs |].
    pose proof (base_hue_listed tag) as Hb.
    assert (base_hue tag ≤ 345) as Hle.
    { assert (Forall (λ h, h ≤ 345) base_hues) as Hall
        by (apply (bool_decide_unpack _); vm_compute; exact I).
      rewrite Forall_forall in Hall. by apply Hall. }
    assert (j `mod` 3 < 3) as Hj3 by (apply Nat.mod_upper_bound; discriminate).
    exists (j `mod` 3 * 5). split_and!; [| done | lia |].
    + destruct (j `mod` 3) as [|[|[|?]]]; [left | right; left | do 2 right; left | lia].
    + rewrite Hj. unfold tag_color. cbn zeta. by rewrite Nat.mod_small by lia.
  - intros Ht. apply Hout. by rewrite Hs.
Qed.

(** X21: the colours do not depend on the order in which the tags are
    given: two lists with the same tags, each as often, get the same
    dictionary. *)
Theorem tag_colours_ignore_the_order_of_the_tags (tags tags' : list string) :
  tags ≡ₚ tags' → generate_tag_colors tags = generate_tag_colors tags'.
Proof. intros Hp. unfold generate_tag_colors. by rewrite (sorted_perm _ _ Hp). Qed.

Lemma tag_colours_ignore_the_order_of_the_tags_witness :
  generate_tag_colors ["python"; "ml"; "py"]
  = generate_tag_colors ["ml"; "py"; "python"].
Proof.
  apply (tag_colours_ignore_the_order_of_the_tags ["python"; "ml"; "py"]
           ["ml"; "py"; "python"]).
  apply (bool_decide_unpack _). vm_compute. exact I.
Defined.

Section MinClusterSize.

Context (cosine_distance : list float → list float → float).

(** X19: the filter of the suggest command on the cluster size changes
    nothing for a minimum of two (the default) or less: every cluster that
    [cluster_similar_notes] returns has two members at least. *)
Theorem default_min_cluster_size_filters_nothing (db : database)
    (similarity_threshold : float) (min_cluster_size : Z)
    (clusters : list (list Note.t)) :
  cluster_similar_notes cosine_distance db similarity_threshold = Some clusters →
  (min_cluster_size ≤ 2)%Z →
  filter_clusters min_cluster_size clusters = clusters.
Proof.
  intros Hc Hmin.
  destruct (cluster_similar_notes_members cosine_distance db similarity_threshold)
    as (clusters' & Hc' & Hmem).
  rewrite Hc in Hc'. injection Hc' as <-.
  unfold filter_clusters. apply filter_all, Forall_forall. intros c Hin.
  destruct (Hmem c Hin) as [Hlen _]. lia.
Qed.

End MinClusterSize.

Lemma default_min_cluster_size_filters_nothing_witness :
  filter_clusters 2 sample_clusters = sample_clusters.
Proof.
  apply (default_min_cluster_size_filters_nothing line_distance sample_db 0.875 2
           sample_clusters).
  - vm_compute. reflexivity.
  - lia.
Defined.

(** ** The themes of a blog post *)

Lemma group_get_append {V} (k k' : string) (x : V) (d : list (string * list V)) :
  group_get k (group_append k' x d)
  = if decide (k' = k) then group_get k d ++ [x] else group_get k d.
Proof.
  induction d as [|[k0 l] d IH]; cbn [group_append group_get].
  - by destruct (decide (k' = k)).
  - destruct (decide (k0 = k')) as [->|Hne]; cbn [group_get].
    + by destruct (decide (k' = k)).
    + rewrite IH. destruct (decide (k0 = k)) as [->|]; [| done].
      by rewrite decide_False.
Qed.

Lemma group_append_keys {V} (k : string) (x : V) (d : list (string * list V)) :
  (group_append k x d).*1 = if decide (k ∈ d.*1) then d.*1 else d.*1 ++ [k].
Proof.
  induction d as [|[k0 l] d IH]; cbn [group_append].
  - case_decide as H; [by apply elem_of_nil in H | done].
  - destruct (decide (k0 = k)) as [->|Hne].
    + rewrite decide_True; [done | cbn; left].
    + cbn [fmap list_fmap fst]. cbn in IH. rewrite IH.
      destruct (decide (k ∈ d.*1)) as [Hin|Hnin].
      * rewrite decide_True; [done | by right].
      * rewrite decide_False; [done |].
        intros [?|?]%elem_of_cons; cbn in *; congruence.
Qed.

Lemma group_get_elem {V} (k : string) (l : list V) (d : list (string * list V)) :
  NoDup d.*1 → (k, l) ∈ d → group_get k d = l.
Proof.
  induction d as [|[k0 l0] d IH]; [by intros _ ?%elem_of_nil |].
  cbn [fmap list_fmap fst group_get]. intros [Hk0 Hnd]%NoDup_cons Hin.
  apply elem_of_cons in Hin as [[= -> ->]|Hin]; [by rewrite decide_True |].
  rewrite decide_False; [by apply IH |]. intros ->. apply Hk0.
  apply list_elem_of_fmap. by exists (k, l).
Qed.

Lemma group_get_key {V} (k : string) (d : list (string * list V)) :
  k ∈ d.*1 → (k, group_get k d) ∈ d.
Proof.
  induction d as [|[k0 l0] d IH]; [by intros ?%elem_of_nil |].
  cbn [fmap list_fmap fst group_get]. intros Hin.
  destruct (decide (k0 = k)) as [->|Hne]; [left |].
  right. apply IH. apply elem_of_cons in Hin as [?|?]; [congruence | done].
Qed.

Lemma group_get_other {V} (k : string) (d : list (string * list V)) :
  k ∉ d.*1 → group_get k d = [].
Proof.
  induction d as [|[k0 l0] d IH]; [done |].
  cbn [fmap list_fmap fst group_get]. intros [Hne Hd]%not_elem_of_cons.
  rewrite decide_False by done. by apply IH.
Qed.

Lemma grouped_append {V} (k : string) (x : V) (d : list (string * list V)) :
  k ≠ EmptyString → grouped d → grouped (group_append k x d).
Proof.
  intros Hk (Hnd & Hne & Hl). unfold grouped.
  rewrite group_append_keys. split_and!.
  - case_decide; [done |]. apply NoDup_app. split_and!; [done | | apply NoDup_singleton].
    intros y Hy ->%list_elem_of_singleton. done.
  - case_decide; [done |]. rewrite elem_of_app, list_elem_of_singleton. naive_solver.
  - intros k' Hk'. rewrite group_get_append.
    destruct (decide (k = k')) as [->|Hkk]; [by destruct (group_get k' d) |].
    apply Hl. case_decide; [done |].
    apply elem_of_app in Hk' as [?|?%list_elem_of_singleton]; [done | congruence].
Qed.

Lemma group_note (note : BlogNote.t) (l : list string) :
  ∀ d, grouped d →
    let d' := foldl (λ tag_notes tag,
                       if decide (tag = EmptyString) then tag_notes
                       else group_append tag note tag_notes) d l in
    grouped d'
    ∧ ∀ k, group_get k d'
           = group_get k d
             ++ if decide (k = EmptyString) then []
                else _ ← filter (λ t, t = k) l; [note].
Proof.
  induction l as [|t l IH]; intros d Hd; cbn [foldl]; cbn zeta.
  - split; [done |]. intros k. rewrite filter_nil.
    destruct (decide (k = EmptyString)); cbn; by rewrite app_nil_r.
  - destruct (decide (t = EmptyString)) as [->|Ht].
    + destruct (IH d Hd) as [Hg Hget]. cbn zeta in *. split; [done |].
      intros k. rewrite Hget. f_equal.
      destruct (decide (k = EmptyString)) as [->|Hk]; [done |].
      by rewrite filter_cons_False by done.
    + destruct (IH (group_append t note d)) as [Hg Hget];
        [by apply grouped_append |].
      cbn zeta in *. split; [done |]. intros k. rewrite Hget, group_get_append.
      destruct (decide (t = k)) as [->|Htk].
      * rewrite filter_cons_True by done.
        destruct (decide (k = EmptyString)); [done |].
        cbn. by rewrite <-app_assoc.
      * destruct (decide (k = EmptyString)) as [->|Hk]; [done |].
        by rewrite filter_cons_False by done.
Qed.

Lemma group_by_tag_spec (notes : list BlogNote.t) :
  grouped (group_by_tag notes)
  ∧ ∀ k, group_get k (group_by_tag notes)
         = if decide (k = EmptyString) then [] else notes_tagged k notes.
Proof.
  unfold group_by_tag.
  assert (∀ d, grouped d →
    let d' := foldl (λ tag_notes note,
                foldl (λ tag_notes tag,
                         if decide (tag = EmptyString) then tag_notes
                         else group_append tag note tag_notes)
                      tag_notes (note_tag_list note)) d notes in
    grouped d'
    ∧ ∀ k, group_get k d'
           = group_get k d
             ++ if decide (k = EmptyString) then [] else notes_tagged k notes) as H.
  { induction notes as [|note notes IH]; intros d Hd; cbn [foldl]; cbn zeta.
    - split; [done |]. intros k. unfold notes_tagged. cbn.
      by destruct (decide (k = EmptyString)); rewrite app_nil_r.
    - destruct (group_note note (note_tag_list note) d Hd) as [Hg1 Hget1].
      cbn zeta in *.
      destruct (IH _ Hg1) as [Hg Hget]. cbn zeta in *. split; [done |].
      intros k. rewrite Hget, Hget1, <-app_assoc. f_equal.
      destruct (decide (k = EmptyString)); [done |].
      unfold notes_tagged. by rewrite bind_cons. }
  destruct (H []) as [Hg Hget].
  { split_and!; [constructor | by intros ?%elem_of_nil | by intros ? ?%elem_of_nil]. }
  cbn zeta in *. split; [done |]. intros k. by rewrite Hget.
Qed.

Section ThemesProofs.

Context (title_case : string → string).

Lemma themes_fold (d : list (string * list BlogNote.t)) (acc : list Theme.t) :
  foldl (λ themes '(tag, tag_note_list),
           if Nat.leb 2 (length tag_note_list)
           then themes ++ [theme_of title_case tag tag_note_list]
           else themes) acc d
  = acc ++ ((λ p, theme_of title_case p.1 p.2)
              <$> filter (λ p, 2 ≤ length p.2) d).
Proof.
  revert acc. induction d as [|[k l] d IH]; intros acc; cbn [foldl].
  - by rewrite filter_nil, app_nil_r.
  - rewrite IH, filter_cons. cbn [snd].
    destruct (Nat.leb_spec 2 (length l)) as [Hl|Hl].
    + rewrite decide_True by done. by rewrite fmap_cons, <-app_assoc.
    + rewrite decide_False by lia. done.
Qed.

(** X22: [extract_themes] returns one theme for each non-empty tag that
    two notes or more list, and no other; the theme of a tag is made from
    the notes that list it, in their order, and the themes come with the
    larger ones first. *)
Theorem themes_are_the_tags_of_two_notes_or_more (notes : list BlogNote.t) :
  let themes := extract_themes title_case notes in
  NoDup (Theme.tag <$> themes)
  ∧ (∀ tag, tag ∈ Theme.tag <$> themes
       ↔ tag ≠ EmptyString ∧ 2 ≤ length (notes_tagged tag notes))
  ∧ (∀ theme, theme ∈ themes →
       theme = theme_of title_case (Theme.tag theme)
                 (notes_tagged (Theme.tag theme) notes))
  ∧ (∀ i j a b, i < j → themes !! i = Some a → themes !! j = Some b →
       length (Theme.notes b) ≤ length (Theme.notes a)).
Proof.
  cbn zeta. unfold extract_themes. rewrite themes_fold. cbn [app].
  destruct (group_by_tag_spec notes) as [(Hnd & Hne & Hl) Hget].
  set (d := group_by_tag notes) in *.
  set (chosen := filter (λ p, 2 ≤ length p.2) d).
  set (le := λ a b : Theme.t, Nat.leb (length (Theme.notes b)) (length (Theme.notes a))).
  assert (∀ p, p ∈ d → p.1 ≠ EmptyString ∧ p.2 = notes_tagged p.1 notes) as Hd.
  { intros [k l] Hin. cbn [fst snd].
    assert (k ≠ EmptyString) as Hk.
    { intros ->. apply Hne, list_elem_of_fmap. by exists (EmptyString, l). }
    split; [done |]. rewrite <-(group_get_elem k l d Hnd Hin), Hget.
    by rewrite decide_False. }
  assert (∀ theme, theme ∈ order_by le ((λ p, theme_of title_case p.1 p.2) <$> chosen)
            ↔ ∃ p, p ∈ d ∧ 2 ≤ length p.2 ∧ theme = theme_of title_case p.1 p.2)
    as Hmem.
  { intros theme. rewrite order_by_perm, list_elem_of_fmap. unfold chosen.
    setoid_rewrite list_elem_of_filter. naive_solver. }
  split_and!.
  - rewrite order_by_perm, <-list_fmap_compose.
    assert (Theme.tag ∘ (λ p, theme_of title_case p.1 p.2) <$> chosen = chosen.*1)
      as -> by (by apply list_fmap_ext).
    unfold chosen. eapply sublist_NoDup; [exact Hnd |].
    apply fmap_sublist, sublist_filter.
  - intros tag. rewrite list_elem_of_fmap. split.
    + intros (theme & -> & (p & Hin & Hlen & ->)%Hmem).
      change (Theme.tag (theme_of title_case p.1 p.2)) with p.1.
      destruct (Hd p Hin) as [Hk Hp]. split; [done |]. by rewrite <-Hp.
    + intros [Hk Hlen].
      assert (group_get tag d = notes_tagged tag notes) as Hg
        by (by rewrite Hget, decide_False).
      assert (tag ∈ d.*1) as Hkey.
      { destruct (decide (tag ∈ d.*1)) as [|Hn]; [done |].
        rewrite (group_get_other _ _ Hn) in Hg. rewrite <-Hg in Hlen. cbn in Hlen. lia. }
      exists (theme_of title_case tag (notes_tagged tag notes)). split; [done |].
      apply Hmem. exists (tag, notes_tagged tag notes). split_and!; [| done | done].
      rewrite <-Hg. by apply group_get_key.
  - intros theme (p & Hin & Hlen & ->)%Hmem.
    change (Theme.tag (theme_of title_case p.1 p.2)) with p.1.
    destruct (Hd p Hin) as [_ Hp]. by rewrite <-Hp.
  - intros i j a b Hij Ha Hb.
    assert (StronglySorted (λ a b, le a b = true)
              (order_by le ((λ p, theme_of title_case p.1 p.2) <$> chosen))) as Hs.
    { apply order_by_sorted; unfold le.
      - intros x y Hxy%Nat.leb_gt. apply Nat.leb_le. lia.
      - intros x y z Hxy%Nat.leb_le Hyz%Nat.leb_le. apply Nat.leb_le. lia. }
    pose proof (StronglySorted_lookup _ _ i j a b Hs Hij Ha Hb) as Hle.
    by apply Nat.leb_le in Hle.
Qed.

End ThemesProofs.
